(** * HonestLevy / GothamClean content scripts: a shallow embedding

    The repository ships two sibling content scripts (HonestLevy and its
    predecessor GothamClean).  Both are embedded below, function by function,
    over one model of the browser objects they touch: strings, URLs, the DOM
    tree, CSS selectors, the plain-object title cache, timers and listeners. *)

From Stdlib Require Import ZArith String Ascii.
From stdpp Require Import base option list strings gmap pretty.

Local Open Scope string_scope.
Set Warnings "-register-all".

(** ** JavaScript strings

    A string is a sequence of code units.  Every pattern, selector and
    channel name of the scripts is ASCII, so the byte view of [string] decides
    the same matches as the UTF-16 view of the engine. *)
Module Js.

(** [hay.includes(needle)] *)
Fixpoint includes (hay needle : string) : bool :=
  String.prefix needle hay
  || match hay with
     | EmptyString => false
     | String _ hay' => includes hay' needle
     end.

Definition lowerChar (c : ascii) : ascii :=
  let n := nat_of_ascii c in
  if (65 <=? n)%nat && (n <=? 90)%nat then ascii_of_nat (n + 32) else c.

(** [s.toLowerCase()], on the ASCII letters (no channel name has a letter
    that a non-ASCII character lowers to). *)
Fixpoint toLowerCase (s : string) : string :=
  match s with
  | EmptyString => EmptyString
  | String c s' => String (lowerChar c) (toLowerCase s')
  end.

(** Truthiness of a value that is a string, [null] or [undefined]. *)
Definition truthy (v : option string) : bool :=
  match v with
  | Some (String _ _) => true
  | _ => false
  end.

(** [a || b] on such values. *)
Definition orElse (a b : option string) : option string :=
  if truthy a then a else b.

(** What a script can raise. *)
Inductive exn := TypeError.

(** Completion of a statement list: it ran to its end (or returned), or it
    threw. *)
Inductive completion := Normal | Throw (e : exn).

End Js.

(** ** The four URL patterns

    Each regular expression of [extractVideoId] is a fixed run of character
    classes followed by the one capture group [([a-zA-Z0-9_-]{11})]. *)
Module Pattern.

Definition charClass := ascii -> bool.

(** [[a-zA-Z0-9_-]] *)
Definition idChar : charClass := fun c =>
  let n := nat_of_ascii c in
  ((97 <=? n)%nat && (n <=? 122)%nat)
  || ((65 <=? n)%nat && (n <=? 90)%nat)
  || ((48 <=? n)%nat && (n <=? 57)%nat)
  || (n =? 95)%nat || (n =? 45)%nat.

Definition oneOf (cs : string) : charClass := fun c =>
  existsb (Ascii.eqb c) (list_ascii_of_string cs).

Definition lit (s : string) : list charClass :=
  map (fun c => Ascii.eqb c) (list_ascii_of_string s).

(** The classes match the head of [s]; what follows them. *)
Fixpoint matchClasses (cs : list charClass) (s : string) : option string :=
  match cs with
  | [] => Some s
  | k :: cs' =>
      match s with
      | String c s' => if k c then matchClasses cs' s' else None
      | EmptyString => None
      end
  end.

(** [n] identifier characters at the head of [s]. *)
Fixpoint takeId (n : nat) (s : string) : option string :=
  match n with
  | O => Some EmptyString
  | S n' =>
      match s with
      | String c s' =>
          if idChar c then String c <$> takeId n' s' else None
      | EmptyString => None
      end
  end.

(** The pattern matches at the head of [s]: the captured group. *)
Definition matchHere (lead : list charClass) (s : string) : option string :=
  matchClasses lead s ≫= takeId 11.

(** [s.match(pattern)] for a pattern without the global flag: the capture
    of the leftmost match, [None] for [null]. *)
Fixpoint search (lead : list charClass) (s : string) : option string :=
  match matchHere lead s with
  | Some cap => Some cap
  | None =>
      match s with
      | EmptyString => None
      | String _ s' => search lead s'
      end
  end.

Definition watchParam : list charClass := oneOf "?&" :: lit "v=".
Definition shortLink : list charClass := lit "youtu.be/".
Definition shortsPath : list charClass := lit "/shorts/".
Definition embedPath : list charClass := lit "/embed/".

Definition patterns : list (list charClass) :=
  [watchParam; shortLink; shortsPath; embedPath].

(** [for (const pattern of patterns) { match = url.match(pattern); if (match) return match[1]; } return null] *)
Fixpoint firstCapture (ps : list (list charClass)) (url : string) : option string :=
  match ps with
  | [] => None
  | p :: ps' =>
      match search p url with
      | Some cap => Some cap
      | None => firstCapture ps' url
      end
  end.

End Pattern.

(** [extractVideoId(url)]; the two scripts carry the same text.  The argument
    is [None] for [null]. *)
Definition extractVideoId (url : option string) : option string :=
  match url with
  | None => None
  | Some EmptyString => None
  | Some u => Pattern.firstCapture Pattern.patterns u
  end.

(** ** URLs

    [element.href] of an anchor is its [href] attribute parsed against the
    base URL of the document and serialized.  [resolve] is that for a base
    that is a serialized [http(s)] URL: the reference is trimmed; an
    absolute reference is returned as it stands; a relative one (empty, a
    fragment, a query, a path, a host with a path) takes from the base what
    it lacks, dot segments removed.  An absolute reference is taken to be in
    serialized form already, and a reference to hold no character that the
    parser would rewrite (a backslash, a character it percent-encodes). *)
Module Url.

(** [s] up to the first character that passes [stop], and the rest from that
    character on. *)
Fixpoint break (stop : ascii -> bool) (s : string) : string * string :=
  match s with
  | EmptyString => ("", "")
  | String c s' =>
      if stop c then ("", s)
      else let (before, rest) := break stop s' in (String c before, rest)
  end.

Definition oneOf (chars : string) (c : ascii) : bool :=
  existsb (Ascii.eqb c) (list_ascii_of_string chars).

Definition isAlpha (c : ascii) : bool :=
  let n := nat_of_ascii c in
  ((65 <=? n) && (n <=? 90) || (97 <=? n) && (n <=? 122))%nat.

Definition isSchemeChar (c : ascii) : bool :=
  let n := nat_of_ascii c in
  isAlpha c || ((48 <=? n) && (n <=? 57))%nat || oneOf "+-." c.

(** The reference starts with a scheme: a letter, then letters, digits,
    [+], [-] and [.], then a colon. *)
Definition hasScheme (s : string) : bool :=
  match s with
  | String c s' =>
      isAlpha c
      && match (break (fun x => negb (isSchemeChar x)) s').2 with
         | String ":" _ => true
         | _ => false
         end
  | EmptyString => false
  end.

(** Leading and trailing C0 controls and spaces are stripped, tabs and
    newlines removed throughout. *)
Fixpoint strip (l : list ascii) : list ascii :=
  match l with
  | c :: l' => if (nat_of_ascii c <=? 32)%nat then strip l' else l
  | [] => []
  end.
Definition trim (s : string) : string :=
  string_of_list_ascii
    (filter (fun c => c ∉ ["009"; "010"; "013"]%char)
       (rev (strip (rev (strip (list_ascii_of_string s)))))).

Definition withoutFragment (url : string) : string := (break (oneOf "#") url).1.
Definition withoutQuery (url : string) : string := (break (oneOf "?#") url).1.

(** [https] of [https://host/path]. *)
Definition scheme (url : string) : string := (break (oneOf ":") url).1.

(** What follows [scheme://host] in a serialized URL. *)
Definition afterOrigin (url : string) : string :=
  match (break (oneOf ":") url).2 with
  | String ":" (String "/" (String "/" rest)) => (break (oneOf "/?#") rest).2
  | rest => rest
  end.

(** [scheme://host] *)
Definition origin (url : string) : string :=
  match (break (oneOf ":") url).2 with
  | String ":" (String "/" (String "/" rest)) =>
      scheme url +:+ "://" +:+ (break (oneOf "/?#") rest).1
  | _ => scheme url
  end.

(** The segments of a path, without the slash each one follows. *)
Fixpoint segments' (fuel : nat) (path : string) : list string :=
  match fuel with
  | O => []
  | S fuel =>
      match path with
      | String "/" rest =>
          let (seg, more) := break (oneOf "/") rest in seg :: segments' fuel more
      | _ => []
      end
  end.
Definition segments (path : string) : list string := segments' (String.length path) path.

Definition isSingleDot (seg : string) : bool :=
  bool_decide (seg ∈ ["."; "%2e"; "%2E"]).
Definition isDoubleDot (seg : string) : bool :=
  bool_decide
    (seg ∈ [".."; ".%2e"; ".%2E"; "%2e."; "%2E."; "%2e%2e"; "%2e%2E"; "%2E%2e"; "%2E%2E"]).

(** The segments with [.] and [..] carried out; [done] is what is kept so
    far, last segment first. *)
Fixpoint removeDots (done segs : list string) : list string :=
  match segs with
  | [] => rev done
  | seg :: rest =>
      let slash := match rest with [] => [""] | _ => [] end in
      if isDoubleDot seg then removeDots (slash ++ tail done) rest
      else if isSingleDot seg then removeDots (slash ++ done) rest
      else removeDots (seg :: done) rest
  end.

Definition joinPath (segs : list string) : string :=
  match segs with
  | [] => "/"
  | _ => foldr (fun seg rest => "/" +:+ seg +:+ rest) "" segs
  end.

(** [new URL(reference, base).href] *)
Definition resolve (base reference : string) : string :=
  let r := trim reference in
  if hasScheme r then r
  else
    let (path, rest) := break (oneOf "?#") r in
    match r with
    | EmptyString => withoutFragment base
    | String "#" _ => withoutFragment base +:+ r
    | String "?" _ => withoutQuery base +:+ r
    | String "/" (String "/" authority) =>
        let (host, tail) := break (oneOf "/?#") authority in
        let (path, rest) := break (oneOf "?#") tail in
        scheme base +:+ "://" +:+ host +:+ joinPath (removeDots [] (segments path)) +:+ rest
    | String "/" _ =>
        origin base +:+ joinPath (removeDots [] (segments path)) +:+ rest
    | _ =>
        let directory := removelast (segments (withoutQuery (afterOrigin base))) in
        origin base
        +:+ joinPath (removeDots [] (directory ++ segments ("/" +:+ path))) +:+ rest
    end.

Arguments resolve : simpl never.

End Url.

(** ** The page tree

    An element is referred to by its path from the document root (the child
    index at every level): two references are the same object exactly when
    the paths are equal, and a node the host reuses for other content keeps
    its path.  A reference to a node that a rewrite of an ancestor's text has
    removed reads as a reference to nothing.  The [href] property of an anchor
    is its [href] attribute resolved against the base URL of the document,
    which is taken to be the URL of the page (a [base] element is not part
    of the model). *)
Module Dom.

(** [getBoundingClientRect()]: layout is the host's, the scripts only
    compare these numbers. *)
Record DOMRect := { width : Z; height : Z; top : Z; bottom : Z }.

Inductive node :=
  | Text (data : string)
  | Element (localName : string) (attributes : gmap string string)
          (rect : DOMRect) (childNodes : list node).

Definition path := list nat.

(** What a compound selector reads of an element. *)
Record ehead := { h_name : string; h_attrs : gmap string string }.

(** An element in document order: where it is, its ancestors (nearest
    first) and the element. *)
Record entry := { e_path : path; e_ancestors : list ehead; e_node : node }.

Definition headOf (n : node) : ehead :=
  match n with
  | Text _ => {| h_name := ""; h_attrs := ∅ |}
  | Element t a _ _ => {| h_name := t; h_attrs := a |}
  end.

Definition isElement (n : node) : bool :=
  match n with Element _ _ _ _ => true | Text _ => false end.

Fixpoint nodeAt (n : node) (p : path) {struct p} : option node :=
  match p with
  | [] => Some n
  | i :: p' =>
      match n with
      | Element _ _ _ ch =>
          match ch !! i with
          | Some c => nodeAt c p'
          | None => None
          end
      | Text _ => None
      end
  end.

Fixpoint alterAt (f : node -> node) (n : node) (p : path) {struct p} : node :=
  match p with
  | [] => f n
  | i :: p' =>
      match n with
      | Element t a r ch => Element t a r (alter (fun c => alterAt f c p') i ch)
      | Text _ => n
      end
  end.

(** [f i x] for every [x] of the list and its index [i], counted from [i0],
    concatenated. *)
Fixpoint concatMapi {A B : Type} (f : nat -> A -> list B) (i0 : nat) (l : list A) : list B :=
  match l with
  | [] => []
  | x :: l' => (f i0 x ++ concatMapi f (S i0) l')%list
  end.

(** Inclusive descendants of [n] that are elements, in document order. *)
Fixpoint subtree (anc : list ehead) (here : path) (n : node) : list entry :=
  match n with
  | Text _ => []
  | Element t a _ ch =>
      {| e_path := here; e_ancestors := anc; e_node := n |}
      :: concatMapi
           (fun i c => subtree ({| h_name := t; h_attrs := a |} :: anc) (here ++ [i])%list c)
           0%nat ch
  end.

(** Where the elements of [n] are and what they are called, in document
    order. *)
Fixpoint tags (here : path) (n : node) : list (path * string) :=
  match n with
  | Text _ => []
  | Element t _ _ ch =>
      (here, t) :: concatMapi (fun i c => tags (here ++ [i])%list c) 0%nat ch
  end.

(** [node.textContent] *)
Fixpoint textContent (n : node) : string :=
  match n with
  | Text s => s
  | Element _ _ _ ch =>
      (fix cat (l : list node) : string :=
         match l with
         | [] => ""
         | c :: l' => textContent c +:+ cat l'
         end) ch
  end.

(** [node.textContent = s]: the children are replaced by one text node, by
    none when [s] is empty. *)
Definition setTextContent (s : string) (n : node) : node :=
  match n with
  | Text _ => Text s
  | Element t a r _ =>
      Element t a r (match s with EmptyString => [] | _ => [Text s] end)
  end.

Definition getAttribute (name : string) (n : node) : option string :=
  match n with
  | Text _ => None
  | Element _ a _ _ => a !! name
  end.

Definition setAttribute (name value : string) (n : node) : node :=
  match n with
  | Text _ => n
  | Element t a r ch => Element t (<[name := value]> a) r ch
  end.

(** [element.href]: an anchor has the property, the attribute resolved
    against the base URL (the empty string without the attribute); other
    elements read [undefined]. *)
Definition href (base : string) (n : node) : option string :=
  match n with
  | Element "a" a _ _ =>
      Some (match a !! "href" with
            | Some reference => Url.resolve base reference
            | None => ""
            end)
  | _ => None
  end.

Definition getBoundingClientRect (n : node) : DOMRect :=
  match n with
  | Element _ _ r _ => r
  | Text _ => {| width := 0; height := 0; top := 0; bottom := 0 |}
  end.

(** *** Selectors

    The scripts use type, [#id], [.class], [[attr]] and [[attr*="v"]]
    selectors, compounded, and chained by the descendant combinator. *)
Record compound := {
  c_name : option string;
  c_id : option string;
  c_classes : list string;
  c_has : list string;
  c_contains : list (string * string)
  }.

(** A complex selector: its compounds from left to right. *)
Definition selector := list compound.

Definition any : compound :=
  {| c_name := None; c_id := None; c_classes := []; c_has := []; c_contains := [] |}.
Definition withName (t : string) (c : compound) : compound :=
  {| c_name := Some t; c_id := c_id c; c_classes := c_classes c;
     c_has := c_has c; c_contains := c_contains c |}.
Definition withId (i : string) (c : compound) : compound :=
  {| c_name := c_name c; c_id := Some i; c_classes := c_classes c;
     c_has := c_has c; c_contains := c_contains c |}.
Definition withClass (k : string) (c : compound) : compound :=
  {| c_name := c_name c; c_id := c_id c; c_classes := k :: c_classes c;
     c_has := c_has c; c_contains := c_contains c |}.
Definition withAttr (a : string) (c : compound) : compound :=
  {| c_name := c_name c; c_id := c_id c; c_classes := c_classes c;
     c_has := a :: c_has c; c_contains := c_contains c |}.
Definition withAttrContains (a v : string) (c : compound) : compound :=
  {| c_name := c_name c; c_id := c_id c; c_classes := c_classes c;
     c_has := c_has c; c_contains := (a, v) :: c_contains c |}.

Definition isSpace (c : ascii) : bool :=
  let n := nat_of_ascii c in
  (n =? 32)%nat || (n =? 9)%nat || (n =? 10)%nat || (n =? 12)%nat || (n =? 13)%nat.

(** The whitespace-separated tokens of [s], [cur] being the token read so
    far. *)
Fixpoint tokens (s cur : string) : list string :=
  match s with
  | EmptyString => match cur with EmptyString => [] | _ => [cur] end
  | String c s' =>
      if isSpace c
      then match cur with EmptyString => tokens s' "" | _ => cur :: tokens s' "" end
      else tokens s' (cur +:+ String c "")
  end.

Definition classList (h : ehead) : list string :=
  tokens (default "" (h_attrs h !! "class")) "".

Definition matchesCompound (c : compound) (h : ehead) : bool :=
  match c_name c with None => true | Some t => String.eqb t (h_name h) end
  && match c_id c with None => true | Some i => bool_decide (h_attrs h !! "id" = Some i) end
  && forallb (fun k => bool_decide (k ∈ classList h)) (c_classes c)
  && forallb (fun a => bool_decide (is_Some (h_attrs h !! a))) (c_has c)
  && forallb (fun av => match h_attrs h !! av.1 with
                        | Some x => Js.includes x av.2
                        | None => false
                        end) (c_contains c).

(** The compounds left of the subject, nearest first, each need an
    ancestor, in order. *)
Fixpoint matchesAncestors (anc : list ehead) (cs : list compound) : bool :=
  match cs, anc with
  | [], _ => true
  | _ :: _, [] => false
  | c :: cs', h :: anc' =>
      if matchesCompound c h then matchesAncestors anc' cs' else matchesAncestors anc' cs
  end.

(** [element.matches(selector)] *)
Definition matches (sel : selector) (e : entry) : bool :=
  match rev sel with
  | [] => false
  | c :: cs => matchesCompound c (headOf (e_node e)) && matchesAncestors (e_ancestors e) cs
  end.

(** [p] lies strictly below [c]. *)
Definition below (c p : path) : bool :=
  bool_decide (c `prefix_of` p) && negb (bool_decide (p = c)).

Definition allElements (doc : node) : list entry := subtree [] [] doc.

(** [document.querySelectorAll(selector)] *)
Definition querySelectorAll (doc : node) (sel : selector) : list path :=
  e_path <$> filter (fun e => matches sel e = true) (allElements doc).

(** [document.querySelector(selector)] *)
Definition querySelectorDoc (doc : node) (sel : selector) : option path :=
  head (querySelectorAll doc sel).

(** [container.querySelectorAll(selector)]: the matches among the
    descendants of the container; the selector itself is read against the
    whole document. *)
Definition querySelectorAllIn (doc : node) (container : path) (sel : selector) : list path :=
  filter (fun p => below container p = true) (querySelectorAll doc sel).

(** [container.querySelector(selector)] *)
Definition querySelector (doc : node) (container : path) (sel : selector) : option path :=
  head (querySelectorAllIn doc container sel).

(** The reference [p] leads to an element of the document. *)
Definition elementAt (doc : node) (p : path) : Prop :=
  exists t a r ch, nodeAt doc p = Some (Element t a r ch).

(** Reads and writes through a reference. *)
Definition textContentAt (doc : node) (p : path) : string :=
  from_option textContent "" (nodeAt doc p).
Definition getAttributeAt (doc : node) (p : path) (name : string) : option string :=
  nodeAt doc p ≫= getAttribute name.
Definition hrefAt (base : string) (doc : node) (p : path) : option string :=
  nodeAt doc p ≫= href base.
Definition rectAt (doc : node) (p : path) : DOMRect :=
  from_option getBoundingClientRect {| width := 0; height := 0; top := 0; bottom := 0 |}
    (nodeAt doc p).
Definition setTextContentAt (doc : node) (p : path) (s : string) : node :=
  alterAt (setTextContent s) doc p.
Definition setAttributeAt (doc : node) (p : path) (name value : string) : node :=
  alterAt (setAttribute name value) doc p.

(** The elements of a node in document order, each with its reference and
    its tag and attributes: what a selector of one compound is tested
    against. *)
Fixpoint heads (here : path) (n : node) : list (path * ehead) :=
  match n with
  | Text _ => []
  | Element t a _ ch =>
      (here, {| h_name := t; h_attrs := a |})
      :: concatMapi (fun i c => heads (here ++ [i])%list c) 0%nat ch
  end.

(** The references of the elements whose tag and attributes pass a test. *)
Definition select (P : ehead -> bool) (l : list (path * ehead)) : list path :=
  (filter (fun ph => P ph.2 = true) l).*1.

(** The attributes a compound looks at. *)
Definition reads (c : compound) (k : string) : Prop :=
  k = "id" \/ k = "class" \/ k ∈ c_has c \/ k ∈ (c_contains c).*1.

(** A selector of one compound that names the tag [a] and looks at neither
    of two attributes. *)
Definition linkSelector (k1 k2 : string) (sel : selector) : Prop :=
  exists c0, sel = [c0] /\ c_name c0 = Some "a" /\ ~ reads c0 k1 /\ ~ reads c0 k2.

(** The three writes of a title replacement, on the node itself:
    [textContent], then two [setAttribute]. *)
Definition replaceTitle (text k1 v1 k2 v2 : string) (n : node) : node :=
  setAttribute k2 v2 (setAttribute k1 v1 (setTextContent text n)).

(** What a selector reads of an element: where it is, its ancestors and its
    own tag and attributes. *)
Definition view (e : entry) : path * list ehead * ehead :=
  (e_path e, e_ancestors e, headOf (e_node e)).

(** [matches] on a view. *)
Definition matchesView (sel : selector) (v : path * list ehead * ehead) : bool :=
  match rev sel with
  | [] => false
  | c :: cs => matchesCompound c v.2 && matchesAncestors v.1.2 cs
  end.

(** The views of the elements strictly inside [c], in document order: all
    that [c.querySelector] and [c.querySelectorAll] depend on. *)
Definition inside (c : path) (doc : node) : list (path * list ehead * ehead) :=
  filter (fun v => below c v.1.1 = true) (view <$> allElements doc).

(** The element at [c] is the same node in both documents, seen from the
    same ancestors. *)
Definition sameCard (c : path) (doc doc' : node) : Prop :=
  nodeAt doc' c = nodeAt doc c /\ inside c doc' = inside c doc.

(** Neither place is at or above the other. *)
Definition apart (a b : path) : Prop := ~ a `prefix_of` b /\ ~ b `prefix_of` a.

(** No two places of the list are the same or one inside the other. *)
Fixpoint independent (cs : list path) : bool :=
  match cs with
  | [] => true
  | c :: cs' =>
      forallb (fun c' => negb (bool_decide (c `prefix_of` c'))
                         && negb (bool_decide (c' `prefix_of` c))) cs'
      && independent cs'
  end.

End Dom.

(** ** The title cache

    [titlesCache] is a plain object parsed from JSON: a lookup
    [titlesCache[videoId]] reads an own property or, failing that, a member of
    [Object.prototype]. *)
Module Cache.

(** One record of the mapping: its own string fields. *)
Definition TitleData := gmap string string.

(** What [titlesCache[key]] evaluates to. *)
Inductive value :=
  | Undefined
  | Own (record : TitleData)
  | Inherited.

(** The property names every plain object inherits. *)
Definition objectPrototype : list string :=
  ["constructor"; "hasOwnProperty"; "isPrototypeOf"; "propertyIsEnumerable";
   "toLocaleString"; "toString"; "valueOf"; "__proto__";
   "__defineGetter__"; "__defineSetter__"; "__lookupGetter__"; "__lookupSetter__"].

Definition get (cache : gmap string TitleData) (key : string) : value :=
  match cache !! key with
  | Some record => Own record
  | None => if bool_decide (key ∈ objectPrototype) then Inherited else Undefined
  end.

(** [!titleData] is false for every object and function. *)
Definition truthy (v : value) : bool :=
  match v with
  | Undefined => false
  | Own _ | Inherited => true
  end.

(** [titleData.clean_title]; [None] is [undefined]. *)
Definition clean_title (v : value) : option string :=
  match v with
  | Own record => record !! "clean_title"
  | Undefined | Inherited => None
  end.

End Cache.

(** Messages to the background worker. *)
Inductive Message :=
  | GetTitles
  | IncrementReplacedCount (count : nat).

(** The reply to [getTitles]: [response.titles] and [response.enabled], each
    possibly missing. *)
Record Response := {
    r_titles : option (gmap string Cache.TitleData);
    r_enabled : option bool
  }.

(** One record handed to the mutation observer. *)
Inductive MutationType := ChildList | Attributes.
Record MutationRecord := {
    m_type : MutationType;
    m_addedNodes : nat;
    m_attributeName : option string
  }.

(** [changes] of [chrome.storage.onChanged]: the new value of [enabled] and
    of [titles], for the keys that changed ([Some None] is a removed
    [titles]). *)
Record Changes := {
    ch_enabled : option bool;
    ch_titles : option (option (gmap string Cache.TitleData))
  }.

(** What the host delivers to a content script. *)
Inductive Event :=
  | InitResponse (reply : option Response)
  | Mutations (records : list MutationRecord)
  | YtNavigateFinish
  | Popstate
  | Scroll
  | TimerFired (id : nat)
  | StorageChanged (changes : Changes) (namespace : string)
  | HostRender (document' : Dom.node) (href' : string) (innerHeight' : Z).

(** ** What the two scripts share word for word

    The channel constants, the fragment-local loops of [isGothamChessVideo],
    the selector walk of [findTitleElement] and [findVideoLink]. *)
Module Common.
Import Dom.

Definition GOTHAMCHESS_CHANNEL_ID := "UCQHX6ViZmPsWiYSFAyS0a3Q".
Definition GOTHAMCHESS_HANDLE := "@GothamChess".
Definition GOTHAMCHESS_NAMES := ["gothamchess"; "gotham chess"; "levy rozman"].

Definition channelSelectors : list selector :=
  [ [withName "ytd-channel-name" any];                       (* ytd-channel-name *)
    [withId "channel-name" any];                             (* #channel-name *)
    [withClass "ytd-channel-name" any];                      (* .ytd-channel-name *)
    [withAttrContains "href" "/@GothamChess" (withName "a" any)];
    [withAttrContains "href" "/channel/UCQHX6ViZmPsWiYSFAyS0a3Q" (withName "a" any)];
    [withAttrContains "href" "/c/GothamChess" (withName "a" any)] ].

(** The test on one attribution element of [isGothamChessVideo]. *)
Definition channelElementMatches (base : string) (doc : node) (channelElement : path)
    : bool :=
  let text := Js.toLowerCase (textContentAt doc channelElement) in
  let href :=
    default ""
      (Js.orElse (Js.orElse (hrefAt base doc channelElement)
                    (querySelector doc channelElement [withName "a" any] ≫= hrefAt base doc))
         (Some "")) in
  existsb (fun name => Js.includes text name) GOTHAMCHESS_NAMES
  || Js.includes href GOTHAMCHESS_HANDLE
  || Js.includes href GOTHAMCHESS_CHANNEL_ID.

(** The test on one link of the closing loop of [isGothamChessVideo]. *)
Definition channelLinkMatches (base : string) (doc : node) (link : path) : bool :=
  let href := default "" (Js.orElse (hrefAt base doc link) (Some "")) in
  Js.includes href GOTHAMCHESS_HANDLE
  || Js.includes href GOTHAMCHESS_CHANNEL_ID
  || Js.includes href "/c/GothamChess".

(** The two loops of [isGothamChessVideo], shared with the sibling
    script. *)
Definition fragmentSaysGothamChess (base : string) (doc : node) (container : path) : bool :=
  if existsb (fun selector =>
                match querySelector doc container selector with
                | Some channelElement => channelElementMatches base doc channelElement
                | None => false
                end) channelSelectors
  then true
  else existsb (channelLinkMatches base doc)
         (querySelectorAllIn doc container [withAttr "href" (withName "a" any)]).

(** [for (const selector of ...) { element = container.querySelector(selector); if (element) return element; } return null] *)
Fixpoint firstElement (doc : node) (container : path) (sels : list selector) : option path :=
  match sels with
  | [] => None
  | selector :: rest =>
      match querySelector doc container selector with
      | Some element => Some element
      | None => firstElement doc container rest
      end
  end.

Definition linkSelectors : list selector :=
  [ [withId "video-title-link" (withName "a" any)];               (* a#video-title-link *)
    [withId "video-title" (withName "a" any)];                    (* a#video-title *)
    [withId "thumbnail" (withName "a" any)];                      (* a#thumbnail *)
    [withAttrContains "href" "/watch?v=" (withName "a" any)];     (* a[href*="/watch?v="] *)
    [withAttrContains "href" "/shorts/" (withName "a" any)] ].    (* a[href*="/shorts/"] *)

(** [for (const selector of ...) { element = container.querySelector(selector); if (element?.href) return element.href; } return null] *)
Fixpoint firstHref (base : string) (doc : node) (container : path) (sels : list selector)
    : option string :=
  match sels with
  | [] => None
  | selector :: rest =>
      let href := querySelector doc container selector ≫= hrefAt base doc in
      if Js.truthy href then href else firstHref base doc container rest
  end.

(** [findVideoLink(container)] *)
Definition findVideoLink (base : string) (doc : node) (container : path) : option string :=
  firstHref base doc container linkSelectors.

End Common.

(** ** HonestLevy: the content script *)
Module HonestLevy.
Import Dom Common.

(** The page as the host leaves it, the module variables of the script and
    the messages it has sent (newest first). *)
Record State := {
  document : node;
  location_href : string;
  innerHeight : Z;
  titlesCache : gmap string Cache.TitleData;
  enabled : bool;
  replacedThisSession : nat;
  processedVideoIds : gmap path string;
  sent : list Message
  }.

Definition setDocument (d : node) (s : State) : State :=
  {| document := d; location_href := location_href s; innerHeight := innerHeight s;
     titlesCache := titlesCache s; enabled := enabled s;
     replacedThisSession := replacedThisSession s;
     processedVideoIds := processedVideoIds s; sent := sent s |}.
Definition setTitlesCache (t : gmap string Cache.TitleData) (s : State) : State :=
  {| document := document s; location_href := location_href s; innerHeight := innerHeight s;
     titlesCache := t; enabled := enabled s;
     replacedThisSession := replacedThisSession s;
     processedVideoIds := processedVideoIds s; sent := sent s |}.
Definition setEnabled (b : bool) (s : State) : State :=
  {| document := document s; location_href := location_href s; innerHeight := innerHeight s;
     titlesCache := titlesCache s; enabled := b;
     replacedThisSession := replacedThisSession s;
     processedVideoIds := processedVideoIds s; sent := sent s |}.
Definition setReplacedThisSession (n : nat) (s : State) : State :=
  {| document := document s; location_href := location_href s; innerHeight := innerHeight s;
     titlesCache := titlesCache s; enabled := enabled s;
     replacedThisSession := n;
     processedVideoIds := processedVideoIds s; sent := sent s |}.
Definition setProcessedVideoIds (m : gmap path string) (s : State) : State :=
  {| document := document s; location_href := location_href s; innerHeight := innerHeight s;
     titlesCache := titlesCache s; enabled := enabled s;
     replacedThisSession := replacedThisSession s;
     processedVideoIds := m; sent := sent s |}.
Definition sendMessage (m : Message) (s : State) : State :=
  {| document := document s; location_href := location_href s; innerHeight := innerHeight s;
     titlesCache := titlesCache s; enabled := enabled s;
     replacedThisSession := replacedThisSession s;
     processedVideoIds := processedVideoIds s; sent := m :: sent s |}.
Definition hostRender (d : node) (href' : string) (h : Z) (s : State) : State :=
  {| document := d; location_href := href'; innerHeight := h;
     titlesCache := titlesCache s; enabled := enabled s;
     replacedThisSession := replacedThisSession s;
     processedVideoIds := processedVideoIds s; sent := sent s |}.

Definition Result : Type := State * Js.completion.

(** [isElementVisible(element)] *)
Definition isElementVisible (s : State) (element : path) : bool :=
  let rect := rectAt (document s) element in
  (0 <? width rect)%Z && (0 <? height rect)%Z
  && (top rect <? innerHeight s)%Z && (0 <? bottom rect)%Z.

(** [isOnGothamChessPage()] *)
Definition isOnGothamChessPage (s : State) : bool :=
  let url := location_href s in
  Js.includes url "/@GothamChess"
  || Js.includes url "/c/GothamChess"
  || Js.includes url "/channel/UCQHX6ViZmPsWiYSFAyS0a3Q".

(** [isGothamChessVideo(container)] *)
Definition isGothamChessVideo (s : State) (container : path) : bool :=
  if isOnGothamChessPage s then true
  else fragmentSaysGothamChess (location_href s) (document s) container.

Definition titleSelectors : list selector :=
  [ [withId "video-title" any];                                   (* #video-title *)
    [withId "video-title" (withName "a" any)];                    (* a#video-title *)
    [withName "h3" any; withId "video-title" (withName "a" any)]; (* h3 a#video-title *)
    [withId "video-title" (withName "yt-formatted-string" any)];
    [withClass "title-and-badge" any; withName "a" any];          (* .title-and-badge a *)
    [withId "video-title" (withName "span" any)];
    [withClass "yt-lockup-metadata-view-model-wiz__title" (withName "a" any)];
    [withClass "yt-lockup-metadata-view-model__title" (withName "a" any)];
    [withClass "yt-lockup-metadata-view-model-wiz__title" any];
    [withClass "yt-lockup-metadata-view-model__title" any] ].

(** [findTitleElement(container)] *)
Definition findTitleElement (doc : node) (container : path) : option path :=
  firstElement doc container titleSelectors.

(** The [console.log] of [processVideoCard] evaluates
    [titleData.clean_title.substring(0, 30)]: a [TypeError] when
    [clean_title] is [undefined].  What is printed is not recorded. *)
Definition logReplaced (clean_title : option string) : Js.completion :=
  match clean_title with
  | Some _ => Js.Normal
  | None => Js.Throw Js.TypeError
  end.

(** [processVideoCard(container)].  Assigning [undefined] to [textContent]
    empties the element. *)
Definition processVideoCard (container : path) (s : State) : Result :=
  let videoLink := findVideoLink (location_href s) (document s) container in
  match extractVideoId videoLink with
  | None => (s, Js.Normal)
  | Some videoId =>
      if bool_decide (processedVideoIds s !! container = Some videoId) then (s, Js.Normal)
      else
        let titleData := Cache.get (titlesCache s) videoId in
        if negb (Cache.truthy titleData) then (s, Js.Normal)
        else
          match findTitleElement (document s) container with
          | None => (s, Js.Normal)
          | Some titleElement =>
              if negb (isElementVisible s container) then (s, Js.Normal)
              else
                let originalTitle := textContentAt (document s) titleElement in
                if bool_decide (Some originalTitle = Cache.clean_title titleData)
                then (s, Js.Normal)
                else
                  let d1 := setTextContentAt (document s) titleElement
                              (default "" (Cache.clean_title titleData)) in
                  let d2 := setAttributeAt d1 titleElement
                              "data-honestlevy-original" originalTitle in
                  let d3 := setAttributeAt d2 titleElement
                              "data-honestlevy-replaced" "true" in
                  let s1 := setDocument d3 s in
                  let s2 := setProcessedVideoIds
                              (<[container := videoId]> (processedVideoIds s1)) s1 in
                  let s3 := setReplacedThisSession (S (replacedThisSession s2)) s2 in
                  match logReplaced (Cache.clean_title titleData) with
                  | Js.Throw e => (s3, Js.Throw e)
                  | Js.Normal => (sendMessage (IncrementReplacedCount 1) s3, Js.Normal)
                  end
          end
  end.

Definition watchTitleSelectors : list selector :=
  [ [withClass "ytd-watch-metadata" (withName "h1" any); withName "yt-formatted-string" any];
    [withClass "title" (withName "h1" any); withName "yt-formatted-string" any];
    [withName "h1" any; withClass "ytd-watch-metadata" (withName "yt-formatted-string" any)];
    [withId "title" any; withName "h1" any; withName "yt-formatted-string" any] ].

(** The selector loop of [processWatchPageTitle]: the first selector that
    finds an element ends it, by [return] or by [break]. *)
Fixpoint watchTitleLoop (sels : list selector) (videoId : string)
    (titleData : Cache.value) (s : State) : State :=
  match sels with
  | [] => s
  | selector :: rest =>
      match querySelectorDoc (document s) selector with
      | None => watchTitleLoop rest videoId titleData s
      | Some titleElement =>
          let replacedForVideo :=
            getAttributeAt (document s) titleElement "data-honestlevy-video-id" in
          if bool_decide (replacedForVideo = Some videoId) then s
          else
            let originalTitle := textContentAt (document s) titleElement in
            if bool_decide (Some originalTitle = Cache.clean_title titleData) then s
            else
              let d1 := setTextContentAt (document s) titleElement
                          (default "" (Cache.clean_title titleData)) in
              let d2 := setAttributeAt d1 titleElement
                          "data-honestlevy-original" originalTitle in
              let d3 := setAttributeAt d2 titleElement
                          "data-honestlevy-video-id" videoId in
              sendMessage (IncrementReplacedCount 1) (setDocument d3 s)
      end
  end.

(** [processWatchPageTitle()] *)
Definition processWatchPageTitle (s : State) : State :=
  let url := location_href s in
  match extractVideoId (Some url) with
  | None => s
  | Some videoId =>
      let titleData := Cache.get (titlesCache s) videoId in
      if negb (Cache.truthy titleData) then s
      else watchTitleLoop watchTitleSelectors videoId titleData s
  end.

Definition containerSelectors : list selector :=
  [ [withName "ytd-rich-item-renderer" any];
    [withName "ytd-video-renderer" any];
    [withName "ytd-compact-video-renderer" any];
    [withName "yt-lockup-view-model" any];
    [withName "ytd-grid-video-renderer" any];
    [withName "ytd-playlist-video-renderer" any] ].

(** [containers.forEach(processVideoCard)]: the list was taken before the
    first call; an exception ends the walk. *)
Fixpoint forEachCard (containers : list path) (s : State) : Result :=
  match containers with
  | [] => (s, Js.Normal)
  | container :: rest =>
      match processVideoCard container s with
      | (s', Js.Normal) => forEachCard rest s'
      | thrown => thrown
      end
  end.

(** [for (const selector of containerSelectors) { ... }] *)
Fixpoint scanContainers (sels : list selector) (s : State) : Result :=
  match sels with
  | [] => (s, Js.Normal)
  | selector :: rest =>
      match forEachCard (querySelectorAll (document s) selector) s with
      | (s', Js.Normal) => scanContainers rest s'
      | thrown => thrown
      end
  end.

(** [scanPage()] *)
Definition scanPage (s : State) : Result :=
  if negb (enabled s) then (s, Js.Normal)
  else
    match scanContainers containerSelectors s with
    | (s', Js.Normal) => (processWatchPageTitle s', Js.Normal)
    | thrown => thrown
    end.

(** *** The scheduler

    The script instance as the event loop sees it: the state above, whether
    [init] still waits for its reply, which callbacks are registered, the
    pending [setTimeout(scanPage, delay)] timers by id, and the two
    variables that hold a timer id.  [scanPageCalls] counts how often
    [scanPage] was entered. *)
Record Runtime := {
  st : State;
  awaitingTitles : bool;
  observing : bool;
  onYtNavigateFinish : bool;
  onPopstate : bool;
  onScroll : bool;
  timers : gmap nat nat;
  nextTimer : nat;
  honestLevyScanTimeout : option nat;
  scrollTimeout : option nat;
  scanPageCalls : nat
  }.

Definition setSt (s : State) (r : Runtime) : Runtime :=
  {| st := s; awaitingTitles := awaitingTitles r; observing := observing r;
     onYtNavigateFinish := onYtNavigateFinish r; onPopstate := onPopstate r;
     onScroll := onScroll r; timers := timers r; nextTimer := nextTimer r;
     honestLevyScanTimeout := honestLevyScanTimeout r; scrollTimeout := scrollTimeout r;
     scanPageCalls := scanPageCalls r |}.
Definition setAwaitingTitles (b : bool) (r : Runtime) : Runtime :=
  {| st := st r; awaitingTitles := b; observing := observing r;
     onYtNavigateFinish := onYtNavigateFinish r; onPopstate := onPopstate r;
     onScroll := onScroll r; timers := timers r; nextTimer := nextTimer r;
     honestLevyScanTimeout := honestLevyScanTimeout r; scrollTimeout := scrollTimeout r;
     scanPageCalls := scanPageCalls r |}.
Definition setObserving (b : bool) (r : Runtime) : Runtime :=
  {| st := st r; awaitingTitles := awaitingTitles r; observing := b;
     onYtNavigateFinish := onYtNavigateFinish r; onPopstate := onPopstate r;
     onScroll := onScroll r; timers := timers r; nextTimer := nextTimer r;
     honestLevyScanTimeout := honestLevyScanTimeout r; scrollTimeout := scrollTimeout r;
     scanPageCalls := scanPageCalls r |}.
Definition setListeners (b : bool) (r : Runtime) : Runtime :=
  {| st := st r; awaitingTitles := awaitingTitles r; observing := observing r;
     onYtNavigateFinish := b; onPopstate := b; onScroll := b; timers := timers r;
     nextTimer := nextTimer r; honestLevyScanTimeout := honestLevyScanTimeout r;
     scrollTimeout := scrollTimeout r; scanPageCalls := scanPageCalls r |}.
Definition setTimers (t : gmap nat nat) (r : Runtime) : Runtime :=
  {| st := st r; awaitingTitles := awaitingTitles r; observing := observing r;
     onYtNavigateFinish := onYtNavigateFinish r; onPopstate := onPopstate r;
     onScroll := onScroll r; timers := t; nextTimer := nextTimer r;
     honestLevyScanTimeout := honestLevyScanTimeout r; scrollTimeout := scrollTimeout r;
     scanPageCalls := scanPageCalls r |}.
Definition setNextTimer (n : nat) (r : Runtime) : Runtime :=
  {| st := st r; awaitingTitles := awaitingTitles r; observing := observing r;
     onYtNavigateFinish := onYtNavigateFinish r; onPopstate := onPopstate r;
     onScroll := onScroll r; timers := timers r; nextTimer := n;
     honestLevyScanTimeout := honestLevyScanTimeout r; scrollTimeout := scrollTimeout r;
     scanPageCalls := scanPageCalls r |}.
Definition setScanTimeout (id : option nat) (r : Runtime) : Runtime :=
  {| st := st r; awaitingTitles := awaitingTitles r; observing := observing r;
     onYtNavigateFinish := onYtNavigateFinish r; onPopstate := onPopstate r;
     onScroll := onScroll r; timers := timers r; nextTimer := nextTimer r;
     honestLevyScanTimeout := id; scrollTimeout := scrollTimeout r;
     scanPageCalls := scanPageCalls r |}.
Definition setScrollTimeout (id : option nat) (r : Runtime) : Runtime :=
  {| st := st r; awaitingTitles := awaitingTitles r; observing := observing r;
     onYtNavigateFinish := onYtNavigateFinish r; onPopstate := onPopstate r;
     onScroll := onScroll r; timers := timers r; nextTimer := nextTimer r;
     honestLevyScanTimeout := honestLevyScanTimeout r; scrollTimeout := id;
     scanPageCalls := scanPageCalls r |}.
Definition setScanPageCalls (n : nat) (r : Runtime) : Runtime :=
  {| st := st r; awaitingTitles := awaitingTitles r; observing := observing r;
     onYtNavigateFinish := onYtNavigateFinish r; onPopstate := onPopstate r;
     onScroll := onScroll r; timers := timers r; nextTimer := nextTimer r;
     honestLevyScanTimeout := honestLevyScanTimeout r; scrollTimeout := scrollTimeout r;
     scanPageCalls := n |}.

(** A call of [scanPage] from a callback. *)
Definition callScanPage (r : Runtime) : Runtime * Js.completion :=
  let (s', c) := scanPage (st r) in
  (setScanPageCalls (S (scanPageCalls r)) (setSt s' r), c).

(** [setTimeout(scanPage, delay)]: the new timer's id. *)
Definition setTimeoutScanPage (delay : nat) (r : Runtime) : Runtime * nat :=
  let id := nextTimer r in
  (setNextTimer (S id) (setTimers (<[id := delay]> (timers r)) r), id).

(** [clearTimeout(id)]; [undefined] and ids of fired timers are ignored. *)
Definition clearTimeout (id : option nat) (r : Runtime) : Runtime :=
  match id with
  | Some i => setTimers (delete i (timers r)) r
  | None => r
  end.

(** The loop over the records in the observer callback. *)
Definition shouldScan (mutations : list MutationRecord) : bool :=
  existsb (fun mutation =>
             (0 <? m_addedNodes mutation)%nat
             || match m_type mutation with
                | Attributes => bool_decide (m_attributeName mutation = Some "href")
                | ChildList => false
                end) mutations.

(** The callback given to [new MutationObserver] in [setupObserver]. *)
Definition observerCallback (mutations : list MutationRecord) (r : Runtime) : Runtime :=
  if negb (enabled (st r)) then r
  else if shouldScan mutations then
    let r1 := clearTimeout (honestLevyScanTimeout r) r in
    let (r2, id) := setTimeoutScanPage 100 r1 in
    setScanTimeout (Some id) r2
  else r.

(** [setupObserver()] *)
Definition setupObserver (r : Runtime) : Runtime := setObserving true r.

(** The [yt-navigate-finish] and the [popstate] listener. *)
Definition navigationCallback (r : Runtime) : Runtime :=
  let r1 := setSt (setProcessedVideoIds ∅ (st r)) r in
  (setTimeoutScanPage 500 r1).1.

(** The [scroll] listener. *)
Definition scrollCallback (r : Runtime) : Runtime :=
  let r1 := clearTimeout (scrollTimeout r) r in
  let (r2, id) := setTimeoutScanPage 200 r1 in
  setScrollTimeout (Some id) r2.

(** [setupNavigationListener()] *)
Definition setupNavigationListener (r : Runtime) : Runtime := setListeners true r.

(** The script's top level up to the [await] of [init]: the storage
    listener is registered and [getTitles] is sent. *)
Definition start (doc : node) (href : string) (h : Z) : Runtime :=
  {| st := {| document := doc; location_href := href; innerHeight := h;
              titlesCache := ∅; enabled := true; replacedThisSession := 0;
              processedVideoIds := ∅; sent := [GetTitles] |};
     awaitingTitles := true; observing := false;
     onYtNavigateFinish := false; onPopstate := false; onScroll := false;
     timers := ∅; nextTimer := 0;
     honestLevyScanTimeout := None; scrollTimeout := None;
     scanPageCalls := 0 |}.

(** [init()] from its [await] on; [None] is a reply that makes the [try]
    block throw. *)
Definition initResume (reply : option Response) (r : Runtime) : Runtime * Js.completion :=
  let r := setAwaitingTitles false r in
  match reply with
  | None => (r, Js.Normal)
  | Some response =>
      let s1 := setTitlesCache (default ∅ (r_titles response)) (st r) in
      let s2 := setEnabled (negb (bool_decide (r_enabled response = Some false))) s1 in
      let r1 := setSt s2 r in
      if negb (enabled (st r1)) then (r1, Js.Normal)
      else
        match callScanPage r1 with
        | (r2, Js.Normal) => (setupNavigationListener (setupObserver r2), Js.Normal)
        | thrown => thrown
        end
  end.

(** The [chrome.storage.onChanged] listener.  A removed [enabled] key reads
    [undefined], which every test of the script takes for [false]. *)
Definition onChanged (changes : Changes) (namespace : string) (r : Runtime)
    : Runtime * Js.completion :=
  if negb (String.eqb namespace "local") then (r, Js.Normal)
  else
    let afterEnabled : Runtime * Js.completion :=
      match ch_enabled changes with
      | None => (r, Js.Normal)
      | Some newValue =>
          let r1 := setSt (setEnabled newValue (st r)) r in
          if enabled (st r1)
          then callScanPage (setSt (setProcessedVideoIds ∅ (st r1)) r1)
          else (r1, Js.Normal)
      end in
    match afterEnabled with
    | (r2, Js.Normal) =>
        match ch_titles changes with
        | None => (r2, Js.Normal)
        | Some newValue =>
            let s1 := setTitlesCache (default ∅ newValue) (st r2) in
            callScanPage (setSt (setProcessedVideoIds ∅ s1) r2)
        end
    | thrown => thrown
    end.

(** One turn of the event loop.  An event reaches a callback only if the
    callback was registered; what a callback throws is reported by the host
    and otherwise dropped. *)
Definition dispatch (r : Runtime) (e : Event) : Runtime :=
  match e with
  | InitResponse reply =>
      if awaitingTitles r then (initResume reply r).1 else r
  | Mutations records =>
      if observing r then observerCallback records r else r
  | YtNavigateFinish =>
      if onYtNavigateFinish r then navigationCallback r else r
  | Popstate =>
      if onPopstate r then navigationCallback r else r
  | Scroll =>
      if onScroll r then scrollCallback r else r
  | TimerFired id =>
      match timers r !! id with
      | Some _ => (callScanPage (setTimers (delete id (timers r)) r)).1
      | None => r
      end
  | StorageChanged changes namespace => (onChanged changes namespace r).1
  | HostRender d href h => setSt (hostRender d href h (st r)) r
  end.

Definition run (r : Runtime) (events : list Event) : Runtime :=
  foldl dispatch r events.

End HonestLevy.

(** ** GothamClean: the sibling content script *)
Module GothamClean.
Import Dom Common.

(** As for HonestLevy; the memory is a [WeakSet] of containers. *)
Record State := {
  document : node;
  location_href : string;
  innerHeight : Z;
  titlesCache : gmap string Cache.TitleData;
  enabled : bool;
  replacedThisSession : nat;
  processedElements : gset path;
  sent : list Message
  }.

Definition setDocument (d : node) (s : State) : State :=
  {| document := d; location_href := location_href s; innerHeight := innerHeight s;
     titlesCache := titlesCache s; enabled := enabled s;
     replacedThisSession := replacedThisSession s;
     processedElements := processedElements s; sent := sent s |}.
Definition setReplacedThisSession (n : nat) (s : State) : State :=
  {| document := document s; location_href := location_href s; innerHeight := innerHeight s;
     titlesCache := titlesCache s; enabled := enabled s;
     replacedThisSession := n;
     processedElements := processedElements s; sent := sent s |}.
Definition setProcessedElements (m : gset path) (s : State) : State :=
  {| document := document s; location_href := location_href s; innerHeight := innerHeight s;
     titlesCache := titlesCache s; enabled := enabled s;
     replacedThisSession := replacedThisSession s;
     processedElements := m; sent := sent s |}.
Definition sendMessage (m : Message) (s : State) : State :=
  {| document := document s; location_href := location_href s; innerHeight := innerHeight s;
     titlesCache := titlesCache s; enabled := enabled s;
     replacedThisSession := replacedThisSession s;
     processedElements := processedElements s; sent := m :: sent s |}.
Definition hostRender (d : node) (href' : string) (h : Z) (s : State) : State :=
  {| document := d; location_href := href'; innerHeight := h;
     titlesCache := titlesCache s; enabled := enabled s;
     replacedThisSession := replacedThisSession s;
     processedElements := processedElements s; sent := sent s |}.

Definition Result : Type := State * Js.completion.

(** [isGothamChessVideo(container)]: the fragment alone decides. *)
Definition isGothamChessVideo (s : State) (container : path) : bool :=
  fragmentSaysGothamChess (location_href s) (document s) container.

Definition titleSelectors : list selector :=
  [ [withId "video-title" any];                                   (* #video-title *)
    [withId "video-title" (withName "a" any)];                    (* a#video-title *)
    [withName "h3" any; withId "video-title" (withName "a" any)]; (* h3 a#video-title *)
    [withId "video-title" (withName "yt-formatted-string" any)];
    [withClass "title-and-badge" any; withName "a" any];          (* .title-and-badge a *)
    [withId "video-title" (withName "span" any)] ].

(** [findTitleElement(container)] *)
Definition findTitleElement (doc : node) (container : path) : option path :=
  firstElement doc container titleSelectors.

(** [processVideoCard(container)].  Its [console.log] formats
    [titleData.clean_title] in a template and cannot throw. *)
Definition processVideoCard (container : path) (s : State) : Result :=
  if bool_decide (container ∈ processedElements s) then (s, Js.Normal)
  else if negb (isGothamChessVideo s container) then (s, Js.Normal)
  else
    let videoLink := findVideoLink (location_href s) (document s) container in
    match extractVideoId videoLink with
    | None => (s, Js.Normal)
    | Some videoId =>
        let titleData := Cache.get (titlesCache s) videoId in
        if negb (Cache.truthy titleData) then (s, Js.Normal)
        else
          match findTitleElement (document s) container with
          | None => (s, Js.Normal)
          | Some titleElement =>
              let originalTitle := textContentAt (document s) titleElement in
              if bool_decide (Some originalTitle = Cache.clean_title titleData)
              then (s, Js.Normal)
              else
                let d1 := setTextContentAt (document s) titleElement
                            (default "" (Cache.clean_title titleData)) in
                let d2 := setAttributeAt d1 titleElement
                            "data-gothamclean-original" originalTitle in
                let d3 := setAttributeAt d2 titleElement
                            "data-gothamclean-replaced" "true" in
                let s1 := setDocument d3 s in
                let s2 := setProcessedElements ({[container]} ∪ processedElements s1) s1 in
                let s3 := setReplacedThisSession (S (replacedThisSession s2)) s2 in
                (sendMessage (IncrementReplacedCount 1) s3, Js.Normal)
          end
    end.

Definition watchTitleSelectors : list selector :=
  [ [withClass "ytd-watch-metadata" (withName "h1" any); withName "yt-formatted-string" any];
    [withClass "title" (withName "h1" any); withName "yt-formatted-string" any];
    [withName "h1" any; withClass "ytd-watch-metadata" (withName "yt-formatted-string" any)];
    [withId "title" any; withName "h1" any; withName "yt-formatted-string" any] ].

(** The selector loop of [processWatchPageTitle]: an element that carries
    the replaced flag is passed over and the next selector is tried; the
    first element without the flag ends the loop. *)
Fixpoint watchTitleLoop (sels : list selector) (titleData : Cache.value) (s : State) : State :=
  match sels with
  | [] => s
  | selector :: rest =>
      match querySelectorDoc (document s) selector with
      | None => watchTitleLoop rest titleData s
      | Some titleElement =>
          if Js.truthy (getAttributeAt (document s) titleElement "data-gothamclean-replaced")
          then watchTitleLoop rest titleData s
          else
            let originalTitle := textContentAt (document s) titleElement in
            if bool_decide (Some originalTitle = Cache.clean_title titleData) then s
            else
              let d1 := setTextContentAt (document s) titleElement
                          (default "" (Cache.clean_title titleData)) in
              let d2 := setAttributeAt d1 titleElement
                          "data-gothamclean-original" originalTitle in
              let d3 := setAttributeAt d2 titleElement
                          "data-gothamclean-replaced" "true" in
              sendMessage (IncrementReplacedCount 1) (setDocument d3 s)
      end
  end.

(** [processWatchPageTitle()] *)
Definition processWatchPageTitle (s : State) : State :=
  let url := location_href s in
  match extractVideoId (Some url) with
  | None => s
  | Some videoId =>
      let titleData := Cache.get (titlesCache s) videoId in
      if negb (Cache.truthy titleData) then s
      else watchTitleLoop watchTitleSelectors titleData s
  end.

Definition containerSelectors : list selector :=
  [ [withName "ytd-rich-item-renderer" any];
    [withName "ytd-video-renderer" any];
    [withName "ytd-compact-video-renderer" any];
    [withName "ytd-grid-video-renderer" any];
    [withName "ytd-playlist-video-renderer" any] ].

(** [containers.forEach(processVideoCard)] *)
Fixpoint forEachCard (containers : list path) (s : State) : Result :=
  match containers with
  | [] => (s, Js.Normal)
  | container :: rest =>
      match processVideoCard container s with
      | (s', Js.Normal) => forEachCard rest s'
      | thrown => thrown
      end
  end.

(** [for (const selector of containerSelectors) { ... }] *)
Fixpoint scanContainers (sels : list selector) (s : State) : Result :=
  match sels with
  | [] => (s, Js.Normal)
  | selector :: rest =>
      match forEachCard (querySelectorAll (document s) selector) s with
      | (s', Js.Normal) => scanContainers rest s'
      | thrown => thrown
      end
  end.

(** [scanPage()] *)
Definition scanPage (s : State) : Result :=
  if negb (enabled s) then (s, Js.Normal)
  else
    match scanContainers containerSelectors s with
    | (s', Js.Normal) => (processWatchPageTitle s', Js.Normal)
    | thrown => thrown
    end.

End GothamClean.

(** ** The URL shapes, in the spec's words

    A URL has one of the four known shapes at offset [k] when it reads, from
    there, the shape's lead and then 11 identifier characters. *)
Module UrlShape.

Inductive shape := WatchParam | ShortLink | ShortsPath | EmbedPath.

(** The order in which the extractor tries the shapes. *)
Definition rank (sh : shape) : nat :=
  match sh with
  | WatchParam => 0
  | ShortLink => 1
  | ShortsPath => 2
  | EmbedPath => 3
  end.

Definition leads (sh : shape) : list string :=
  match sh with
  | WatchParam => ["?v="; "&v="]
  | ShortLink => ["youtu.be/"]
  | ShortsPath => ["/shorts/"]
  | EmbedPath => ["/embed/"]
  end.

(** The matcher of the source for a shape. *)
Definition pattern (sh : shape) : list Pattern.charClass :=
  match sh with
  | WatchParam => Pattern.watchParam
  | ShortLink => Pattern.shortLink
  | ShortsPath => Pattern.shortsPath
  | EmbedPath => Pattern.embedPath
  end.

(** An 11-character token of identifier characters. *)
Fixpoint allIdChars (s : string) : bool :=
  match s with
  | EmptyString => true
  | String c s' => Pattern.idChar c && allIdChars s'
  end.

Definition isToken (tok : string) : Prop :=
  String.length tok = 11%nat /\ allIdChars tok = true.

Definition occurs (sh : shape) (url : string) (k : nat) (tok : string) : Prop :=
  exists pre lead rest,
    url = pre +:+ lead +:+ tok +:+ rest
    /\ String.length pre = k /\ lead ∈ leads sh /\ isToken tok.

(** [s] without its first [k] characters. *)
Fixpoint dropS (k : nat) (s : string) : string :=
  match k, s with
  | O, _ => s
  | S k', String _ s' => dropS k' s'
  | S _, EmptyString => EmptyString
  end.

End UrlShape.

(** The claim of the spec about the watch parameter, word for word: the URL
    holds [?v=] or [&v=] followed by exactly 11 identifier characters. *)
Definition watchParamWithExactly11 (url tok : string) : Prop :=
  exists pre lead rest,
    url = pre +:+ lead +:+ tok +:+ rest
    /\ lead ∈ UrlShape.leads UrlShape.WatchParam
    /\ UrlShape.isToken tok
    /\ match rest with
       | EmptyString => True
       | String c _ => Pattern.idChar c = false
       end.

(** ** Pages and caches used as concrete inputs *)
Module Pages.
Import Dom.

Definition box : DOMRect := {| width := 360; height := 240; top := 80; bottom := 320 |}.

Definition el (tag : string) (attrs : list (string * string)) (children : list node) : node :=
  Element tag (list_to_map attrs) box children.

(** A grid card: thumbnail link, title link around the title, channel
    line. *)
Definition card (link title : string) : node :=
  el "ytd-rich-item-renderer" []
    [ el "a" [("id", "thumbnail"); ("href", link)] [];
      el "h3" []
        [ el "a" [("id", "video-title-link"); ("href", link)]
            [ el "yt-formatted-string" [("id", "video-title")] [Text title] ] ];
      el "ytd-channel-name" []
        [ el "a" [("href", "https://x/@GothamChess")] [Text "GothamChess"] ] ].

(** A page that lists one card. *)
Definition listing (link title : string) : node :=
  el "body" [] [ el "div" [("id", "contents")] [card link title] ].

Definition cardAt : path := [0; 0]%nat.

(** A page that lists two cards. *)
Definition twoCards (link1 title1 link2 title2 : string) : node :=
  el "body" [] [ el "div" [("id", "contents")] [card link1 title1; card link2 title2] ].

Definition secondCardAt : path := [0; 1]%nat.
Definition secondCardTitleAt : path := [0; 1; 1; 0; 0]%nat.
Definition cardTitleAt : path := [0; 0; 1; 0; 0]%nat.


(** A card whose title element holds the only watch link, next to a shorts
    link. *)
Definition nestedLinkListing (link other title : string) : node :=
  el "body" []
    [ el "ytd-video-renderer" []
        [ el "h3" [("id", "video-title")] [ el "a" [("href", link)] [Text title] ];
          el "a" [("href", other)] [] ] ].

(** A watch page: the now-playing title with the given attributes. *)
Definition watching (attrs : list (string * string)) (title : string) : node :=
  el "body" []
    [ el "div" [("id", "title")]
        [ el "h1" [("class", "style-scope ytd-watch-metadata")]
            [ el "yt-formatted-string" attrs [Text title] ] ] ].

Definition watchTitleAt : path := [0; 0; 0]%nat.

Definition clickbait : string := "YOU WON'T BELIEVE THIS BLUNDER!!!".
Definition magnusClean : string := "Magnus Resigns After 3 Moves".

(** The mapping of the spec's scenario with the field the scripts read, and
    as the spec spells the field. *)
Definition magnus : gmap string Cache.TitleData :=
  {[ "abcEFghiJKL" := {[ "clean_title" := magnusClean ]} ]}.
Definition magnusCamel : gmap string Cache.TitleData :=
  {[ "abcEFghiJKL" := {[ "cleanTitle" := magnusClean ]} ]}.

(** Two tracked videos. *)
Definition twoTitles : gmap string Cache.TitleData :=
  {[ "AAAAAAAAAAA" := {[ "clean_title" := "Game one, annotated" ]};
     "BBBBBBBBBBB" := {[ "clean_title" := "Game two, annotated" ]} ]}.

Definition honestLevy (doc : node) (href : string) (cache : gmap string Cache.TitleData)
    : HonestLevy.State :=
  {| HonestLevy.document := doc; HonestLevy.location_href := href;
     HonestLevy.innerHeight := 900; HonestLevy.titlesCache := cache;
     HonestLevy.enabled := true; HonestLevy.replacedThisSession := 0;
     HonestLevy.processedVideoIds := ∅; HonestLevy.sent := [] |}.

Definition gothamClean (doc : node) (href : string) (cache : gmap string Cache.TitleData)
    : GothamClean.State :=
  {| GothamClean.document := doc; GothamClean.location_href := href;
     GothamClean.innerHeight := 900; GothamClean.titlesCache := cache;
     GothamClean.enabled := true; GothamClean.replacedThisSession := 0;
     GothamClean.processedElements := ∅; GothamClean.sent := [] |}.

End Pages.

(** ** Vocabulary of the statements *)
Module Outcome.
Import Dom.

(** What the replacing branch of HonestLevy's [processVideoCard] leaves
    behind, field by field. *)
Definition replacedHL (c : path) (vid : string) (t : path) (s s' : HonestLevy.State) : Prop :=
  let clean := Cache.clean_title (Cache.get (HonestLevy.titlesCache s) vid) in
  HonestLevy.document s' =
    setAttributeAt
      (setAttributeAt
         (setTextContentAt (HonestLevy.document s) t (default "" clean)) t
         "data-honestlevy-original" (textContentAt (HonestLevy.document s) t))
      t "data-honestlevy-replaced" "true"
  /\ HonestLevy.processedVideoIds s' = <[c := vid]> (HonestLevy.processedVideoIds s)
  /\ HonestLevy.replacedThisSession s' = S (HonestLevy.replacedThisSession s)
  /\ HonestLevy.sent s' = match clean with
                          | Some _ => IncrementReplacedCount 1 :: HonestLevy.sent s
                          | None => HonestLevy.sent s
                          end
  /\ HonestLevy.titlesCache s' = HonestLevy.titlesCache s
  /\ HonestLevy.enabled s' = HonestLevy.enabled s
  /\ HonestLevy.location_href s' = HonestLevy.location_href s
  /\ HonestLevy.innerHeight s' = HonestLevy.innerHeight s.

(** The same for GothamClean. *)
Definition replacedGC (c : path) (vid : string) (t : path) (s s' : GothamClean.State) : Prop :=
  let clean := Cache.clean_title (Cache.get (GothamClean.titlesCache s) vid) in
  GothamClean.document s' =
    setAttributeAt
      (setAttributeAt
         (setTextContentAt (GothamClean.document s) t (default "" clean)) t
         "data-gothamclean-original" (textContentAt (GothamClean.document s) t))
      t "data-gothamclean-replaced" "true"
  /\ GothamClean.processedElements s' = {[c]} ∪ GothamClean.processedElements s
  /\ GothamClean.replacedThisSession s' = S (GothamClean.replacedThisSession s)
  /\ GothamClean.sent s' = IncrementReplacedCount 1 :: GothamClean.sent s
  /\ GothamClean.titlesCache s' = GothamClean.titlesCache s
  /\ GothamClean.enabled s' = GothamClean.enabled s
  /\ GothamClean.location_href s' = GothamClean.location_href s
  /\ GothamClean.innerHeight s' = GothamClean.innerHeight s.

(** The now-playing title: what the first of the selectors that finds
    anything finds. *)
Fixpoint watchTitleElement (doc : node) (sels : list selector) : option path :=
  match sels with
  | [] => None
  | selector :: rest =>
      match querySelectorDoc doc selector with
      | Some e => Some e
      | None => watchTitleElement doc rest
      end
  end.

(** What HonestLevy's [processWatchPageTitle] leaves behind when it
    replaces the title at [w]. *)
Definition watchReplacedHL (vid : string) (td : Cache.value) (w : path)
    (s : HonestLevy.State) : HonestLevy.State :=
  HonestLevy.sendMessage (IncrementReplacedCount 1)
    (HonestLevy.setDocument
       (setAttributeAt
          (setAttributeAt
             (setTextContentAt (HonestLevy.document s) w (default "" (Cache.clean_title td)))
             w "data-honestlevy-original" (textContentAt (HonestLevy.document s) w))
          w "data-honestlevy-video-id" vid) s).

(** The containers one scan of the page walks, had the page stayed as it
    is. *)
Definition cards (doc : node) (sels : list selector) : list path :=
  concat (map (querySelectorAll doc) sels).

(** A selector that is one type selector. *)
Definition typeSelector (sel : selector) : Prop :=
  exists tag, sel = [withName tag any].

(** An event that comes from the page: anything but a storage push and the
    reply to [getTitles]. *)
Definition fromPage (e : Event) : bool :=
  match e with
  | StorageChanged _ _ | InitResponse _ => false
  | _ => true
  end.

(** No callback of the page is registered and no timer is pending. *)
Definition unwiredHL (r : HonestLevy.Runtime) : Prop :=
  HonestLevy.observing r = false
  /\ HonestLevy.onYtNavigateFinish r = false
  /\ HonestLevy.onPopstate r = false
  /\ HonestLevy.onScroll r = false
  /\ HonestLevy.timers r = ∅.

(** Two instances have the same callbacks registered, the same timers
    pending and [init] at the same point. *)
Definition sameWiring (r r' : HonestLevy.Runtime) : Prop :=
  HonestLevy.observing r' = HonestLevy.observing r
  /\ HonestLevy.onYtNavigateFinish r' = HonestLevy.onYtNavigateFinish r
  /\ HonestLevy.onPopstate r' = HonestLevy.onPopstate r
  /\ HonestLevy.onScroll r' = HonestLevy.onScroll r
  /\ HonestLevy.timers r' = HonestLevy.timers r
  /\ HonestLevy.awaitingTitles r' = HonestLevy.awaitingTitles r.

(** The title element HonestLevy finds in the card, if any, has no [a]
    element among its descendants: [titleElement.querySelectorAll('a')] is
    empty. *)
Definition titleHoldsNoLink (doc : node) (c : path) : bool :=
  match HonestLevy.findTitleElement doc c with
  | Some t => bool_decide (querySelectorAllIn doc t [withName "a" any] = [])
  | None => true
  end.

(** An element strictly inside the card names the channel: its text, in
    lower case, contains one of the channel's names, or its [href] property
    (the attribute resolved against [base]) contains the handle, the channel
    id or the custom URL. *)
Definition namesChannel (base : string) (doc : node) (c : path) : Prop :=
  exists p,
    below c p = true /\ elementAt doc p
    /\ ((exists name, name ∈ Common.GOTHAMCHESS_NAMES
                      /\ Js.includes (Js.toLowerCase (textContentAt doc p)) name = true)
        \/ exists h, hrefAt base doc p = Some h
                     /\ (Js.includes h Common.GOTHAMCHESS_HANDLE = true
                         \/ Js.includes h Common.GOTHAMCHESS_CHANNEL_ID = true
                         \/ Js.includes h "/c/GothamChess" = true)).

(** All that HonestLevy's [processVideoCard] reads for the card [c] is in
    [s] what it is in [s0]. *)
Definition sameReads (c : path) (s0 s : HonestLevy.State) : Prop :=
  sameCard c (HonestLevy.document s0) (HonestLevy.document s)
  /\ HonestLevy.processedVideoIds s !! c = HonestLevy.processedVideoIds s0 !! c
  /\ HonestLevy.titlesCache s = HonestLevy.titlesCache s0
  /\ HonestLevy.innerHeight s = HonestLevy.innerHeight s0
  /\ HonestLevy.location_href s = HonestLevy.location_href s0.

(** The selectors find in [doc] the elements they find in [doc0]. *)
Definition sameCards (sels : list selector) (doc0 doc : node) : Prop :=
  forall sel, sel ∈ sels -> querySelectorAll doc sel = querySelectorAll doc0 sel.

(** [processWatchPageTitle] has nothing to do: the page URL names no video,
    or one the mapping does not hold. *)
Definition noWatchPage (s : HonestLevy.State) : bool :=
  match extractVideoId (Some (HonestLevy.location_href s)) with
  | None => true
  | Some videoId => negb (Cache.truthy (Cache.get (HonestLevy.titlesCache s) videoId))
  end.

(** What a call of [processVideoCard] adds to [replacedThisSession]. *)
Definition counted (c : path) (s : HonestLevy.State) : nat :=
  HonestLevy.replacedThisSession (HonestLevy.processVideoCard c s).1
  - HonestLevy.replacedThisSession s.

(** The outcome of a walk over cards from [s] to [s'], against the state
    [s0] every card still read as: each card is as if it alone had been
    processed, what is apart from the cards is untouched. *)
Definition walked (s0 s s' : HonestLevy.State) (cs : list path) : Prop :=
  (forall c, c ∈ cs ->
             nodeAt (HonestLevy.document s') c
             = nodeAt (HonestLevy.document (HonestLevy.processVideoCard c s0).1) c
             /\ HonestLevy.processedVideoIds s' !! c
                = HonestLevy.processedVideoIds (HonestLevy.processVideoCard c s0).1 !! c)
  /\ (forall p, (forall c, c ∈ cs -> apart c p) ->
                nodeAt (HonestLevy.document s') p = nodeAt (HonestLevy.document s) p
                /\ HonestLevy.processedVideoIds s' !! p = HonestLevy.processedVideoIds s !! p)
  /\ (forall c', (forall c, c ∈ cs -> apart c c') -> sameReads c' s0 s -> sameReads c' s0 s')
  /\ HonestLevy.replacedThisSession s'
     = (HonestLevy.replacedThisSession s + sum_list ((fun c => counted c s0) <$> cs))%nat.

(** Timer ids are handed out in increasing order: every pending timer has
    an id below the next one. *)
Definition timersFresh (r : HonestLevy.Runtime) : Prop :=
  map_Forall (fun id _ => id < HonestLevy.nextTimer r) (HonestLevy.timers r).

(** HonestLevy after [k + 1] mutation batches that called for a scan: the
    page state and the scan count are as before, the last batch's timer is
    the one pending scan of the observer. *)
Definition pendingScan (r : HonestLevy.Runtime) (k : nat) (r' : HonestLevy.Runtime) : Prop :=
  HonestLevy.st r' = HonestLevy.st r
  /\ HonestLevy.scanPageCalls r' = HonestLevy.scanPageCalls r
  /\ HonestLevy.observing r' = HonestLevy.observing r
  /\ HonestLevy.nextTimer r' = S (HonestLevy.nextTimer r + k)
  /\ HonestLevy.honestLevyScanTimeout r' = Some (HonestLevy.nextTimer r + k)
  /\ HonestLevy.timers r'
     = <[HonestLevy.nextTimer r + k := 100]>
         (HonestLevy.timers (HonestLevy.clearTimeout (HonestLevy.honestLevyScanTimeout r) r)).

(** After a run of batches: nothing has happened if none of them called
    for a scan, one scan is pending otherwise. *)
Definition afterBatches (r : HonestLevy.Runtime) (n : nat) (r' : HonestLevy.Runtime) : Prop :=
  match n with
  | O => r' = r
  | S k => pendingScan r k r'
  end.

(** The same after [k + 1] scroll events. *)
Definition pendingScroll (r : HonestLevy.Runtime) (k : nat) (r' : HonestLevy.Runtime) : Prop :=
  HonestLevy.st r' = HonestLevy.st r
  /\ HonestLevy.scanPageCalls r' = HonestLevy.scanPageCalls r
  /\ HonestLevy.onScroll r' = HonestLevy.onScroll r
  /\ HonestLevy.honestLevyScanTimeout r' = HonestLevy.honestLevyScanTimeout r
  /\ HonestLevy.nextTimer r' = S (HonestLevy.nextTimer r + k)
  /\ HonestLevy.scrollTimeout r' = Some (HonestLevy.nextTimer r + k)
  /\ HonestLevy.timers r'
     = <[HonestLevy.nextTimer r + k := 200]>
         (HonestLevy.timers (HonestLevy.clearTimeout (HonestLevy.scrollTimeout r) r)).

(** [yt-navigate-finish] and [popstate]. *)
Definition isNavigation (e : Event) : bool :=
  match e with
  | YtNavigateFinish | Popstate => true
  | _ => false
  end.

(** HonestLevy after [k] navigation events: the memory is empty and each
    event's 500 ms timer is pending. *)
Definition navigated (r : HonestLevy.Runtime) (k : nat) (r' : HonestLevy.Runtime) : Prop :=
  HonestLevy.st r' = HonestLevy.setProcessedVideoIds ∅ (HonestLevy.st r)
  /\ HonestLevy.scanPageCalls r' = HonestLevy.scanPageCalls r
  /\ HonestLevy.onYtNavigateFinish r' = HonestLevy.onYtNavigateFinish r
  /\ HonestLevy.onPopstate r' = HonestLevy.onPopstate r
  /\ HonestLevy.nextTimer r' = (HonestLevy.nextTimer r + k)%nat
  /\ forall j, HonestLevy.timers r' !! j
               = if bool_decide (HonestLevy.nextTimer r <= j < HonestLevy.nextTimer r + k)
                 then Some 500
                 else HonestLevy.timers r !! j.

(** [k] messages [{type: 'incrementReplacedCount', count: 1}]. *)
Definition increments (k : nat) : list Message := replicate k (IncrementReplacedCount 1).

(** GothamClean: [k] substitutions counted and reported, [w] more reported
    only; the settings are as they were. *)
Definition reportedGC (s s' : GothamClean.State) (k w : nat) : Prop :=
  GothamClean.replacedThisSession s' = (GothamClean.replacedThisSession s + k)%nat
  /\ GothamClean.sent s' = (increments (k + w) ++ GothamClean.sent s)%list
  /\ GothamClean.titlesCache s' = GothamClean.titlesCache s
  /\ GothamClean.enabled s' = GothamClean.enabled s
  /\ GothamClean.location_href s' = GothamClean.location_href s
  /\ GothamClean.innerHeight s' = GothamClean.innerHeight s.

(** The reports an exception costs: the card that threw was counted and
    not reported. *)
Definition lost (c : Js.completion) : nat :=
  match c with Js.Normal => 0 | Js.Throw _ => 1 end.

(** HonestLevy: [k] substitutions counted; all of them reported when the
    walk ended normally, all but the last when it threw. *)
Definition reportedHL (s : HonestLevy.State) (res : HonestLevy.Result) (k : nat) : Prop :=
  HonestLevy.replacedThisSession res.1 = (HonestLevy.replacedThisSession s + k)%nat
  /\ HonestLevy.sent res.1 = (increments (k - lost res.2) ++ HonestLevy.sent s)%list
  /\ lost res.2 <= k
  /\ HonestLevy.titlesCache res.1 = HonestLevy.titlesCache s
  /\ HonestLevy.enabled res.1 = HonestLevy.enabled s
  /\ HonestLevy.location_href res.1 = HonestLevy.location_href s
  /\ HonestLevy.innerHeight res.1 = HonestLevy.innerHeight s.

(** What the watch page adds in HonestLevy: at most one report, nothing
    counted. *)
Definition watchReportedHL (s s' : HonestLevy.State) (w : nat) : Prop :=
  HonestLevy.replacedThisSession s' = HonestLevy.replacedThisSession s
  /\ HonestLevy.sent s' = (increments w ++ HonestLevy.sent s)%list
  /\ HonestLevy.titlesCache s' = HonestLevy.titlesCache s
  /\ HonestLevy.enabled s' = HonestLevy.enabled s
  /\ HonestLevy.location_href s' = HonestLevy.location_href s
  /\ HonestLevy.innerHeight s' = HonestLevy.innerHeight s.

(** The state the scan armed by a navigation starts from: the memory the
    listener emptied, the page as the host rendered it since. *)
Definition afterNavigation (doc' : node) (href' : string) (h' : Z) (s : HonestLevy.State)
    : HonestLevy.State :=
  HonestLevy.hostRender doc' href' h' (HonestLevy.setProcessedVideoIds ∅ s).

(** A call of HonestLevy's [processVideoCard] on the card has nothing left
    to do: it returns the state it was given. *)
Definition settled (c : path) (s : HonestLevy.State) : Prop :=
  HonestLevy.processVideoCard c s = (s, Js.Normal).

End Outcome.

(** ** The inputs of the statements below *)
Module Inputs.
Import Dom Pages.

Definition linkMagnus : string := "https://x/watch?v=abcEFghiJKL".
Definition linkA : string := "https://x/watch?v=AAAAAAAAAAA".
Definition linkB : string := "https://x/watch?v=BBBBBBBBBBB".

(** The spec's scenario, before the scan. *)
Definition scenarioHL : HonestLevy.State :=
  honestLevy (listing linkMagnus clickbait) "https://x/" magnus.
Definition scenarioGC : GothamClean.State :=
  gothamClean (listing linkMagnus clickbait) "https://x/" magnus.

(** The scenario with the record spelled as in the spec. *)
Definition scenarioCamelHL : HonestLevy.State :=
  honestLevy (listing linkMagnus clickbait) "https://x/" magnusCamel.

(** A card that links to [v=constructor], an identifier the mapping does not
    hold. *)
Definition constructorHL : HonestLevy.State :=
  honestLevy (listing "https://x/watch?v=constructor" clickbait) "https://x/" magnus.

(** The host reuses the card's node for another video: new link targets and
    a new title text, attributes left as they are. *)
Definition recycle (link title : string) (doc : node) : node :=
  setTextContentAt
    (setAttributeAt (setAttributeAt doc [0; 0; 0]%nat "href" link) [0; 0; 1; 0]%nat "href" link)
    cardTitleAt title.

(** GothamClean after a scan that substituted video A, the card then
    recycled for video B. *)
Definition recycledGC : GothamClean.State :=
  let s1 := (GothamClean.scanPage
               (gothamClean (listing linkA clickbait) "https://x/" twoTitles)).1 in
  GothamClean.setDocument (recycle linkB "HE SACRIFICED EVERYTHING" (GothamClean.document s1)) s1.

(** The same for HonestLevy. *)
Definition recycledHL : HonestLevy.State :=
  let s1 := (HonestLevy.scanPage
               (honestLevy (listing linkA clickbait) "https://x/" twoTitles)).1 in
  HonestLevy.setDocument (recycle linkB "HE SACRIFICED EVERYTHING" (HonestLevy.document s1)) s1.

(** GothamClean on a watch page after it replaced the title for video A and
    the page went on to video B in place. *)
Definition navigatedGC : GothamClean.State :=
  let s1 := GothamClean.processWatchPageTitle
              (gothamClean (watching [] clickbait) linkA twoTitles) in
  GothamClean.hostRender
    (setTextContentAt (GothamClean.document s1) watchTitleAt "HE SACRIFICED EVERYTHING")
    linkB 900 s1.

(** The same for HonestLevy. *)
Definition navigatedHL : HonestLevy.State :=
  let s1 := HonestLevy.processWatchPageTitle
              (honestLevy (watching [] clickbait) linkA twoTitles) in
  HonestLevy.hostRender
    (setTextContentAt (HonestLevy.document s1) watchTitleAt "HE SACRIFICED EVERYTHING")
    linkB 900 s1.


End Inputs.

(** More inputs: the scenario's card below the fold. *)
Module Offscreen.
Import Dom Pages.

Definition below : DOMRect := {| width := 360; height := 240; top := 1400; bottom := 1640 |}.

Definition listing (link title : string) : node :=
  el "body" []
    [ el "div" [("id", "contents")]
        [ Element "ytd-rich-item-renderer" ∅ below
            [ el "a" [("id", "video-title-link"); ("href", link)]
                [ el "yt-formatted-string" [("id", "video-title")] [Text title] ] ] ] ].

Definition titleAt : path := [0; 0; 0; 0]%nat.

Definition scenarioHL : HonestLevy.State :=
  honestLevy (listing Inputs.linkMagnus clickbait) "https://x/" magnus.

End Offscreen.

(** Inputs for the scheduler's statements. *)
Module Sessions.
Import Dom Pages.

(** An instance that was enabled from the start, on a page with one card of
    video A: the first scan has run and everything is wired. *)
Definition wiredHL : HonestLevy.Runtime :=
  HonestLevy.dispatch
    (HonestLevy.start (listing Inputs.linkA clickbait) "https://x/" 900)
    (InitResponse (Some {| r_titles := Some twoTitles; r_enabled := Some true |})).

Definition addedNodes (n : nat) : MutationRecord :=
  {| m_type := ChildList; m_addedNodes := n; m_attributeName := None |}.
Definition hrefChanged : MutationRecord :=
  {| m_type := Attributes; m_addedNodes := 0; m_attributeName := Some "href" |}.

(** What a page does while the user browses. *)
Definition browsing : list Event :=
  [ Mutations [addedNodes 3]; Scroll; YtNavigateFinish;
    HostRender (listing Inputs.linkB clickbait) "https://x/results" 900;
    Mutations [hrefChanged; addedNodes 1]; TimerFired 0; Popstate; Scroll; TimerFired 1 ].

End Sessions.

(** ** GothamClean: the scheduler

    The sibling script observes added nodes only, has no scroll listener and
    forgets its processed containers by making a new [WeakSet]. *)
Module GothamCleanRuntime.
Import Dom Common.

Definition setTitlesCache (t : gmap string Cache.TitleData) (s : GothamClean.State)
    : GothamClean.State :=
  {| GothamClean.document := GothamClean.document s;
     GothamClean.location_href := GothamClean.location_href s;
     GothamClean.innerHeight := GothamClean.innerHeight s;
     GothamClean.titlesCache := t; GothamClean.enabled := GothamClean.enabled s;
     GothamClean.replacedThisSession := GothamClean.replacedThisSession s;
     GothamClean.processedElements := GothamClean.processedElements s;
     GothamClean.sent := GothamClean.sent s |}.
Definition setEnabled (b : bool) (s : GothamClean.State) : GothamClean.State :=
  {| GothamClean.document := GothamClean.document s;
     GothamClean.location_href := GothamClean.location_href s;
     GothamClean.innerHeight := GothamClean.innerHeight s;
     GothamClean.titlesCache := GothamClean.titlesCache s; GothamClean.enabled := b;
     GothamClean.replacedThisSession := GothamClean.replacedThisSession s;
     GothamClean.processedElements := GothamClean.processedElements s;
     GothamClean.sent := GothamClean.sent s |}.

(** The script instance as the event loop sees it. *)
Record Runtime := {
  st : GothamClean.State;
  awaitingTitles : bool;
  observing : bool;
  onYtNavigateFinish : bool;
  onPopstate : bool;
  timers : gmap nat nat;
  nextTimer : nat;
  gothamCleanScanTimeout : option nat;
  scanPageCalls : nat
  }.

Definition setSt (s : GothamClean.State) (r : Runtime) : Runtime :=
  {| st := s; awaitingTitles := awaitingTitles r; observing := observing r;
     onYtNavigateFinish := onYtNavigateFinish r; onPopstate := onPopstate r;
     timers := timers r; nextTimer := nextTimer r;
     gothamCleanScanTimeout := gothamCleanScanTimeout r; scanPageCalls := scanPageCalls r |}.
Definition setAwaitingTitles (b : bool) (r : Runtime) : Runtime :=
  {| st := st r; awaitingTitles := b; observing := observing r;
     onYtNavigateFinish := onYtNavigateFinish r; onPopstate := onPopstate r;
     timers := timers r; nextTimer := nextTimer r;
     gothamCleanScanTimeout := gothamCleanScanTimeout r; scanPageCalls := scanPageCalls r |}.
Definition setObserving (b : bool) (r : Runtime) : Runtime :=
  {| st := st r; awaitingTitles := awaitingTitles r; observing := b;
     onYtNavigateFinish := onYtNavigateFinish r; onPopstate := onPopstate r;
     timers := timers r; nextTimer := nextTimer r;
     gothamCleanScanTimeout := gothamCleanScanTimeout r; scanPageCalls := scanPageCalls r |}.
Definition setListeners (b : bool) (r : Runtime) : Runtime :=
  {| st := st r; awaitingTitles := awaitingTitles r; observing := observing r;
     onYtNavigateFinish := b; onPopstate := b;
     timers := timers r; nextTimer := nextTimer r;
     gothamCleanScanTimeout := gothamCleanScanTimeout r; scanPageCalls := scanPageCalls r |}.
Definition setTimers (t : gmap nat nat) (r : Runtime) : Runtime :=
  {| st := st r; awaitingTitles := awaitingTitles r; observing := observing r;
     onYtNavigateFinish := onYtNavigateFinish r; onPopstate := onPopstate r;
     timers := t; nextTimer := nextTimer r;
     gothamCleanScanTimeout := gothamCleanScanTimeout r; scanPageCalls := scanPageCalls r |}.
Definition setNextTimer (n : nat) (r : Runtime) : Runtime :=
  {| st := st r; awaitingTitles := awaitingTitles r; observing := observing r;
     onYtNavigateFinish := onYtNavigateFinish r; onPopstate := onPopstate r;
     timers := timers r; nextTimer := n;
     gothamCleanScanTimeout := gothamCleanScanTimeout r; scanPageCalls := scanPageCalls r |}.
Definition setScanTimeout (id : option nat) (r : Runtime) : Runtime :=
  {| st := st r; awaitingTitles := awaitingTitles r; observing := observing r;
     onYtNavigateFinish := onYtNavigateFinish r; onPopstate := onPopstate r;
     timers := timers r; nextTimer := nextTimer r;
     gothamCleanScanTimeout := id; scanPageCalls := scanPageCalls r |}.
Definition setScanPageCalls (n : nat) (r : Runtime) : Runtime :=
  {| st := st r; awaitingTitles := awaitingTitles r; observing := observing r;
     onYtNavigateFinish := onYtNavigateFinish r; onPopstate := onPopstate r;
     timers := timers r; nextTimer := nextTimer r;
     gothamCleanScanTimeout := gothamCleanScanTimeout r; scanPageCalls := n |}.

(** A call of [scanPage] from a callback. *)
Definition callScanPage (r : Runtime) : Runtime * Js.completion :=
  let (s', c) := GothamClean.scanPage (st r) in
  (setScanPageCalls (S (scanPageCalls r)) (setSt s' r), c).

(** [setTimeout(scanPage, delay)]: the new timer's id. *)
Definition setTimeoutScanPage (delay : nat) (r : Runtime) : Runtime * nat :=
  let id := nextTimer r in
  (setNextTimer (S id) (setTimers (<[id := delay]> (timers r)) r), id).

(** [clearTimeout(id)] *)
Definition clearTimeout (id : option nat) (r : Runtime) : Runtime :=
  match id with
  | Some i => setTimers (delete i (timers r)) r
  | None => r
  end.

(** The loop over the records in the observer callback: added nodes
    only. *)
Definition shouldScan (mutations : list MutationRecord) : bool :=
  existsb (fun mutation => (0 <? m_addedNodes mutation)%nat) mutations.

(** The callback given to [new MutationObserver] in [setupObserver]. *)
Definition observerCallback (mutations : list MutationRecord) (r : Runtime) : Runtime :=
  if negb (GothamClean.enabled (st r)) then r
  else if shouldScan mutations then
    let r1 := clearTimeout (gothamCleanScanTimeout r) r in
    let (r2, id) := setTimeoutScanPage 100 r1 in
    setScanTimeout (Some id) r2
  else r.

(** [setupObserver()] *)
Definition setupObserver (r : Runtime) : Runtime := setObserving true r.

(** The [yt-navigate-finish] and the [popstate] listener. *)
Definition navigationCallback (r : Runtime) : Runtime :=
  let r1 := setSt (GothamClean.setProcessedElements ∅ (st r)) r in
  (setTimeoutScanPage 500 r1).1.

(** [setupNavigationListener()] *)
Definition setupNavigationListener (r : Runtime) : Runtime := setListeners true r.

(** The script's top level up to the [await] of [init]. *)
Definition start (doc : node) (href : string) (h : Z) : Runtime :=
  {| st := {| GothamClean.document := doc; GothamClean.location_href := href;
              GothamClean.innerHeight := h; GothamClean.titlesCache := ∅;
              GothamClean.enabled := true; GothamClean.replacedThisSession := 0;
              GothamClean.processedElements := ∅; GothamClean.sent := [GetTitles] |};
     awaitingTitles := true; observing := false;
     onYtNavigateFinish := false; onPopstate := false;
     timers := ∅; nextTimer := 0; gothamCleanScanTimeout := None; scanPageCalls := 0 |}.

(** [init()] from its [await] on; [None] is a reply that makes the [try]
    block throw. *)
Definition initResume (reply : option Response) (r : Runtime) : Runtime * Js.completion :=
  let r := setAwaitingTitles false r in
  match reply with
  | None => (r, Js.Normal)
  | Some response =>
      let s1 := setTitlesCache (default ∅ (r_titles response)) (st r) in
      let s2 := setEnabled (negb (bool_decide (r_enabled response = Some false))) s1 in
      let r1 := setSt s2 r in
      if negb (GothamClean.enabled (st r1)) then (r1, Js.Normal)
      else
        match callScanPage r1 with
        | (r2, Js.Normal) => (setupNavigationListener (setupObserver r2), Js.Normal)
        | thrown => thrown
        end
  end.

(** The [chrome.storage.onChanged] listener. *)
Definition onChanged (changes : Changes) (namespace : string) (r : Runtime)
    : Runtime * Js.completion :=
  if negb (String.eqb namespace "local") then (r, Js.Normal)
  else
    let afterEnabled : Runtime * Js.completion :=
      match ch_enabled changes with
      | None => (r, Js.Normal)
      | Some newValue =>
          let r1 := setSt (setEnabled newValue (st r)) r in
          if GothamClean.enabled (st r1)
          then callScanPage (setSt (GothamClean.setProcessedElements ∅ (st r1)) r1)
          else (r1, Js.Normal)
      end in
    match afterEnabled with
    | (r2, Js.Normal) =>
        match ch_titles changes with
        | None => (r2, Js.Normal)
        | Some newValue =>
            let s1 := setTitlesCache (default ∅ newValue) (st r2) in
            callScanPage (setSt (GothamClean.setProcessedElements ∅ s1) r2)
        end
    | thrown => thrown
    end.

(** One turn of the event loop; the script has no scroll listener. *)
Definition dispatch (r : Runtime) (e : Event) : Runtime :=
  match e with
  | InitResponse reply =>
      if awaitingTitles r then (initResume reply r).1 else r
  | Mutations records =>
      if observing r then observerCallback records r else r
  | YtNavigateFinish =>
      if onYtNavigateFinish r then navigationCallback r else r
  | Popstate =>
      if onPopstate r then navigationCallback r else r
  | Scroll => r
  | TimerFired id =>
      match timers r !! id with
      | Some _ => (callScanPage (setTimers (delete id (timers r)) r)).1
      | None => r
      end
  | StorageChanged changes namespace => (onChanged changes namespace r).1
  | HostRender d href h => setSt (GothamClean.hostRender d href h (st r)) r
  end.

Definition run (r : Runtime) (events : list Event) : Runtime :=
  foldl dispatch r events.

(** An event that cannot make the script act: a scroll, or a mutation batch
    that adds no node. *)
Definition unobserved (e : Event) : bool :=
  match e with
  | Scroll => true
  | Mutations records => forallb (fun m => (m_addedNodes m =? 0)%nat) records
  | _ => false
  end.



(** An instance that was enabled from the start, on a page with one card of
    video A. *)
Definition wired : Runtime :=
  dispatch (start (Pages.listing Inputs.linkA Pages.clickbait) "https://x/" 900)
    (InitResponse (Some {| r_titles := Some Pages.twoTitles; r_enabled := Some true |})).

(** The same instance after the host reused the card for video B. *)
Definition recycled : Runtime :=
  setSt (GothamClean.setDocument
           (Inputs.recycle Inputs.linkB "HE SACRIFICED EVERYTHING"
              (GothamClean.document (st wired))) (st wired)) wired.

End GothamCleanRuntime.

(** ** The background service worker

    [chrome.storage.local] with the keys the extension writes, each absent
    or of the type the extension writes it with; [titles] is written with
    whatever JSON value the network returned.  Storage calls are taken to
    succeed.  Times are integer milliseconds, as [Date.now()] gives them. *)
Module Background.

Definition REFRESH_INTERVAL_HOURS : Z := 6.
Definition ALARM_NAME : string := "refreshTitles".

(** A JSON value other than [null], as [response.json()] gives it and as the
    worker stores it under [titles].  An object is the mapping the content
    scripts read.  Of the other values the extension reads only whether
    they are truthy and how many keys [Object.keys] lists: an array and a
    string stand for their lengths, a number for whether it is 0. *)
Inductive Json :=
  | JObject (mapping : gmap string Cache.TitleData)
  | JArray (length : nat)
  | JString (length : nat)
  | JNumber (zero : bool)
  | JBool (b : bool).

(** [Object.keys(value).length] *)
Definition keys (value : Json) : nat :=
  match value with
  | JObject mapping => size mapping
  | JArray length | JString length => length
  | JNumber _ | JBool _ => 0
  end.

(** [!!value] *)
Definition truthy (value : Json) : bool :=
  match value with
  | JObject _ | JArray _ => true
  | JString length => negb (length =? 0)%nat
  | JNumber zero => negb zero
  | JBool b => b
  end.

(** [value || {}], [None] being [undefined]. *)
Definition orEmptyObject (value : option Json) : Json :=
  match value with
  | Some v => if truthy v then v else JObject ∅
  | None => JObject ∅
  end.

Record Storage := {
  titles : option Json;
  enabled : option bool;
  showIndicator : option bool;
  replacedCount : option nat;
  lastUpdated : option Z;
  titleCount : option nat
  }.

Definition noStorage : Storage :=
  {| titles := None; enabled := None; showIndicator := None;
     replacedCount := None; lastUpdated := None; titleCount := None |}.

Definition setEnabled (b : bool) (s : Storage) : Storage :=
  {| titles := titles s; enabled := Some b; showIndicator := showIndicator s;
     replacedCount := replacedCount s; lastUpdated := lastUpdated s;
     titleCount := titleCount s |}.
Definition setReplacedCount (n : nat) (s : Storage) : Storage :=
  {| titles := titles s; enabled := enabled s; showIndicator := showIndicator s;
     replacedCount := Some n; lastUpdated := lastUpdated s;
     titleCount := titleCount s |}.

(** What [response.json()] gives: a rejection, [null], or another JSON
    value (titles.json holds an object). *)
Inductive Body :=
  | NotJson
  | Null
  | Value (titles : Json).

(** How the [fetch] of titles.json ends: it rejects, or it resolves to a
    response with its [ok] flag and body. *)
Inductive Fetched :=
  | NetworkError
  | Http (ok : bool) (body : Body).

(** [fetchAndCacheTitles()]: the storage after it and what it returns.
    Every failure ends in the [catch]: a rejected [fetch], the [Error]
    thrown for [!response.ok], a rejected [response.json()], the
    [TypeError] of [Object.keys(null)].  Any other body is stored as it
    is, an object or not. *)
Definition fetchAndCacheTitles (fetched : Fetched) (now : Z) (s : Storage) : Storage * bool :=
  match fetched with
  | Http true (Value t) =>
      ({| titles := Some t; enabled := enabled s; showIndicator := showIndicator s;
          replacedCount := replacedCount s; lastUpdated := Some now;
          titleCount := Some (keys t) |}, true)
  | NetworkError | Http false _ | Http true NotJson | Http true Null => (s, false)
  end.

(** The worker: the storage and the alarms by name, each with its period in
    minutes. *)
Record Worker := { storage : Storage; alarms : gmap string Z }.

Definition setStorage (s : Storage) (w : Worker) : Worker :=
  {| storage := s; alarms := alarms w |}.

(** The [chrome.runtime.onInstalled] listener; [details.reason] is only
    logged. *)
Definition onInstalled (fetched : Fetched) (now : Z) (w : Worker) : Worker :=
  let s := storage w in
  let s1 := {| titles := titles s; enabled := Some true; showIndicator := Some true;
               replacedCount := Some 0; lastUpdated := lastUpdated s;
               titleCount := titleCount s |} in
  let s2 := (fetchAndCacheTitles fetched now s1).1 in
  {| storage := s2; alarms := <[ALARM_NAME := (REFRESH_INTERVAL_HOURS * 60)%Z]> (alarms w) |}.

(** The [chrome.alarms.onAlarm] listener. *)
Definition onAlarm (name : string) (fetched : Fetched) (now : Z) (w : Worker) : Worker :=
  if String.eqb name ALARM_NAME
  then setStorage (fetchAndCacheTitles fetched now (storage w)).1 w
  else w.

(** What reaches the [chrome.runtime.onMessage] listener: a message of a
    content script, the popup's [refreshTitles], or a message of another
    type. *)
Inductive Incoming :=
  | FromContent (m : Message)
  | RefreshTitles
  | OtherType.

(** The reply to [getTitles] as the worker sends it. *)
Record TitlesReply := { reply_titles : Json; reply_enabled : bool }.

Inductive Reply :=
  | Titles (response : TitlesReply)
  | Count (count : nat)
  | Success (success : bool).

(** The callback of [storage.get(['titles', 'enabled'], ...)]:
    [result.titles || {}] and [result.enabled !== false]. *)
Definition getTitlesReply (result : Storage) : TitlesReply :=
  {| reply_titles := orEmptyObject (titles result);
     reply_enabled := negb (bool_decide (enabled result = Some false)) |}.

(** The reply as [init] of a content script reads it.  The content scripts
    are embedded for a cache that is an object; a reply whose [titles] is
    another truthy value is outside of what they are embedded for. *)
Definition received (reply : TitlesReply) : option Response :=
  match reply_titles reply with
  | JObject mapping =>
      Some {| r_titles := Some mapping; r_enabled := Some (reply_enabled reply) |}
  | _ => None
  end.

(** [message.count || 1] *)
Definition countOrOne (count : nat) : nat :=
  match count with O => 1 | S _ => count end.

(** The callback of [storage.get(['replacedCount'], ...)]: [result] is what
    the read returned, [s] the storage when the callback runs and writes
    [(result.replacedCount || 0) + (message.count || 1)]. *)
Definition incrementCallback (count : nat) (result s : Storage) : Storage * nat :=
  let newCount := (default 0 (replacedCount result) + countOrOne count)%nat in
  (setReplacedCount newCount s, newCount).

(** The [onMessage] listener with its callbacks: [result] is what the
    storage read of the handler returned. *)
Definition onMessage (message : Incoming) (result : Storage) (fetched : Fetched) (now : Z)
    (w : Worker) : Worker * option Reply :=
  match message with
  | FromContent GetTitles => (w, Some (Titles (getTitlesReply result)))
  | FromContent (IncrementReplacedCount count) =>
      let (s', newCount) := incrementCallback count result (storage w) in
      (setStorage s' w, Some (Count newCount))
  | RefreshTitles =>
      let (s', success) := fetchAndCacheTitles fetched now (storage w) in
      (setStorage s' w, Some (Success success))
  | OtherType => (w, None)
  end.

(** The [chrome.runtime.onStartup] listener; [now] is the clock when the
    age of the cache is taken, [later] the clock when a refresh stores its
    result. *)
Definition onStartup (fetched : Fetched) (now later : Z) (w : Worker) : Worker :=
  let result := storage w in
  let staleThreshold := (REFRESH_INTERVAL_HOURS * 60 * 60 * 1000)%Z in
  let isStale :=
    match lastUpdated result with
    | None | Some 0%Z => true
    | Some t => (staleThreshold <? now - t)%Z
    end in
  if negb (from_option truthy false (titles result)) || isStale
  then setStorage (fetchAndCacheTitles fetched later (storage w)).1 w
  else w.

(** What happens to the worker: its own events, and the popup writing
    [enabled]. *)
Inductive WorkerEvent :=
  | Installed (fetched : Fetched) (now : Z)
  | Alarm (name : string) (fetched : Fetched) (now : Z)
  | Startup (fetched : Fetched) (now later : Z)
  | Received (message : Incoming) (result : Storage) (fetched : Fetched) (now : Z)
  | PopupSetEnabled (b : bool).

Definition step (w : Worker) (e : WorkerEvent) : Worker :=
  match e with
  | Installed fetched now => onInstalled fetched now w
  | Alarm name fetched now => onAlarm name fetched now w
  | Startup fetched now later => onStartup fetched now later w
  | Received message result fetched now => (onMessage message result fetched now w).1
  | PopupSetEnabled b => setStorage (setEnabled b (storage w)) w
  end.

Definition run (w : Worker) (events : list WorkerEvent) : Worker := foldl step w events.

(** Increment messages handled one after the other: every read returns
    what the callback before it wrote. *)
Definition oneByOne (w : Worker) (counts : list nat) : Worker :=
  foldl (fun w count => setStorage (incrementCallback count (storage w) (storage w)).1 w)
    w counts.

(** Increment messages whose reads all came back before the first callback
    ran: every callback works from the same [result]. *)
Definition overlapped (result : Storage) (w : Worker) (counts : list nat) : Worker :=
  foldl (fun w count => setStorage (incrementCallback count result (storage w)).1 w)
    w counts.

(** Only [replacedCount] differs. *)
Definition sameButCount (s s' : Storage) : Prop :=
  titles s' = titles s /\ enabled s' = enabled s /\ showIndicator s' = showIndicator s
  /\ lastUpdated s' = lastUpdated s /\ titleCount s' = titleCount s.

(** The counts of the [incrementReplacedCount] messages of an outbox
    (newest first), in the order they were sent. *)
Definition incrementCounts (sent : list Message) : list nat :=
  omap (fun m => match m with
                 | IncrementReplacedCount count => Some count
                 | GetTitles => None
                 end) (rev sent).

(** [titles], [titleCount] and [lastUpdated] are written together. *)
Definition consistent (s : Storage) : Prop :=
  match titles s with
  | Some t => titleCount s = Some (keys t) /\ is_Some (lastUpdated s)
  | None => titleCount s = None /\ lastUpdated s = None
  end.

(** The fetch ends in the [catch] of [fetchAndCacheTitles]; and whatever
    fetch the event may make does. *)
Definition fails (fetched : Fetched) : bool :=
  match fetched with
  | Http true (Value _) => false
  | NetworkError | Http false _ | Http true NotJson | Http true Null => true
  end.
Definition refreshFails (e : WorkerEvent) : bool :=
  match e with
  | Installed fetched _ | Startup fetched _ _ | Received RefreshTitles _ fetched _ =>
      fails fetched
  | Alarm name fetched _ => negb (String.eqb name ALARM_NAME) || fails fetched
  | Received _ _ _ _ | PopupSetEnabled _ => true
  end.

End Background.

(** ** The popup *)
Module Popup.

(** [formatRelativeTime(timestamp)], [now] being [Date.now()];
    [Math.floor(diff / n)] is the floored quotient. *)
Definition formatRelativeTime (now : Z) (timestamp : option Z) : string :=
  match timestamp with
  | None | Some 0%Z => "Never"
  | Some t =>
      let diff := (now - t)%Z in
      let minutes := (diff / 60000)%Z in
      let hours := (diff / 3600000)%Z in
      let days := (diff / 86400000)%Z in
      if (minutes <? 1)%Z then "Just now"
      else if (minutes <? 60)%Z then pretty minutes +:+ "m ago"
      else if (hours <? 24)%Z then pretty hours +:+ "h ago"
      else pretty days +:+ "d ago"
  end.

(** What the popup shows. *)
Record View := {
  enableToggle_checked : bool;
  titleCount_textContent : string;
  replacedCount_textContent : string;
  lastUpdated_textContent : string
  }.

(** [a || b] on numbers that may be absent. *)
Definition orNumber (a : option nat) (b : nat) : nat :=
  match a with
  | Some (S n) => S n
  | Some O | None => b
  end.

(** [loadState()] from the result of its [storage.get]. *)
Definition loadState (now : Z) (result : Background.Storage) : View :=
  {| enableToggle_checked := negb (bool_decide (Background.enabled result = Some false));
     titleCount_textContent :=
       pretty (orNumber (Background.titleCount result)
                 (orNumber
                    (Some (Background.keys
                             (Background.orEmptyObject (Background.titles result)))) 0));
     replacedCount_textContent := pretty (orNumber (Background.replacedCount result) 0);
     lastUpdated_textContent := formatRelativeTime now (Background.lastUpdated result) |}.

(** [changes] as the popup's [chrome.storage.onChanged] listener reads it:
    the new value of each of the three keys that changed, [Some None] for a
    removed key. *)
Record Changes := {
  ch_replacedCount : option (option nat);
  ch_titleCount : option (option nat);
  ch_lastUpdated : option (option Z)
  }.

(** The [chrome.storage.onChanged] listener of the popup. *)
Definition onChanged (now : Z) (changes : Changes) (namespace : string) (v : View) : View :=
  if negb (String.eqb namespace "local") then v
  else
    {| enableToggle_checked := enableToggle_checked v;
       titleCount_textContent :=
         match ch_titleCount changes with
         | Some newValue => pretty (orNumber newValue 0)
         | None => titleCount_textContent v
         end;
       replacedCount_textContent :=
         match ch_replacedCount changes with
         | Some newValue => pretty (orNumber newValue 0)
         | None => replacedCount_textContent v
         end;
       lastUpdated_textContent :=
         match ch_lastUpdated changes with
         | Some newValue => formatRelativeTime now newValue
         | None => lastUpdated_textContent v
         end |}.

End Popup.

(** Inputs for the statements about the worker. *)
Module Workers.
Import Background.

(** A profile the extension was never installed in. *)
Definition blank : Worker := {| storage := noStorage; alarms := ∅ |}.

(** Install with the network down, a refresh that succeeds, some
    substitutions reported, the user switching the extension off, a browser
    start a day later with a server error. *)
Definition history : list WorkerEvent :=
  [ Installed NetworkError 1000;
    Alarm "refreshTitles" (Http true (Value (JObject Pages.twoTitles))) 21601000;
    Received (FromContent (IncrementReplacedCount 1)) noStorage NetworkError 21602000;
    PopupSetEnabled false;
    Startup (Http false Null) 108001000 108001500 ].

End Workers.
(** * Facts about the page tree *)
Module DomFacts.
Import Dom.

Lemma node_ind' (P : node -> Prop) :
  (forall s, P (Text s)) ->
  (forall t a r ch, Forall P ch -> P (Element t a r ch)) ->
  forall n, P n.
Proof.
  intros HT HE. fix IH 1. intros [s | t a r ch].
  - apply HT.
  - apply HE. induction ch as [| c ch IHch]; constructor.
    + apply IH.
    + exact IHch.
Qed.

Lemma append_empty_r (s : string) : s +:+ "" = s.
Proof.
  induction s as [| c s IH]; [reflexivity |].
  change (String c (s +:+ "") = String c s). now rewrite IH.
Qed.

Lemma textContent_setTextContent (s : string) (n : node) :
  textContent (setTextContent s n) = s.
Proof.
  destruct n as [d | t a r ch]; [reflexivity |].
  destruct s as [| c s]; [reflexivity |].
  change (String c s +:+ "" = String c s). apply append_empty_r.
Qed.

Lemma nodeAt_alterAt (f : node -> node) (p : path) :
  forall doc n, nodeAt doc p = Some n -> nodeAt (alterAt f doc p) p = Some (f n).
Proof.
  induction p as [| i p IH]; intros doc n H; simpl in *.
  - congruence.
  - destruct doc as [d | t a r ch]; [discriminate |].
    destruct (ch !! i) as [c |] eqn:Hc; [| discriminate].
    rewrite list_lookup_alter_eq, Hc. simpl. now apply IH.
Qed.

Lemma nodeAt_alterAt_None (f : node -> node) (p : path) :
  forall doc, nodeAt doc p = None -> alterAt f doc p = doc.
Proof.
  induction p as [| i p IH]; intros doc H; simpl in *.
  - discriminate.
  - destruct doc as [d | t a r ch]; [reflexivity |].
    f_equal. apply list_eq. intros j.
    destruct (decide (j = i)) as [-> | Hne].
    + rewrite list_lookup_alter_eq.
      destruct (ch !! i) as [c |] eqn:Hc; simpl; [| reflexivity].
      now rewrite IH.
    + now rewrite list_lookup_alter_ne.
Qed.

Lemma textContentAt_set (doc : node) (p : path) (s : string) :
  is_Some (nodeAt doc p) -> textContentAt (setTextContentAt doc p s) p = s.
Proof.
  intros [n H]. unfold textContentAt, setTextContentAt.
  rewrite (nodeAt_alterAt _ _ _ _ H). simpl. apply textContent_setTextContent.
Qed.

Lemma textContentAt_setAttribute (doc : node) (p : path) (k v : string) :
  textContentAt (setAttributeAt doc p k v) p = textContentAt doc p.
Proof.
  unfold textContentAt, setAttributeAt.
  destruct (nodeAt doc p) as [n |] eqn:H.
  - rewrite (nodeAt_alterAt _ _ _ _ H). now destruct n.
  - now rewrite nodeAt_alterAt_None, H.
Qed.

Lemma elementAt_setTextContent (doc : node) (p : path) (s : string) :
  elementAt doc p -> elementAt (setTextContentAt doc p s) p.
Proof.
  intros (t & a & r & ch & H). unfold elementAt, setTextContentAt.
  rewrite (nodeAt_alterAt _ _ _ _ H). simpl. now eexists _, _, _, _.
Qed.

Lemma elementAt_setAttribute (doc : node) (p : path) (k v : string) :
  elementAt doc p -> elementAt (setAttributeAt doc p k v) p.
Proof.
  intros (t & a & r & ch & H). unfold elementAt, setAttributeAt.
  rewrite (nodeAt_alterAt _ _ _ _ H). simpl. now eexists _, _, _, _.
Qed.

Lemma elementAt_is_Some (doc : node) (p : path) :
  elementAt doc p -> is_Some (nodeAt doc p).
Proof. intros (t & a & r & ch & H). now exists (Element t a r ch). Qed.

Lemma getAttributeAt_set (doc : node) (p : path) (k v : string) :
  elementAt doc p -> getAttributeAt (setAttributeAt doc p k v) p k = Some v.
Proof.
  intros (t & a & r & ch & H). unfold getAttributeAt, setAttributeAt.
  rewrite (nodeAt_alterAt _ _ _ _ H). simpl. apply lookup_insert_eq.
Qed.

Lemma getAttributeAt_set_ne (doc : node) (p : path) (k k' v : string) :
  k <> k' -> getAttributeAt (setAttributeAt doc p k v) p k' = getAttributeAt doc p k'.
Proof.
  intros Hne. unfold getAttributeAt, setAttributeAt.
  destruct (nodeAt doc p) as [n |] eqn:H.
  - rewrite (nodeAt_alterAt _ _ _ _ H). simpl.
    destruct n; simpl; [reflexivity |]. now apply lookup_insert_ne.
  - now rewrite nodeAt_alterAt_None, H.
Qed.

Lemma concatMapi_elem {A B : Type} (f : nat -> A -> list B) (l : list A) (y : B) :
  forall i0, y ∈ concatMapi f i0 l ->
             exists j x, l !! j = Some x /\ y ∈ f (i0 + j)%nat x.
Proof.
  induction l as [| x l IH]; intros i0 H; simpl in H.
  - now apply elem_of_nil in H.
  - apply elem_of_app in H as [H | H].
    + exists 0%nat, x. split; [reflexivity |]. now rewrite Nat.add_0_r.
    + destruct (IH _ H) as (j & x' & Hj & Hy).
      exists (S j), x'. split; [exact Hj |].
      now replace (i0 + S j)%nat with (S i0 + j)%nat by lia.
Qed.

(** Every entry of the walk is an element, found at its path. *)
Lemma subtree_spec (n : node) :
  forall anc here e,
    e ∈ subtree anc here n ->
    exists q, e_path e = (here ++ q)%list /\ nodeAt n q = Some (e_node e)
              /\ isElement (e_node e) = true.
Proof.
  induction n as [s | t a r ch IH] using node_ind'; intros anc here e H; simpl in H.
  - now apply elem_of_nil in H.
  - apply elem_of_cons in H as [-> | H].
    + exists []. simpl. now rewrite app_nil_r.
    + apply concatMapi_elem in H as (j & c & Hj & He). simpl in He.
      rewrite Forall_forall in IH.
      destruct (IH c (list_elem_of_lookup_2 _ _ _ Hj) _ _ _ He) as (q & Hp & Hn & Hel).
      exists (j :: q). simpl. rewrite Hj. split; [| now split].
      now rewrite Hp, <- app_assoc.
Qed.

Lemma querySelectorAll_elementAt (doc : node) (sel : selector) (p : path) :
  p ∈ querySelectorAll doc sel -> elementAt doc p.
Proof.
  unfold querySelectorAll. intros H.
  apply list_elem_of_fmap in H as (e & -> & He).
  apply list_elem_of_filter in He as [_ He].
  apply subtree_spec in He as (q & Hp & Hn & Hel). simpl in Hp. subst q.
  destruct (e_node e) as [d | t a r ch] eqn:E; [discriminate |].
  now exists t, a, r, ch.
Qed.

Lemma head_elem {A : Type} (l : list A) (x : A) : head l = Some x -> x ∈ l.
Proof. destruct l; simpl; [discriminate |]. intros [= ->]. apply list_elem_of_here. Qed.

Lemma querySelector_elementAt (doc : node) (c : path) (sel : selector) (p : path) :
  querySelector doc c sel = Some p -> elementAt doc p.
Proof.
  unfold querySelector, querySelectorAllIn. intros H.
  apply head_elem, list_elem_of_filter in H as [_ H].
  now apply querySelectorAll_elementAt in H.
Qed.

Lemma querySelectorDoc_elementAt (doc : node) (sel : selector) (p : path) :
  querySelectorDoc doc sel = Some p -> elementAt doc p.
Proof.
  unfold querySelectorDoc. intros H.
  now apply head_elem, querySelectorAll_elementAt in H.
Qed.

Lemma firstElement_elementAt (doc : node) (c : path) (sels : list selector) (p : path) :
  Common.firstElement doc c sels = Some p -> elementAt doc p.
Proof.
  induction sels as [| sel sels IH]; simpl; [discriminate |].
  destruct (querySelector doc c sel) as [e |] eqn:E.
  - intros [= <-]. now apply querySelector_elementAt in E.
  - exact IH.
Qed.

Lemma concatMapi_intro {A B : Type} (f : nat -> A -> list B) (l : list A) (y : B) :
  forall i0 j x, l !! j = Some x -> y ∈ f (i0 + j)%nat x -> y ∈ concatMapi f i0 l.
Proof.
  induction l as [| x0 l IH]; intros i0 j x Hj Hy; [discriminate |].
  simpl. apply elem_of_app. destruct j as [| j]; simpl in Hj.
  - injection Hj as ->. left. now rewrite Nat.add_0_r in Hy.
  - right. apply (IH (S i0) j x Hj).
    now replace (S i0 + j)%nat with (i0 + S j)%nat by lia.
Qed.

Lemma concatMapi_fmap {A B C : Type} (g : B -> C) (f : nat -> A -> list B) (l : list A) :
  forall i0, g <$> concatMapi f i0 l = concatMapi (fun i x => g <$> f i x) i0 l.
Proof.
  induction l as [| x l IH]; intros i0; simpl; [reflexivity |].
  now rewrite fmap_app, IH.
Qed.

Lemma concatMapi_ext {A B : Type} (f g : nat -> A -> list B) (l : list A) :
  Forall (fun x => forall i, f i x = g i x) l ->
  forall i0, concatMapi f i0 l = concatMapi g i0 l.
Proof.
  induction 1 as [| x l Hx _ IH]; intros i0; simpl; [reflexivity |].
  now rewrite Hx, IH.
Qed.

(** [tags] is the walk of [subtree], read at path and name. *)
Lemma subtree_tags (n : node) :
  forall anc here,
    (fun e => (e_path e, h_name (headOf (e_node e)))) <$> subtree anc here n = tags here n.
Proof.
  induction n as [s | t a r ch IH] using node_ind'; intros anc here; simpl; [reflexivity |].
  f_equal. rewrite concatMapi_fmap. apply concatMapi_ext.
  eapply Forall_impl; [exact IH |]. intros c Hc i. apply Hc.
Qed.

Lemma matches_tag (tag : string) (e : entry) :
  matches [withName tag any] e = String.eqb tag (h_name (headOf (e_node e))).
Proof.
  unfold matches, matchesCompound. simpl.
  destruct (String.eqb tag _); [| reflexivity].
  now destruct (e_ancestors e).
Qed.

(** A type selector finds the paths that [tags] lists under its name. *)
Lemma querySelectorAll_tag (doc : node) (tag : string) (p : path) :
  p ∈ querySelectorAll doc [withName tag any] <-> (p, tag) ∈ tags [] doc.
Proof.
  unfold querySelectorAll, allElements. rewrite <- (subtree_tags doc [] []). split.
  - intros H. apply list_elem_of_fmap in H as (e & -> & He).
    apply list_elem_of_filter in He as [Hm He].
    rewrite matches_tag in Hm. apply String.eqb_eq in Hm.
    apply list_elem_of_fmap. exists e. split; [now rewrite Hm | exact He].
  - intros H. apply list_elem_of_fmap in H as (e & Heq & He).
    injection Heq as -> ->.
    apply list_elem_of_fmap. exists e. split; [reflexivity |].
    apply list_elem_of_filter. split; [| exact He].
    rewrite matches_tag. apply String.eqb_refl.
Qed.

(** A rewrite of one node that adds no element adds none to the page. *)
Lemma tags_alterAt (f : node -> node) (q : path) :
  (forall n here x, x ∈ tags here (f n) -> x ∈ tags here n) ->
  forall n here x, x ∈ tags here (alterAt f n q) -> x ∈ tags here n.
Proof.
  intros Hf. induction q as [| i q IH]; intros n here x; simpl; [apply Hf |].
  destruct n as [s | t a r ch]; [trivial |]. simpl.
  intros H. apply elem_of_cons in H as [-> | H]; [apply list_elem_of_here |].
  apply list_elem_of_further.
  apply concatMapi_elem in H as (j & c' & Hj & Hx). simpl in Hx.
  destruct (decide (j = i)) as [-> | Hne].
  - rewrite list_lookup_alter_eq in Hj.
    destruct (ch !! i) as [c0 |] eqn:Hc; [| discriminate]. injection Hj as <-.
    apply IH in Hx. now apply (concatMapi_intro _ _ _ 0%nat i c0).
  - rewrite list_lookup_alter_ne in Hj by congruence.
    now apply (concatMapi_intro _ _ _ 0%nat j c').
Qed.

Lemma tags_setAttribute (k v : string) (n : node) (here : path) (x : path * string) :
  x ∈ tags here (setAttribute k v n) -> x ∈ tags here n.
Proof. now destruct n. Qed.

Lemma tags_setTextContent (s : string) (n : node) (here : path) (x : path * string) :
  x ∈ tags here (setTextContent s n) -> x ∈ tags here n.
Proof.
  destruct n as [d | t a r ch]; simpl.
  - intros H. now apply elem_of_nil in H.
  - intros H. apply elem_of_cons in H as [-> | H]; [apply list_elem_of_here |].
    destruct s; simpl in H; now apply elem_of_nil in H.
Qed.

(** Replacing a title (its text, then two attributes) adds no element to
    what a type selector finds. *)
Lemma querySelectorAll_tag_after_replace (doc : node) (t : path) (text k1 v1 k2 v2 tag : string)
    (p : path) :
  p ∈ querySelectorAll
        (setAttributeAt (setAttributeAt (setTextContentAt doc t text) t k1 v1) t k2 v2)
        [withName tag any] ->
  p ∈ querySelectorAll doc [withName tag any].
Proof.
  rewrite !querySelectorAll_tag. unfold setAttributeAt, setTextContentAt. intros H.
  apply (tags_alterAt _ _ (tags_setAttribute k2 v2)) in H.
  apply (tags_alterAt _ _ (tags_setAttribute k1 v1)) in H.
  apply (tags_alterAt _ _ (tags_setTextContent text)) in H.
  exact H.
Qed.

End DomFacts.

(** * Facts about the URL patterns *)
Module PatternFacts.
Import Pattern UrlShape.

Lemma append_cons (c : ascii) (s t : string) : String c s +:+ t = String c (s +:+ t).
Proof. reflexivity. Qed.

Lemma append_assoc (a b c : string) : (a +:+ b) +:+ c = a +:+ (b +:+ c).
Proof.
  induction a as [| x a IH]; [reflexivity |].
  now rewrite !append_cons, IH.
Qed.

Lemma length_append (a b : string) :
  String.length (a +:+ b) = (String.length a + String.length b)%nat.
Proof.
  induction a as [| x a IH]; [reflexivity |].
  rewrite append_cons. simpl. now rewrite IH.
Qed.

Lemma dropS_append (pre s : string) : dropS (String.length pre) (pre +:+ s) = s.
Proof. induction pre as [| c pre IH]; [reflexivity | exact IH]. Qed.

Lemma dropS_split (k : nat) :
  forall s, (k <= String.length s)%nat ->
            exists pre, s = pre +:+ dropS k s /\ String.length pre = k.
Proof.
  induction k as [| k IH]; intros s Hk.
  - now exists "".
  - destruct s as [| c s]; simpl in Hk; [lia |].
    destruct (IH s ltac:(lia)) as (pre & Hs & Hl).
    exists (String c pre). simpl. rewrite append_cons. split; [now f_equal | now f_equal].
Qed.

Lemma matchClasses_lit (l : string) :
  forall s rest, matchClasses (lit l) s = Some rest <-> s = l +:+ rest.
Proof.
  induction l as [| c l IH]; intros s rest.
  - simpl. split; [now intros [= ->] | now intros ->].
  - change (lit (String c l)) with (Ascii.eqb c :: lit l). cbn [matchClasses].
    destruct s as [| x s]; [split; discriminate |].
    rewrite append_cons.
    destruct (Ascii.eqb c x) eqn:E.
    + apply Ascii.eqb_eq in E as ->. rewrite IH.
      split; [now intros -> | now intros [= ->]].
    + split; [discriminate |]. intros [= -> _]. now rewrite Ascii.eqb_refl in E.
Qed.

Lemma takeId_spec (n : nat) :
  forall s tok, takeId n s = Some tok
                <-> exists rest, s = tok +:+ rest /\ String.length tok = n
                                 /\ allIdChars tok = true.
Proof.
  induction n as [| n IH]; intros s tok; simpl.
  - split.
    + intros [= <-]. now exists s.
    + intros (rest & _ & Hl & _). destruct tok; [reflexivity | discriminate].
  - destruct s as [| c s].
    + split; [discriminate |]. intros (rest & Hs & Hl & _).
      destruct tok; discriminate.
    + destruct (idChar c) eqn:Ec.
      * destruct (takeId n s) as [t |] eqn:Et; simpl.
        -- apply IH in Et as (rest & -> & Hl & Hid). split.
           ++ intros [= <-]. exists rest. simpl. rewrite Ec, Hid, Hl. now repeat split.
           ++ intros (rest' & Hs & Hl' & Hid').
              destruct tok as [| c' tok]; [discriminate |].
              rewrite append_cons in Hs. injection Hs as -> Hs.
              simpl in Hl', Hid'. apply andb_true_iff in Hid' as [_ Hid'].
              assert (takeId n (t +:+ rest) = Some tok) as Ht.
              { apply IH. exists rest'. repeat split; [exact Hs | lia | exact Hid']. }
              assert (takeId n (t +:+ rest) = Some t) as Ht'.
              { apply IH. now exists rest. }
              congruence.
        -- split; [discriminate |]. intros (rest' & Hs & Hl' & Hid').
           destruct tok as [| c' tok]; [discriminate |].
           rewrite append_cons in Hs. injection Hs as -> Hs.
           simpl in Hl', Hid'. apply andb_true_iff in Hid' as [_ Hid'].
           assert (takeId n s = Some tok) as Ht.
           { apply IH. exists rest'. repeat split; [exact Hs | lia | exact Hid']. }
           congruence.
      * split; [discriminate |]. intros (rest' & Hs & Hl' & Hid').
        destruct tok as [| c' tok]; [discriminate |].
        rewrite append_cons in Hs. injection Hs as -> Hs.
        simpl in Hid'. rewrite Ec in Hid'. discriminate.
Qed.

Lemma matchClasses_watchParam (s rest : string) :
  matchClasses watchParam s = Some rest <-> s = "?v=" +:+ rest \/ s = "&v=" +:+ rest.
Proof.
  unfold watchParam. cbn [matchClasses].
  destruct s as [| c s]; [split; [discriminate | intros [H | H]; discriminate H] |].
  unfold oneOf. cbn [list_ascii_of_string existsb].
  destruct (Ascii.eqb c "?") eqn:E1; [| destruct (Ascii.eqb c "&") eqn:E2]; cbn [orb].
  - apply Ascii.eqb_eq in E1 as ->. rewrite matchClasses_lit. split.
    + intros ->. now left.
    + intros [H | H]; [now injection H | discriminate H].
  - apply Ascii.eqb_eq in E2 as ->. rewrite matchClasses_lit. split.
    + intros ->. now right.
    + intros [H | H]; [discriminate H | now injection H].
  - split; [discriminate |].
    intros [H | H]; injection H as -> _;
      [now rewrite Ascii.eqb_refl in E1 | now rewrite Ascii.eqb_refl in E2].
Qed.

Lemma matchClasses_pattern (sh : shape) (s rest : string) :
  matchClasses (pattern sh) s = Some rest
  <-> exists lead, lead ∈ leads sh /\ s = lead +:+ rest.
Proof.
  destruct sh; cbn [pattern leads].
  - rewrite matchClasses_watchParam. split.
    + intros [-> | ->]; eexists; (split; [| reflexivity]); set_solver.
    + intros (lead & Hl & ->).
      apply elem_of_cons in Hl as [-> | Hl]; [now left |].
      apply list_elem_of_singleton in Hl as ->. now right.
  - unfold shortLink. rewrite matchClasses_lit. split.
    + intros ->. eexists. split; [| reflexivity]. set_solver.
    + intros (lead & Hl & ->). now apply list_elem_of_singleton in Hl as ->.
  - unfold shortsPath. rewrite matchClasses_lit. split.
    + intros ->. eexists. split; [| reflexivity]. set_solver.
    + intros (lead & Hl & ->). now apply list_elem_of_singleton in Hl as ->.
  - unfold embedPath. rewrite matchClasses_lit. split.
    + intros ->. eexists. split; [| reflexivity]. set_solver.
    + intros (lead & Hl & ->). now apply list_elem_of_singleton in Hl as ->.
Qed.

Lemma matchHere_pattern (sh : shape) (s tok : string) :
  matchHere (pattern sh) s = Some tok
  <-> exists lead rest, lead ∈ leads sh /\ s = lead +:+ tok +:+ rest /\ isToken tok.
Proof.
  unfold matchHere, isToken. split.
  - intros H. apply bind_Some in H as (r & Hr & Ht).
    apply matchClasses_pattern in Hr as (lead & Hl & ->).
    apply takeId_spec in Ht as (rest & -> & Hn & Hid).
    now exists lead, rest.
  - intros (lead & rest & Hl & -> & Hn & Hid).
    apply bind_Some. exists (tok +:+ rest). split.
    + apply matchClasses_pattern. now exists lead.
    + apply takeId_spec. now exists rest.
Qed.

Lemma occurs_matchHere (sh : shape) (url : string) (k : nat) (tok : string) :
  occurs sh url k tok
  <-> (k <= String.length url)%nat /\ matchHere (pattern sh) (dropS k url) = Some tok.
Proof.
  unfold occurs. split.
  - intros (pre & lead & rest & -> & <- & Hl & Ht). split.
    + rewrite length_append. lia.
    + rewrite dropS_append. apply matchHere_pattern. now exists lead, rest.
  - intros [Hk H]. apply matchHere_pattern in H as (lead & rest & Hl & Hd & Ht).
    destruct (dropS_split k url Hk) as (pre & Hu & Hp).
    exists pre, lead, rest. rewrite <- Hd. split; [exact Hu |]. split; [exact Hp |].
    split; [exact Hl | exact Ht].
Qed.

Lemma search_Some (lead : list charClass) (tok : string) :
  forall s, search lead s = Some tok
            <-> exists k, (k <= String.length s)%nat
                          /\ matchHere lead (dropS k s) = Some tok
                          /\ forall j, (j < k)%nat -> matchHere lead (dropS j s) = None.
Proof.
  induction s as [| c s IH]; simpl.
  - destruct (matchHere lead "") as [cap |] eqn:E.
    + split.
      * intros [= ->]. exists 0%nat. simpl. repeat split; [lia | exact E | lia].
      * intros (k & Hk & Hm & _). destruct k; simpl in Hm; congruence.
    + split; [discriminate |].
      intros (k & Hk & Hm & _). destruct k; simpl in Hm; congruence.
  - destruct (matchHere lead (String c s)) as [cap |] eqn:E.
    + split.
      * intros [= ->]. exists 0%nat. simpl. repeat split; [lia | exact E | lia].
      * intros (k & Hk & Hm & Hmin). destruct k as [| k]; simpl in Hm; [congruence |].
        specialize (Hmin 0%nat ltac:(lia)). simpl in Hmin. congruence.
    + rewrite IH. split.
      * intros (k & Hk & Hm & Hmin). exists (S k). simpl.
        repeat split; [lia | exact Hm |].
        intros [| j] Hj; simpl; [exact E | apply Hmin; lia].
      * intros (k & Hk & Hm & Hmin). destruct k as [| k]; simpl in Hm; [congruence |].
        exists k. repeat split; [lia | exact Hm |].
        intros j Hj. apply (Hmin (S j)). lia.
Qed.

Lemma search_None (lead : list charClass) :
  forall s, search lead s = None
            <-> forall k, (k <= String.length s)%nat -> matchHere lead (dropS k s) = None.
Proof.
  induction s as [| c s IH]; simpl.
  - destruct (matchHere lead "") as [cap |] eqn:E.
    + split; [discriminate |]. intros H. specialize (H 0%nat ltac:(lia)). simpl in H. congruence.
    + split; [| reflexivity]. intros _ [| k] Hk; simpl; [exact E | lia].
  - destruct (matchHere lead (String c s)) as [cap |] eqn:E.
    + split; [discriminate |]. intros H. specialize (H 0%nat ltac:(lia)). simpl in H. congruence.
    + rewrite IH. split.
      * intros H [| k] Hk; simpl; [exact E | apply H; lia].
      * intros H k Hk. apply (H (S k)). lia.
Qed.

Lemma search_leftmost (sh : shape) (url : string) (k : nat) (tok : string) :
  occurs sh url k tok ->
  (forall k' tok', occurs sh url k' tok' -> (k <= k')%nat) ->
  search (pattern sh) url = Some tok.
Proof.
  intros Ho Hmin. apply occurs_matchHere in Ho as [Hk Hm].
  apply search_Some. exists k. repeat split; [exact Hk | exact Hm |].
  intros j Hj. destruct (matchHere (pattern sh) (dropS j url)) as [tok' |] eqn:E; [| reflexivity].
  assert (occurs sh url j tok') as Ho by (apply occurs_matchHere; split; [lia | exact E]).
  apply Hmin in Ho. lia.
Qed.

Lemma search_no_occurrence (sh : shape) (url : string) :
  (forall k tok, ~ occurs sh url k tok) -> search (pattern sh) url = None.
Proof.
  intros Hno. apply search_None. intros k Hk.
  destruct (matchHere (pattern sh) (dropS k url)) as [tok |] eqn:E; [| reflexivity].
  exfalso. apply (Hno k tok). now apply occurs_matchHere.
Qed.

Lemma occurs_nonempty (sh : shape) (url : string) (k : nat) (tok : string) :
  occurs sh url k tok -> url <> "".
Proof.
  intros (pre & lead & rest & -> & _ & _ & Hl & _) E.
  apply (f_equal String.length) in E. rewrite !length_append, Hl in E.
  simpl in E. lia.
Qed.

Lemma extractVideoId_first (url : string) (sh : shape) (k : nat) (tok : string) :
  occurs sh url k tok ->
  (forall sh' k' tok', occurs sh' url k' tok' ->
                       (rank sh < rank sh')%nat \/ (sh' = sh /\ (k <= k')%nat)) ->
  extractVideoId (Some url) = Some tok.
Proof.
  intros Ho Hmin.
  assert (Hfirst : search (pattern sh) url = Some tok).
  { apply (search_leftmost sh url k tok Ho). intros k' tok' Ho'.
    destruct (Hmin _ _ _ Ho') as [Hr | [_ Hk]]; lia. }
  assert (Hbefore : forall sh', (rank sh' < rank sh)%nat -> search (pattern sh') url = None).
  { intros sh' Hr. apply search_no_occurrence. intros k' tok' Ho'.
    destruct (Hmin _ _ _ Ho') as [Hr' | [-> _]]; lia. }
  unfold extractVideoId. pose proof (occurs_nonempty _ _ _ _ Ho) as Hne.
  destruct url as [| c url]; [congruence |].
  unfold patterns. cbn [firstCapture].
  pose proof (Hbefore WatchParam) as H0. pose proof (Hbefore ShortLink) as H1.
  pose proof (Hbefore ShortsPath) as H2.
  destruct sh; cbn [pattern rank] in Hfirst, H0, H1, H2.
  - now rewrite Hfirst.
  - rewrite H0 by lia. now rewrite Hfirst.
  - rewrite H0, H1 by lia. now rewrite Hfirst.
  - rewrite H0, H1, H2 by lia. now rewrite Hfirst.
Qed.

Lemma extractVideoId_none (url : string) :
  (forall sh k tok, ~ occurs sh url k tok) -> extractVideoId (Some url) = None.
Proof.
  intros Hno. unfold extractVideoId. destruct url as [| c url]; [reflexivity |].
  unfold patterns. cbn [firstCapture].
  pose proof (search_no_occurrence WatchParam _ (Hno WatchParam)) as H0.
  pose proof (search_no_occurrence ShortLink _ (Hno ShortLink)) as H1.
  pose proof (search_no_occurrence ShortsPath _ (Hno ShortsPath)) as H2.
  pose proof (search_no_occurrence EmbedPath _ (Hno EmbedPath)) as H3.
  cbn [pattern] in H0, H1, H2, H3. now rewrite H0, H1, H2, H3.
Qed.

End PatternFacts.

(** * Facts about the substitution engine *)
Module EngineFacts.
Import Dom Common DomFacts Outcome.

Lemma HL_processVideoCard_cases (c : path) (s : HonestLevy.State) :
  HonestLevy.processVideoCard c s = (s, Js.Normal)
  \/ exists vid t,
       extractVideoId (findVideoLink (HonestLevy.location_href s)
                         (HonestLevy.document s) c) = Some vid
       /\ HonestLevy.processedVideoIds s !! c <> Some vid
       /\ Cache.truthy (Cache.get (HonestLevy.titlesCache s) vid) = true
       /\ HonestLevy.findTitleElement (HonestLevy.document s) c = Some t
       /\ HonestLevy.isElementVisible s c = true
       /\ Some (textContentAt (HonestLevy.document s) t)
          <> Cache.clean_title (Cache.get (HonestLevy.titlesCache s) vid)
       /\ replacedHL c vid t s (HonestLevy.processVideoCard c s).1
       /\ (HonestLevy.processVideoCard c s).2
          = HonestLevy.logReplaced
              (Cache.clean_title (Cache.get (HonestLevy.titlesCache s) vid)).
Proof.
  unfold HonestLevy.processVideoCard.
  destruct (extractVideoId (findVideoLink (HonestLevy.location_href s)
                              (HonestLevy.document s) c)) as [vid |] eqn:E1;
    [| now left].
  case_bool_decide as E2; [now left |].
  destruct (Cache.truthy (Cache.get (HonestLevy.titlesCache s) vid)) eqn:E3; [| now left].
  destruct (HonestLevy.findTitleElement (HonestLevy.document s) c) as [t |] eqn:E4;
    [| now left].
  destruct (HonestLevy.isElementVisible s c) eqn:E5; [| now left].
  case_bool_decide as E6; [now left |].
  right. exists vid, t. simpl.
  destruct (Cache.clean_title (Cache.get (HonestLevy.titlesCache s) vid)) as [ct |] eqn:E7;
    simpl; unfold replacedHL; rewrite E7; simpl; repeat split; auto.
Qed.

(** The replacing branch, from its guards. *)
Lemma HL_processVideoCard_replaces (c : path) (s : HonestLevy.State) (vid : string) (t : path) :
  extractVideoId (findVideoLink (HonestLevy.location_href s)
                    (HonestLevy.document s) c) = Some vid ->
  HonestLevy.processedVideoIds s !! c <> Some vid ->
  Cache.truthy (Cache.get (HonestLevy.titlesCache s) vid) = true ->
  HonestLevy.findTitleElement (HonestLevy.document s) c = Some t ->
  HonestLevy.isElementVisible s c = true ->
  Some (textContentAt (HonestLevy.document s) t)
  <> Cache.clean_title (Cache.get (HonestLevy.titlesCache s) vid) ->
  replacedHL c vid t s (HonestLevy.processVideoCard c s).1
  /\ (HonestLevy.processVideoCard c s).2
     = HonestLevy.logReplaced (Cache.clean_title (Cache.get (HonestLevy.titlesCache s) vid)).
Proof.
  intros E1 E2 E3 E4 E5 E6.
  destruct (HL_processVideoCard_cases c s) as [E | (vid' & t' & F1 & _ & _ & F4 & _ & _ & R)].
  - exfalso. revert E. unfold HonestLevy.processVideoCard.
    rewrite E1, (bool_decide_eq_false_2 _ E2), E3, E4, E5, (bool_decide_eq_false_2 _ E6).
    simpl. destruct (HonestLevy.logReplaced _); intros [= E]; 
      apply (f_equal HonestLevy.replacedThisSession) in E; simpl in E; lia.
  - rewrite E1 in F1. rewrite E4 in F4. injection F1 as <-. injection F4 as <-. exact R.
Qed.

(** What the page reads at the title element after the replacing branch. *)
Lemma replacedHL_reads (c : path) (vid : string) (t : path) (s s' : HonestLevy.State) :
  elementAt (HonestLevy.document s) t ->
  replacedHL c vid t s s' ->
  textContentAt (HonestLevy.document s') t
  = default "" (Cache.clean_title (Cache.get (HonestLevy.titlesCache s) vid))
  /\ getAttributeAt (HonestLevy.document s') t "data-honestlevy-replaced" = Some "true"
  /\ getAttributeAt (HonestLevy.document s') t "data-honestlevy-original"
     = Some (textContentAt (HonestLevy.document s) t).
Proof.
  intros Ht (Hd & _). rewrite Hd. split; [| split].
  - rewrite !textContentAt_setAttribute. apply textContentAt_set.
    now apply elementAt_is_Some.
  - apply getAttributeAt_set.
    now apply elementAt_setAttribute, elementAt_setTextContent.
  - rewrite getAttributeAt_set_ne by discriminate.
    apply getAttributeAt_set. now apply elementAt_setTextContent.
Qed.

Lemma HL_findTitleElement_elementAt (doc : node) (c t : path) :
  HonestLevy.findTitleElement doc c = Some t -> elementAt doc t.
Proof. apply firstElement_elementAt. Qed.

Lemma GC_findTitleElement_elementAt (doc : node) (c t : path) :
  GothamClean.findTitleElement doc c = Some t -> elementAt doc t.
Proof. apply firstElement_elementAt. Qed.

Lemma HL_processVideoCard_twice (s : HonestLevy.State) (c : path) :
  extractVideoId (findVideoLink (HonestLevy.location_href (HonestLevy.processVideoCard c s).1)
                    (HonestLevy.document (HonestLevy.processVideoCard c s).1) c)
  = extractVideoId (findVideoLink (HonestLevy.location_href s) (HonestLevy.document s) c) ->
  HonestLevy.processVideoCard c (HonestLevy.processVideoCard c s).1
  = ((HonestLevy.processVideoCard c s).1, Js.Normal)
  /\ HonestLevy.replacedThisSession (HonestLevy.processVideoCard c s).1
     <= S (HonestLevy.replacedThisSession s).
Proof.
  intros Hsame.
  destruct (HL_processVideoCard_cases c s) as [E | (vid & t & E1 & _ & _ & _ & _ & _ & R & _)].
  - rewrite !E. simpl. rewrite E. split; [reflexivity | lia].
  - destruct R as (_ & Hm & Hn & _). split; [| lia].
    unfold HonestLevy.processVideoCard at 1. rewrite Hsame, E1, Hm, lookup_insert_eq.
    now rewrite bool_decide_eq_true_2.
Qed.

Lemma GC_processVideoCard_cases (c : path) (s : GothamClean.State) :
  GothamClean.processVideoCard c s = (s, Js.Normal)
  \/ exists vid t,
       (c ∉ GothamClean.processedElements s)
       /\ GothamClean.isGothamChessVideo s c = true
       /\ extractVideoId (findVideoLink (GothamClean.location_href s)
                            (GothamClean.document s) c) = Some vid
       /\ Cache.truthy (Cache.get (GothamClean.titlesCache s) vid) = true
       /\ GothamClean.findTitleElement (GothamClean.document s) c = Some t
       /\ Some (textContentAt (GothamClean.document s) t)
          <> Cache.clean_title (Cache.get (GothamClean.titlesCache s) vid)
       /\ replacedGC c vid t s (GothamClean.processVideoCard c s).1
       /\ (GothamClean.processVideoCard c s).2 = Js.Normal.
Proof.
  unfold GothamClean.processVideoCard.
  case_bool_decide as E0; [now left |].
  destruct (GothamClean.isGothamChessVideo s c) eqn:E1; [| now left].
  destruct (extractVideoId (findVideoLink (GothamClean.location_href s)
                              (GothamClean.document s) c)) as [vid |] eqn:E2;
    [| now left].
  destruct (Cache.truthy (Cache.get (GothamClean.titlesCache s) vid)) eqn:E3; [| now left].
  destruct (GothamClean.findTitleElement (GothamClean.document s) c) as [t |] eqn:E4;
    [| now left].
  case_bool_decide as E6; [now left |].
  right. exists vid, t. simpl. unfold replacedGC. simpl. repeat split; auto.
Qed.

Lemma GC_processVideoCard_twice (s : GothamClean.State) (c : path) :
  GothamClean.processVideoCard c (GothamClean.processVideoCard c s).1
  = ((GothamClean.processVideoCard c s).1, Js.Normal)
  /\ GothamClean.replacedThisSession (GothamClean.processVideoCard c s).1
     <= S (GothamClean.replacedThisSession s).
Proof.
  destruct (GC_processVideoCard_cases c s) as [E | (vid & t & _ & _ & _ & _ & _ & _ & R & _)].
  - rewrite !E. simpl. rewrite E. split; [reflexivity | lia].
  - destruct R as (_ & Hm & Hn & _). split; [| lia].
    unfold GothamClean.processVideoCard at 1. rewrite Hm.
    rewrite bool_decide_eq_true_2; [reflexivity |].
    apply elem_of_union_l, elem_of_singleton. reflexivity.
Qed.

Lemma Cache_get_own (cache : gmap string Cache.TitleData) (vid : string)
    (record : Cache.TitleData) :
  cache !! vid = Some record -> Cache.get cache vid = Cache.Own record.
Proof. intros H. unfold Cache.get. now rewrite H. Qed.

Lemma Cache_get_absent (cache : gmap string Cache.TitleData) (vid : string) :
  cache !! vid = None -> vid ∉ Cache.objectPrototype ->
  Cache.get cache vid = Cache.Undefined.
Proof.
  intros H Hp. unfold Cache.get. rewrite H. now rewrite bool_decide_eq_false_2.
Qed.

(** The selector loop of HonestLevy's [processWatchPageTitle], read at the
    element the selectors find. *)
Lemma HL_watchTitleLoop_at (sels : list selector) (vid : string) (td : Cache.value)
    (s : HonestLevy.State) (w : path) :
  watchTitleElement (HonestLevy.document s) sels = Some w ->
  HonestLevy.watchTitleLoop sels vid td s
  = if bool_decide (getAttributeAt (HonestLevy.document s) w "data-honestlevy-video-id"
                    = Some vid)
    then s
    else if bool_decide (Some (textContentAt (HonestLevy.document s) w)
                         = Cache.clean_title td)
         then s
         else watchReplacedHL vid td w s.
Proof.
  induction sels as [| sel sels IH]; simpl; [discriminate |].
  destruct (querySelectorDoc (HonestLevy.document s) sel) as [e |] eqn:E.
  - intros [= ->]. reflexivity.
  - exact IH.
Qed.

Lemma HL_containerSelectors_types : Forall typeSelector HonestLevy.containerSelectors.
Proof. repeat constructor; eexists; reflexivity. Qed.

Lemma cards_nil (doc : node) (sels : list selector) :
  cards doc sels = [] -> forall sel, sel ∈ sels -> querySelectorAll doc sel = [].
Proof.
  unfold cards. induction sels as [| sel0 sels IH]; simpl; intros H sel Hin.
  - now apply elem_of_nil in Hin.
  - apply app_eq_nil in H as [H0 H1].
    apply elem_of_cons in Hin as [-> | Hin]; [exact H0 | now apply IH].
Qed.

(** [processVideoCard] adds no element to what a type selector finds. *)
Lemma HL_processVideoCard_adds_no_element (c : path) (s : HonestLevy.State)
    (tag : string) (p : path) :
  p ∈ querySelectorAll (HonestLevy.document (HonestLevy.processVideoCard c s).1)
        [withName tag any] ->
  p ∈ querySelectorAll (HonestLevy.document s) [withName tag any].
Proof.
  destruct (HL_processVideoCard_cases c s)
    as [E | (vid & t & _ & _ & _ & _ & _ & _ & R & _)].
  - now rewrite E.
  - destruct R as (Hd & _). rewrite Hd. apply querySelectorAll_tag_after_replace.
Qed.

Lemma HL_scanContainers_no_cards (sels : list selector) (s : HonestLevy.State) :
  (forall sel, sel ∈ sels -> querySelectorAll (HonestLevy.document s) sel = []) ->
  HonestLevy.scanContainers sels s = (s, Js.Normal).
Proof.
  induction sels as [| sel sels IH]; simpl; intros H; [reflexivity |].
  rewrite (H sel) by apply list_elem_of_here. simpl.
  apply IH. intros sel' Hin. apply H. now apply list_elem_of_further.
Qed.

(** On a page with one card, the walk over the containers is the one call of
    [processVideoCard] on that card. *)
Lemma HL_scanContainers_one_card (sels : list selector) :
  Forall typeSelector sels ->
  forall (s : HonestLevy.State) (c : path),
    cards (HonestLevy.document s) sels = [c] ->
    (HonestLevy.processVideoCard c s).2 = Js.Normal ->
    HonestLevy.scanContainers sels s = ((HonestLevy.processVideoCard c s).1, Js.Normal).
Proof.
  induction 1 as [| sel sels Hsel Hall IH]; intros s c Hcards Hnormal.
  - discriminate.
  - unfold cards in Hcards. simpl in Hcards.
    apply app_eq_unit in Hcards as [[H0 H1] | [H0 H1]]; simpl; rewrite H0; simpl.
    + now apply IH.
    + destruct (HonestLevy.processVideoCard c s) as [s' k] eqn:E. simpl in Hnormal.
      subst k. simpl. apply HL_scanContainers_no_cards.
      intros sel' Hin.
      assert (Hty : typeSelector sel').
      { rewrite Forall_forall in Hall. now apply Hall. }
      destruct Hty as [tag ->].
      pose proof (cards_nil _ _ H1 _ Hin) as Hnone.
      destruct (querySelectorAll (HonestLevy.document s') [withName tag any])
        as [| p l] eqn:Eq; [reflexivity | exfalso].
      assert (Hp : p ∈ querySelectorAll
                     (HonestLevy.document (HonestLevy.processVideoCard c s).1)
                     [withName tag any]).
      { rewrite E. simpl. rewrite Eq. apply list_elem_of_here. }
      apply HL_processVideoCard_adds_no_element in Hp. rewrite Hnone in Hp.
      now apply elem_of_nil in Hp.
Qed.

End EngineFacts.

(** * The title replacement and the link of the card *)
Module FrameFacts.
Import Dom Common DomFacts Outcome.

Lemma select_nil (P : ehead -> bool) : select P [] = [].
Proof. reflexivity. Qed.

Lemma select_cons (P : ehead -> bool) (p : path) (h : ehead) (l : list (path * ehead)) :
  select P ((p, h) :: l) = if P h then p :: select P l else select P l.
Proof.
  unfold select. rewrite filter_cons. simpl.
  destruct (P h) eqn:E.
  - rewrite decide_True by reflexivity. reflexivity.
  - rewrite decide_False by discriminate. reflexivity.
Qed.

Lemma select_app (P : ehead -> bool) (l1 l2 : list (path * ehead)) :
  select P (l1 ++ l2)%list = (select P l1 ++ select P l2)%list.
Proof. unfold select. now rewrite filter_app, fmap_app. Qed.

Lemma select_none (P : ehead -> bool) (l : list (path * ehead)) :
  (forall p h, (p, h) ∈ l -> P h = false) -> select P l = [].
Proof.
  induction l as [| [p h] l IH]; intros H; [reflexivity |].
  rewrite select_cons, (H p h) by apply list_elem_of_here.
  apply IH. intros p' h' Hin. apply (H p' h'). now apply list_elem_of_further.
Qed.

Lemma select_elem (P : ehead -> bool) (l : list (path * ehead)) (p : path) :
  p ∈ select P l -> exists h, (p, h) ∈ l /\ P h = true.
Proof.
  unfold select. intros H. apply list_elem_of_fmap in H as ([p' h] & -> & Hin).
  apply list_elem_of_filter in Hin as [HP Hin]. now exists h.
Qed.

Lemma subtree_heads (n : node) :
  forall anc here,
    (fun e => (e_path e, headOf (e_node e))) <$> subtree anc here n = heads here n.
Proof.
  induction n as [s | t a r ch IH] using node_ind'; intros anc here; simpl; [reflexivity |].
  f_equal. rewrite concatMapi_fmap. apply concatMapi_ext.
  eapply Forall_impl; [exact IH |]. intros c Hc i. apply Hc.
Qed.

Lemma matches_single (c0 : compound) (e : entry) :
  matches [c0] e = matchesCompound c0 (headOf (e_node e)).
Proof.
  unfold matches. simpl. destruct (matchesCompound _ _); [| reflexivity].
  now destruct (e_ancestors e).
Qed.

Lemma querySelectorAll_single (doc : node) (c0 : compound) :
  querySelectorAll doc [c0] = select (matchesCompound c0) (heads [] doc).
Proof.
  unfold querySelectorAll, allElements, select. rewrite <- (subtree_heads doc [] []).
  generalize (subtree [] [] doc). intros l.
  induction l as [| e l IH]; [reflexivity |].
  rewrite fmap_cons, !filter_cons.
  pose proof (matches_single c0 e) as Hm.
  destruct (decide (matches [c0] e = true)) as [H1 | H1];
    destruct (decide (matchesCompound c0 (e_path e, headOf (e_node e)).2 = true))
      as [H2 | H2]; simpl in H2.
  - rewrite !fmap_cons. simpl. now rewrite IH.
  - congruence.
  - congruence.
  - exact IH.
Qed.

Lemma heads_prefix (n : node) :
  forall here p h, (p, h) ∈ heads here n -> here `prefix_of` p.
Proof.
  induction n as [s | t a r ch IH] using node_ind'; intros here p h H; simpl in H.
  - now apply elem_of_nil in H.
  - apply elem_of_cons in H as [[= -> _] | H]; [reflexivity |].
    apply concatMapi_elem in H as (j & c & Hj & Hin). simpl in Hin.
    rewrite Forall_forall in IH.
    apply (IH c (list_elem_of_lookup_2 _ _ _ Hj)) in Hin.
    etrans; [| exact Hin]. now apply prefix_app_r.
Qed.

Lemma heads_children_below (t : string) (a : gmap string string) (ch : list node)
    (here p : path) (h : ehead) :
  (p, h) ∈ concatMapi (fun i c => heads (here ++ [i])%list c) 0%nat ch ->
  below here p = true.
Proof.
  intros H. apply concatMapi_elem in H as (j & c & Hj & Hin). simpl in Hin.
  apply heads_prefix in Hin as [q ->].
  unfold below. apply andb_true_iff. split.
  - apply bool_decide_eq_true. rewrite <- app_assoc. now apply prefix_app_r.
  - apply negb_true_iff, bool_decide_eq_false. intros E.
    apply (f_equal length) in E. rewrite !length_app in E. simpl in E. lia.
Qed.

Lemma below_app (here q p : path) :
  below (here ++ q)%list p = true -> below here p = true \/ q = [].
Proof.
  destruct q as [| i q]; [now right | left].
  unfold below in *. apply andb_true_iff in H as [H1 H2].
  apply bool_decide_eq_true in H1. apply andb_true_iff. split.
  - apply bool_decide_eq_true. etrans; [| exact H1]. now apply prefix_app_r.
  - apply negb_true_iff, bool_decide_eq_false. intros ->.
    apply prefix_length in H1. rewrite length_app in H1. simpl in H1. lia.
Qed.

Lemma forallb_ext_in {A : Type} (f g : A -> bool) (l : list A) :
  (forall x, x ∈ l -> f x = g x) -> forallb f l = forallb g l.
Proof.
  induction l as [| x l IH]; intros H; [reflexivity |]. simpl.
  rewrite (H x) by apply list_elem_of_here. f_equal.
  apply IH. intros y Hy. apply H. now apply list_elem_of_further.
Qed.

Lemma matchesCompound_insert (c0 : compound) (t : string) (a : gmap string string)
    (k v : string) :
  ~ reads c0 k ->
  matchesCompound c0 {| h_name := t; h_attrs := <[k := v]> a |}
  = matchesCompound c0 {| h_name := t; h_attrs := a |}.
Proof.
  intros Hk. unfold reads in Hk. unfold matchesCompound, classList. simpl.
  rewrite !lookup_insert_ne by (intros ->; tauto).
  f_equal; [f_equal |].
  - apply forallb_ext_in. intros x Hx.
    rewrite lookup_insert_ne; [reflexivity |]. intros ->. tauto.
  - apply forallb_ext_in. intros [x y] Hx. simpl.
    rewrite lookup_insert_ne; [reflexivity |]. intros ->.
    apply Hk. right. right. right. apply list_elem_of_fmap. now exists (x, y).
Qed.

Lemma select_concatMapi_alter (P : ehead -> bool)
    (H : nat -> node -> list (path * ehead)) (g : node -> node) (ch : list node) :
  forall i0 i,
    (forall x, ch !! i = Some x -> select P (H (i0 + i)%nat (g x)) = select P (H (i0 + i)%nat x)) ->
    select P (concatMapi H i0 (alter g i ch)) = select P (concatMapi H i0 ch).
Proof.
  induction ch as [| c ch IH]; intros i0 i Hx; [reflexivity |].
  destruct i as [| i]; simpl.
  - rewrite !select_app. f_equal.
    specialize (Hx c eq_refl). now rewrite Nat.add_0_r in Hx.
  - rewrite !select_app. f_equal. apply IH. intros x Hl.
    replace (S i0 + i)%nat with (i0 + S i)%nat by lia. now apply Hx.
Qed.

Lemma select_replaceTitle (P : ehead -> bool) (text k1 v1 k2 v2 : string) :
  (forall t a, P {| h_name := t; h_attrs := <[k2 := v2]> (<[k1 := v1]> a) |}
               = P {| h_name := t; h_attrs := a |}) ->
  forall (q : path) (n : node) (here : path),
    (forall p h, (p, h) ∈ heads here n -> below (here ++ q)%list p = true -> P h = false) ->
    select P (heads here (alterAt (replaceTitle text k1 v1 k2 v2) n q))
    = select P (heads here n).
Proof.
  intros HP. induction q as [| i q IH]; intros n here Hbelow.
  - simpl. destruct n as [d | t a r ch]; [reflexivity |].
    rewrite app_nil_r in Hbelow.
    assert (Hrest : select P (concatMapi (fun i c => heads (here ++ [i])%list c) 0%nat ch) = []).
    { apply select_none. intros p h Hin. apply (Hbelow p h).
      - simpl. now apply list_elem_of_further.
      - now apply (heads_children_below t a ch here p h). }
    unfold replaceTitle. simpl heads at 2. rewrite select_cons, Hrest.
    destruct text; simpl; rewrite select_cons, HP, select_nil; reflexivity.
  - simpl. destruct n as [d | t a r ch]; [reflexivity |]. simpl.
    rewrite !select_cons.
    assert (Hch : select P (concatMapi (fun j c => heads (here ++ [j])%list c) 0%nat
                              (alter (fun c => alterAt (replaceTitle text k1 v1 k2 v2) c q) i ch))
                  = select P (concatMapi (fun j c => heads (here ++ [j])%list c) 0%nat ch)).
    { apply select_concatMapi_alter. intros x Hx. simpl. apply IH.
      intros p h Hin Hb. apply (Hbelow p h).
      - simpl. apply list_elem_of_further.
        now apply (concatMapi_intro _ _ _ 0%nat i x).
      - now rewrite <- app_assoc in Hb. }
    now rewrite Hch.
Qed.

Lemma alterAt_alterAt (f g : node -> node) (q : path) :
  forall n, alterAt g (alterAt f n q) q = alterAt (fun x => g (f x)) n q.
Proof.
  induction q as [| i q IH]; intros n; simpl; [reflexivity |].
  destruct n as [d | t a r ch]; [reflexivity |]. simpl. f_equal.
  apply list_eq. intros j. destruct (decide (j = i)) as [-> | Hne].
  - rewrite !list_lookup_alter_eq. destruct (ch !! i); simpl; [| reflexivity].
    now rewrite IH.
  - now rewrite !list_lookup_alter_ne by congruence.
Qed.

Lemma replace_as_alterAt (doc : node) (t : path) (text k1 v1 k2 v2 : string) :
  setAttributeAt (setAttributeAt (setTextContentAt doc t text) t k1 v1) t k2 v2
  = alterAt (replaceTitle text k1 v1 k2 v2) doc t.
Proof.
  unfold setAttributeAt, setTextContentAt. now rewrite !alterAt_alterAt.
Qed.

Lemma below_cons (i : nat) (t p : path) : below (i :: t) (i :: p) = below t p.
Proof.
  unfold below. f_equal.
  - apply bool_decide_ext. split; [apply prefix_cons_inv_2 | apply prefix_cons].
  - f_equal. apply bool_decide_ext. split; [now intros [= ->] | now intros ->].
Qed.

Lemma href_replaceTitle (base text k1 v1 k2 v2 : string) (n : node) :
  k1 <> "href" -> k2 <> "href" ->
  href base (replaceTitle text k1 v1 k2 v2 n) = href base n.
Proof.
  intros H1 H2. destruct n as [d | t a r ch]; [reflexivity |].
  unfold replaceTitle. simpl.
  now rewrite !lookup_insert_ne by assumption.
Qed.

(** Outside the rewritten title nothing changes that [href] reads. *)
Lemma hrefAt_replaceTitle (base text k1 v1 k2 v2 : string) (t : path) :
  k1 <> "href" -> k2 <> "href" ->
  forall (doc : node) (p : path),
    below t p = false ->
    hrefAt base (alterAt (replaceTitle text k1 v1 k2 v2) doc t) p = hrefAt base doc p.
Proof.
  intros H1 H2. unfold hrefAt.
  induction t as [| i t IH]; intros doc p Hb.
  - assert (p = []) as ->.
    { unfold below in Hb. rewrite bool_decide_eq_true_2 in Hb by apply prefix_nil.
      simpl in Hb. apply negb_false_iff, bool_decide_eq_true in Hb. exact Hb. }
    simpl. now apply href_replaceTitle.
  - destruct doc as [d | tg a r ch]; [reflexivity |]. simpl.
    destruct p as [| j p]; [reflexivity |]. simpl.
    destruct (decide (j = i)) as [-> | Hne].
    + rewrite list_lookup_alter_eq. rewrite below_cons in Hb.
      destruct (ch !! i) as [x |]; simpl; [| reflexivity]. now apply IH.
    + now rewrite list_lookup_alter_ne by congruence.
Qed.

Lemma matchesCompound_name (c0 : compound) (h : ehead) (t : string) :
  c_name c0 = Some t -> matchesCompound c0 h = true -> h_name h = t.
Proof.
  intros Hn. unfold matchesCompound. rewrite Hn. intros H.
  repeat (apply andb_true_iff in H as [H _]). now apply String.eqb_eq in H.
Qed.

(** An empty [t.querySelectorAll('a')] means no element below [t] is
    named [a]. *)
Lemma no_link_below (doc : node) (t : path) :
  querySelectorAllIn doc t [withName "a" any] = [] ->
  forall p h, (p, h) ∈ heads [] doc -> below t p = true -> h_name h <> "a".
Proof.
  unfold querySelectorAllIn. rewrite querySelectorAll_single. intros Hempty p h Hin Hb Hn.
  assert (Hp : p ∈ filter (fun p => below t p = true)
                     (select (matchesCompound (withName "a" any)) (heads [] doc))).
  { apply list_elem_of_filter. split; [exact Hb |].
    unfold select. apply list_elem_of_fmap. exists (p, h). split; [reflexivity |].
    apply list_elem_of_filter. split; [| exact Hin].
    simpl. unfold matchesCompound. simpl. rewrite Hn. reflexivity. }
  rewrite Hempty in Hp. now apply elem_of_nil in Hp.
Qed.

Lemma querySelectorAll_replaceTitle (doc : node) (t : path) (text k1 v1 k2 v2 : string)
    (c0 : compound) :
  c_name c0 = Some "a" -> ~ reads c0 k1 -> ~ reads c0 k2 ->
  querySelectorAllIn doc t [withName "a" any] = [] ->
  querySelectorAll (alterAt (replaceTitle text k1 v1 k2 v2) doc t) [c0]
  = querySelectorAll doc [c0].
Proof.
  intros Hn H1 H2 Hno. rewrite !querySelectorAll_single.
  apply select_replaceTitle.
  - intros tg a. now rewrite !matchesCompound_insert.
  - intros p h Hin Hb. simpl in Hb.
    destruct (matchesCompound c0 h) eqn:E; [exfalso | reflexivity].
    apply (no_link_below doc t Hno p h Hin Hb). now apply (matchesCompound_name c0 h "a").
Qed.

(** The first [href] a list of link selectors finds in a card is the same
    before and after a title replacement at [t], when no link lies inside
    [t]. *)
Lemma firstHref_replaceTitle (base : string) (doc : node) (c t : path)
    (text k1 v1 k2 v2 : string) (sels : list selector) :
  k1 <> "href" -> k2 <> "href" ->
  Forall (linkSelector k1 k2) sels ->
  querySelectorAllIn doc t [withName "a" any] = [] ->
  firstHref base (alterAt (replaceTitle text k1 v1 k2 v2) doc t) c sels
  = firstHref base doc c sels.
Proof.
  intros Hk1 Hk2 Hall Hno.
  induction Hall as [| sel sels (c0 & -> & Hn & H1 & H2) _ IH]; [reflexivity |]. simpl.
  assert (Hq : querySelector (alterAt (replaceTitle text k1 v1 k2 v2) doc t) c [c0]
               = querySelector doc c [c0]).
  { unfold querySelector, querySelectorAllIn.
    now rewrite querySelectorAll_replaceTitle. }
  rewrite Hq.
  destruct (querySelector doc c [c0]) as [p |] eqn:E; simpl; [| exact IH].
  assert (Hb : below t p = false).
  { destruct (below t p) eqn:Eb; [exfalso | reflexivity].
    unfold querySelector, querySelectorAllIn in E.
    apply head_elem, list_elem_of_filter in E as [_ E].
    rewrite querySelectorAll_single in E. apply select_elem in E as (h & Hin & Hm).
    apply (no_link_below doc t Hno p h Hin Eb). now apply (matchesCompound_name c0 h "a"). }
  rewrite (hrefAt_replaceTitle base _ _ _ _ _ _ Hk1 Hk2 _ _ Hb). now rewrite IH.
Qed.

Lemma linkSelectors_link :
  Forall (linkSelector "data-honestlevy-original" "data-honestlevy-replaced") linkSelectors.
Proof.
  repeat constructor; eexists; (split; [reflexivity |]); (split; [reflexivity |]);
    split; intros [H | [H | [H | H]]]; try discriminate H;
    repeat (apply elem_of_cons in H as [H | H]; [discriminate H |]);
    now apply elem_of_nil in H.
Qed.

(** HonestLevy's [processVideoCard] leaves the link of the card as it was
    when the title element holds no link. *)
Lemma HL_processVideoCard_keeps_link (s : HonestLevy.State) (c : path) :
  titleHoldsNoLink (HonestLevy.document s) c = true ->
  findVideoLink (HonestLevy.location_href (HonestLevy.processVideoCard c s).1)
    (HonestLevy.document (HonestLevy.processVideoCard c s).1) c
  = findVideoLink (HonestLevy.location_href s) (HonestLevy.document s) c.
Proof.
  intros Hout.
  destruct (EngineFacts.HL_processVideoCard_cases c s)
    as [E | (vid & t & _ & _ & _ & Ht & _ & _ & R & _)].
  - now rewrite E.
  - pose proof R as (_ & _ & _ & _ & _ & _ & Hl & _).
    destruct R as (Hd & _). rewrite Hd, Hl, replace_as_alterAt.
    unfold titleHoldsNoLink in Hout. rewrite Ht in Hout.
    apply bool_decide_eq_true_1 in Hout.
    apply firstHref_replaceTitle; try discriminate; [apply linkSelectors_link | exact Hout].
Qed.

End FrameFacts.

(** * Facts about the scheduler *)
Module SchedulerFacts.
Import Outcome.

Lemma callScanPage_calls (r : HonestLevy.Runtime) :
  HonestLevy.scanPageCalls (HonestLevy.callScanPage r).1 = S (HonestLevy.scanPageCalls r).
Proof. unfold HonestLevy.callScanPage. now destruct (HonestLevy.scanPage _). Qed.

Lemma callScanPage_unwired (r : HonestLevy.Runtime) :
  unwiredHL r -> unwiredHL (HonestLevy.callScanPage r).1.
Proof. unfold HonestLevy.callScanPage, unwiredHL. now destruct (HonestLevy.scanPage _). Qed.

Lemma callScanPage_awaiting (r : HonestLevy.Runtime) :
  HonestLevy.awaitingTitles (HonestLevy.callScanPage r).1 = HonestLevy.awaitingTitles r.
Proof. unfold HonestLevy.callScanPage. now destruct (HonestLevy.scanPage _). Qed.

(** An event of the page finds no callback in an unwired instance: only the
    host's own rendering shows, in the page. *)
Lemma dispatch_unwired (r : HonestLevy.Runtime) (e : Event) :
  unwiredHL r -> fromPage e = true ->
  unwiredHL (HonestLevy.dispatch r e)
  /\ HonestLevy.scanPageCalls (HonestLevy.dispatch r e) = HonestLevy.scanPageCalls r
  /\ HonestLevy.awaitingTitles (HonestLevy.dispatch r e) = HonestLevy.awaitingTitles r.
Proof.
  intros Hu He. pose proof Hu as (Ho & Hn & Hp & Hs & Ht).
  destruct e; try discriminate; simpl.
  - rewrite Ho. now repeat split.
  - rewrite Hn. now repeat split.
  - rewrite Hp. now repeat split.
  - rewrite Hs. now repeat split.
  - rewrite Ht, lookup_empty. now repeat split.
  - now repeat split.
Qed.

Lemma processVideoCard_enabled (c : Dom.path) (s : HonestLevy.State) :
  HonestLevy.enabled (HonestLevy.processVideoCard c s).1 = HonestLevy.enabled s.
Proof.
  destruct (EngineFacts.HL_processVideoCard_cases c s)
    as [E | (vid & t & _ & _ & _ & _ & _ & _ & R & _)].
  - now rewrite E.
  - now destruct R as (_ & _ & _ & _ & _ & He & _).
Qed.

Lemma forEachCard_enabled (cs : list Dom.path) :
  forall s, HonestLevy.enabled (HonestLevy.forEachCard cs s).1 = HonestLevy.enabled s.
Proof.
  induction cs as [| c cs IH]; intros s; simpl; [reflexivity |].
  pose proof (processVideoCard_enabled c s) as H.
  destruct (HonestLevy.processVideoCard c s) as [s' [| ex]]; simpl in *.
  - now rewrite IH.
  - exact H.
Qed.

Lemma scanContainers_enabled (sels : list Dom.selector) :
  forall s, HonestLevy.enabled (HonestLevy.scanContainers sels s).1 = HonestLevy.enabled s.
Proof.
  induction sels as [| sel sels IH]; intros s; simpl; [reflexivity |].
  pose proof (forEachCard_enabled (Dom.querySelectorAll (HonestLevy.document s) sel) s) as H.
  destruct (HonestLevy.forEachCard _ s) as [s' [| ex]]; simpl in *.
  - now rewrite IH.
  - exact H.
Qed.

Lemma watchTitleLoop_enabled (sels : list Dom.selector) (vid : string) (td : Cache.value)
    (s : HonestLevy.State) :
  HonestLevy.enabled (HonestLevy.watchTitleLoop sels vid td s) = HonestLevy.enabled s.
Proof.
  induction sels as [| sel sels IH]; simpl; [reflexivity |].
  destruct (Dom.querySelectorDoc _ sel); [| exact IH].
  repeat case_bool_decide; reflexivity.
Qed.

Lemma scanPage_enabled (s : HonestLevy.State) :
  HonestLevy.enabled (HonestLevy.scanPage s).1 = HonestLevy.enabled s.
Proof.
  unfold HonestLevy.scanPage. destruct (negb (HonestLevy.enabled s)); [reflexivity |].
  pose proof (scanContainers_enabled HonestLevy.containerSelectors s) as H.
  destruct (HonestLevy.scanContainers _ s) as [s' [| ex]]; simpl in *; [| exact H].
  unfold HonestLevy.processWatchPageTitle.
  destruct (extractVideoId _); [| exact H].
  destruct (negb _); [exact H |]. now rewrite watchTitleLoop_enabled.
Qed.

Lemma run_unwired (events : list Event) :
  forall r, unwiredHL r -> forallb fromPage events = true ->
            unwiredHL (HonestLevy.run r events)
            /\ HonestLevy.scanPageCalls (HonestLevy.run r events) = HonestLevy.scanPageCalls r
            /\ HonestLevy.awaitingTitles (HonestLevy.run r events) = HonestLevy.awaitingTitles r.
Proof.
  unfold HonestLevy.run.
  induction events as [| e events IH]; intros r Hu Hall; simpl in *.
  - split; [exact Hu | split; reflexivity].
  - apply andb_true_iff in Hall as [He Hall].
    destruct (dispatch_unwired r e Hu He) as (Hu' & Hc' & Ha').
    destruct (IH _ Hu' Hall) as (Hu'' & Hc'' & Ha'').
    split; [exact Hu'' | split; congruence].
Qed.

Lemma sameWiring_refl (r : HonestLevy.Runtime) : sameWiring r r.
Proof. now repeat split. Qed.

Lemma sameWiring_trans (r1 r2 r3 : HonestLevy.Runtime) :
  sameWiring r1 r2 -> sameWiring r2 r3 -> sameWiring r1 r3.
Proof.
  intros (A1 & A2 & A3 & A4 & A5 & A6) (B1 & B2 & B3 & B4 & B5 & B6).
  repeat split; congruence.
Qed.

Lemma sameWiring_setSt (s : HonestLevy.State) (r : HonestLevy.Runtime) :
  sameWiring r (HonestLevy.setSt s r).
Proof. now repeat split. Qed.

Lemma sameWiring_callScanPage (r : HonestLevy.Runtime) :
  sameWiring r (HonestLevy.callScanPage r).1.
Proof.
  unfold HonestLevy.callScanPage. destruct (HonestLevy.scanPage _). now repeat split.
Qed.

(** The storage listener registers nothing and touches no timer. *)
Lemma sameWiring_onChanged (changes : Changes) (namespace : string) (r : HonestLevy.Runtime) :
  sameWiring r (HonestLevy.onChanged changes namespace r).1.
Proof.
  unfold HonestLevy.onChanged.
  destruct (negb (String.eqb namespace "local")); [apply sameWiring_refl |].
  set (afterEnabled := match ch_enabled changes with
                       | Some newValue => _
                       | None => _
                       end).
  assert (Hfirst : sameWiring r afterEnabled.1).
  { subst afterEnabled. destruct (ch_enabled changes) as [b |]; [| apply sameWiring_refl].
    destruct b; simpl.
    - eapply sameWiring_trans; [| apply sameWiring_callScanPage]. now repeat split.
    - now repeat split. }
  destruct afterEnabled as [r2 [| ex]]; simpl in *; [| exact Hfirst].
  destruct (ch_titles changes); [| exact Hfirst].
  eapply sameWiring_trans; [exact Hfirst |].
  eapply sameWiring_trans; [| apply sameWiring_callScanPage]. now repeat split.
Qed.

(** Nothing but [init] registers a callback: once [init] has returned without
    wiring, every event leaves the instance without observer and listeners. *)
Lemma dispatch_never_wires (r : HonestLevy.Runtime) (e : Event) :
  unwiredHL r -> HonestLevy.awaitingTitles r = false ->
  unwiredHL (HonestLevy.dispatch r e)
  /\ HonestLevy.awaitingTitles (HonestLevy.dispatch r e) = false.
Proof.
  intros Hu Ha.
  destruct (fromPage e) eqn:He.
  - destruct (dispatch_unwired r e Hu He) as (Hu' & _ & Ha'). split; congruence.
  - destruct e; try discriminate; simpl.
    + rewrite Ha. now split.
    + destruct (sameWiring_onChanged changes namespace r) as (A1 & A2 & A3 & A4 & A5 & A6).
      destruct Hu as (U1 & U2 & U3 & U4 & U5).
      split; [repeat split |]; congruence.
Qed.

Lemma run_never_wires (events : list Event) :
  forall r, unwiredHL r -> HonestLevy.awaitingTitles r = false ->
            unwiredHL (HonestLevy.run r events).
Proof.
  unfold HonestLevy.run.
  induction events as [| e events IH]; intros r Hu Ha; simpl; [exact Hu |].
  destruct (dispatch_never_wires r e Hu Ha) as [Hu' Ha']. now apply IH.
Qed.

End SchedulerFacts.

(** * More facts about the page tree and the two engines *)
Module MoreDomFacts.
Import Dom Common DomFacts.

Lemma querySelector_below (doc : node) (c : path) (sel : selector) (p : path) :
  querySelector doc c sel = Some p -> below c p = true.
Proof.
  unfold querySelector, querySelectorAllIn. intros H.
  apply head_elem, list_elem_of_filter in H as [H _]. exact H.
Qed.

Lemma firstElement_below (doc : node) (c : path) (sels : list selector) (p : path) :
  firstElement doc c sels = Some p -> below c p = true.
Proof.
  induction sels as [| sel sels IH]; [discriminate |]. simpl.
  destruct (querySelector doc c sel) as [q |] eqn:E; [| exact IH].
  intros [= <-]. now apply (querySelector_below doc c sel).
Qed.

Lemma below_prefix (c p : path) : below c p = true -> c `prefix_of` p /\ p <> c.
Proof.
  unfold below. intros H. apply andb_true_iff in H as [H1 H2].
  apply bool_decide_eq_true_1 in H1. apply negb_true_iff, bool_decide_eq_false_1 in H2.
  now split.
Qed.

(** A rewrite at [t] is not seen from a place that is neither above nor
    below [t]. *)
Lemma nodeAt_alterAt_apart (f : node -> node) (t : path) :
  forall doc p,
    ~ t `prefix_of` p -> ~ p `prefix_of` t ->
    nodeAt (alterAt f doc t) p = nodeAt doc p.
Proof.
  induction t as [| i t IH]; intros doc p Ht Hp.
  - exfalso. apply Ht. apply prefix_nil.
  - destruct p as [| j p]; [exfalso; apply Hp; apply prefix_nil |].
    destruct doc as [s | tg a r ch]; [reflexivity |]. simpl.
    destruct (decide (i = j)) as [-> | Hij].
    + rewrite list_lookup_alter_eq. destruct (ch !! j) as [n |]; [simpl | reflexivity].
      apply IH.
      * intros H. apply Ht. now apply prefix_cons.
      * intros H. apply Hp. now apply prefix_cons.
    + now rewrite list_lookup_alter_ne.
Qed.

Lemma href_anchor (base : string) (n : node) (link : string) :
  href base n = Some link ->
  exists a r ch,
    n = Element "a" a r ch
    /\ link = match a !! "href" with
              | Some reference => Url.resolve base reference
              | None => ""
              end.
Proof.
  destruct n as [s | tg a r ch]; [discriminate |]. intros H.
  destruct (String.eqb_spec tg "a") as [-> | Hne].
  - injection H as <-. now exists a, r, ch.
  - exfalso. revert H. clear -Hne. unfold href.
    destruct tg as [| [[] [] [] [] [] [] [] []] [| ? ?]]; try discriminate.
    now contradict Hne.
Qed.

(** The link a walk over link selectors returns is the [href] property of
    the first match of one of them, an anchor inside the card that has the
    attribute. *)
Lemma firstHref_inside (base : string) (doc : node) (c : path) (sels : list selector)
    (link : string) :
  firstHref base doc c sels = Some link ->
  exists sel p a r ch reference,
    sel ∈ sels /\ querySelector doc c sel = Some p
    /\ below c p = true /\ nodeAt doc p = Some (Element "a" a r ch)
    /\ a !! "href" = Some reference
    /\ link = Url.resolve base reference /\ link <> "".
Proof.
  induction sels as [| sel sels IH]; [discriminate |]. simpl.
  assert (Hrest : firstHref base doc c sels = Some link ->
                  exists sel0 p a r ch reference,
                    sel0 ∈ sel :: sels /\ querySelector doc c sel0 = Some p
                    /\ below c p = true /\ nodeAt doc p = Some (Element "a" a r ch)
                    /\ a !! "href" = Some reference
                    /\ link = Url.resolve base reference /\ link <> "").
  { intros H. destruct (IH H) as (sel0 & p & a & r & ch & h & Hin & Hrest).
    exists sel0, p, a, r, ch, h. split; [now apply list_elem_of_further | exact Hrest]. }
  destruct (querySelector doc c sel) as [p |] eqn:E; simpl; [| exact Hrest].
  destruct (hrefAt base doc p) as [x |] eqn:Eh; simpl; [| exact Hrest].
  destruct x as [| ch0 x]; simpl; [exact Hrest |].
  intros [= <-]. unfold hrefAt in Eh.
  destruct (nodeAt doc p) as [n |] eqn:En; [| discriminate]. simpl in Eh.
  apply href_anchor in Eh as (a & r & ch & -> & Hl).
  destruct (a !! "href") as [reference |] eqn:Ea; [| discriminate Hl].
  exists sel, p, a, r, ch, reference.
  split; [apply list_elem_of_here |]. split; [exact E |].
  split; [now apply (querySelector_below doc c sel) |].
  split; [exact En |]. split; [exact Ea |]. split; [exact Hl |]. discriminate.
Qed.

End MoreDomFacts.

Module MoreEngineFacts.
Import Dom Common DomFacts Outcome MoreDomFacts.

Lemma nodeAt_replace_apart (doc : node) (t p : path) (text k1 v1 k2 v2 : string) :
  ~ t `prefix_of` p -> ~ p `prefix_of` t ->
  nodeAt (setAttributeAt (setAttributeAt (setTextContentAt doc t text) t k1 v1) t k2 v2) p
  = nodeAt doc p.
Proof.
  intros Ht Hp. unfold setAttributeAt, setTextContentAt.
  now rewrite !nodeAt_alterAt_apart.
Qed.

Lemma apart_from_card (c t p : path) :
  below c t = true -> ~ c `prefix_of` p -> ~ p `prefix_of` c ->
  ~ t `prefix_of` p /\ ~ p `prefix_of` t.
Proof.
  intros Hb Hcp Hpc. apply below_prefix in Hb as [Hct _]. split; intros H.
  - apply Hcp. now transitivity t.
  - destruct (prefix_weak_total c p t Hct H) as [H' | H']; tauto.
Qed.

End MoreEngineFacts.


(** * The scheduler: debouncing and navigation *)
Module DebounceFacts.
Import HonestLevy Outcome.

Lemma delete_fresh (T : gmap nat nat) (n : nat) :
  map_Forall (fun id _ => id < n) T -> delete n T = T.
Proof.
  intros H. apply delete_id. destruct (T !! n) as [d |] eqn:E; [| reflexivity].
  apply H in E. lia.
Qed.

Lemma clearTimeout_fresh (r : Runtime) (o : option nat) :
  timersFresh r -> map_Forall (fun id _ => id < nextTimer r) (timers (clearTimeout o r)).
Proof.
  intros H. destruct o as [i |]; simpl; [| exact H].
  intros id d Hl. apply lookup_delete_Some in Hl as [_ Hl]. now apply H in Hl.
Qed.

Lemma observerCallback_first (r : Runtime) (ms : list MutationRecord) :
  enabled (st r) = true -> shouldScan ms = true ->
  pendingScan r 0 (observerCallback ms r).
Proof.
  intros Hen Hs. unfold observerCallback. rewrite Hen, Hs. simpl.
  unfold pendingScan. simpl. rewrite Nat.add_0_r.
  destruct (honestLevyScanTimeout r); simpl; repeat split; reflexivity.
Qed.

Lemma observerCallback_next (r r' : Runtime) (k : nat) (ms : list MutationRecord) :
  timersFresh r -> enabled (st r) = true -> shouldScan ms = true ->
  pendingScan r k r' -> pendingScan r (S k) (observerCallback ms r').
Proof.
  intros Hf Hen Hs (Hst & Hc & Ho & Hn & Ht & HT).
  unfold observerCallback. rewrite Hst, Hen, Hs. simpl.
  unfold pendingScan. simpl. rewrite Ht. simpl. rewrite Hst, Hc, Ho, Hn, HT.
  rewrite delete_insert_eq.
  rewrite (delete_fresh _ (nextTimer r + k)).
  - replace (nextTimer r + S k) with (S (nextTimer r + k)) by lia. repeat split; reflexivity.
  - intros id d Hl. apply (clearTimeout_fresh r _ Hf) in Hl. lia.
Qed.

Lemma run_snoc (r : Runtime) (evs : list Event) (e : Event) :
  run r (evs ++ [e]) = dispatch (run r evs) e.
Proof. unfold run. now rewrite foldl_app. Qed.

Lemma observerCallback_idle (r : Runtime) (ms : list MutationRecord) :
  shouldScan ms = false -> observerCallback ms r = r.
Proof. intros Hs. unfold observerCallback. rewrite Hs. now destruct (negb _). Qed.

Lemma burst_pending (r : Runtime) (burst : list (list MutationRecord)) :
  timersFresh r -> observing r = true -> enabled (st r) = true ->
  afterBatches r (length (filter (fun ms => shouldScan ms = true) burst))
    (run r (Mutations <$> burst)).
Proof.
  intros Hf Ho Hen.
  induction burst as [| ms burst IH] using rev_ind; [reflexivity |].
  rewrite fmap_app, filter_app, length_app.
  change (Mutations <$> [ms]) with [Mutations ms]. rewrite run_snoc. cbn [dispatch].
  assert (Ho' : observing (run r (Mutations <$> burst)) = true).
  { destruct (length (filter _ burst)); simpl in IH; [now rewrite IH |].
    destruct IH as (_ & _ & -> & _). exact Ho. }
  rewrite Ho'. rewrite filter_cons, filter_nil.
  destruct (shouldScan ms) eqn:Hs.
  - rewrite decide_True by reflexivity. simpl length. rewrite Nat.add_1_r.
    destruct (length (filter _ burst)) as [| k]; simpl in IH |- *.
    + rewrite IH. now apply observerCallback_first.
    + now apply observerCallback_next.
  - rewrite decide_False by discriminate. simpl length. rewrite Nat.add_0_r.
    now rewrite observerCallback_idle.
Qed.

Lemma burst_then_timer (r : Runtime) (burst : list (list MutationRecord)) (k : nat) :
  timersFresh r -> observing r = true -> enabled (st r) = true ->
  length (filter (fun ms => shouldScan ms = true) burst) = S k ->
  scanPageCalls (run r (Mutations <$> burst)) = scanPageCalls r
  /\ scanPageCalls (dispatch (run r (Mutations <$> burst)) (TimerFired (nextTimer r + k)))
     = S (scanPageCalls r).
Proof.
  intros Hfresh Hobs Hen Hk.
  pose proof (burst_pending r burst Hfresh Hobs Hen) as H.
  rewrite Hk in H. destruct H as (_ & Hc & _ & _ & _ & HT).
  split; [exact Hc |].
  cbn [dispatch]. rewrite HT, lookup_insert_eq.
  unfold callScanPage. destruct (scanPage _) as [s' c]. simpl. now rewrite Hc.
Qed.

End DebounceFacts.

Module ScrollFacts.
Import HonestLevy Outcome DebounceFacts.

Lemma scrollCallback_first (r : Runtime) : pendingScroll r 0 (scrollCallback r).
Proof.
  unfold scrollCallback, pendingScroll. simpl. rewrite Nat.add_0_r.
  destruct (scrollTimeout r); simpl; repeat split; reflexivity.
Qed.

Lemma scrollCallback_next (r r' : Runtime) (k : nat) :
  timersFresh r -> pendingScroll r k r' -> pendingScroll r (S k) (scrollCallback r').
Proof.
  intros Hf (Hst & Hc & Ho & Hh & Hn & Ht & HT).
  unfold scrollCallback, pendingScroll. simpl. rewrite Ht. simpl.
  rewrite Hst, Hc, Ho, Hh, Hn, HT, delete_insert_eq.
  rewrite (delete_fresh _ (nextTimer r + k)).
  - replace (nextTimer r + S k) with (S (nextTimer r + k)) by lia. repeat split; reflexivity.
  - intros id d Hl. apply (clearTimeout_fresh r _ Hf) in Hl. lia.
Qed.

Lemma scrolls_pending (r : Runtime) (k : nat) :
  timersFresh r -> onScroll r = true ->
  pendingScroll r k (run r (replicate (S k) Scroll)).
Proof.
  intros Hf Ho. induction k as [| k IH].
  - simpl. rewrite Ho. apply scrollCallback_first.
  - replace (replicate (S (S k)) Scroll) with (replicate (S k) Scroll ++ [Scroll])%list
      by (now rewrite <- replicate_cons_app).
    rewrite run_snoc. cbn [dispatch].
    pose proof IH as (_ & _ & Ho' & _). rewrite Ho', Ho.
    now apply scrollCallback_next.
Qed.

End ScrollFacts.

Module NavigationFacts.
Import HonestLevy Outcome DebounceFacts.

Lemma navigationCallback_first (r : Runtime) : navigated r 1 (navigationCallback r).
Proof.
  unfold navigationCallback, navigated. simpl.
  split; [reflexivity |]. split; [reflexivity |]. split; [reflexivity |].
  split; [reflexivity |]. split; [lia |].
  intros j. case_bool_decide as Hj.
  - replace j with (nextTimer r) by lia. apply lookup_insert_eq.
  - rewrite lookup_insert_ne by lia. reflexivity.
Qed.

Lemma navigationCallback_next (r r' : Runtime) (k : nat) :
  navigated r (S k) r' -> navigated r (S (S k)) (navigationCallback r').
Proof.
  intros (Hst & Hc & Hy & Hp & Hn & HT).
  unfold navigationCallback, navigated. simpl. rewrite Hst, Hc, Hy, Hp, Hn.
  split; [reflexivity |]. split; [reflexivity |]. split; [reflexivity |].
  split; [reflexivity |]. split; [lia |].
  intros j. destruct (decide (j = nextTimer r + S k)) as [-> | Hne].
  - rewrite lookup_insert_eq. rewrite bool_decide_eq_true_2 by lia. reflexivity.
  - rewrite lookup_insert_ne by congruence. rewrite HT.
    repeat case_bool_decide; try reflexivity; lia.
Qed.

Lemma navigations (r : Runtime) (evs : list Event) (e : Event) :
  onYtNavigateFinish r = true -> onPopstate r = true ->
  forallb isNavigation (e :: evs) = true ->
  navigated r (S (length evs)) (run r (e :: evs)).
Proof.
  intros Hy Hp. induction evs as [| e' evs IH] using rev_ind; intros Hall.
  - simpl in Hall. destruct e; try discriminate Hall; simpl.
    + rewrite Hy. apply navigationCallback_first.
    + rewrite Hp. apply navigationCallback_first.
  - rewrite app_comm_cons, forallb_app in Hall. apply andb_true_iff in Hall as [Hall He'].
    specialize (IH Hall). rewrite app_comm_cons, run_snoc, length_app, Nat.add_1_r.
    pose proof IH as (_ & _ & Hy' & Hp' & _).
    simpl in He'. destruct e'; try discriminate He'; cbn [dispatch].
    + rewrite Hy', Hy. now apply navigationCallback_next.
    + rewrite Hp', Hp. now apply navigationCallback_next.
Qed.

Lemma fire_all (k : nat) :
  forall (n0 : nat) (r : Runtime),
    (forall j, n0 <= j < n0 + k -> is_Some (timers r !! j)) ->
    scanPageCalls (run r (TimerFired <$> seq n0 k)) = (scanPageCalls r + k)%nat.
Proof.
  induction k as [| k IH]; intros n0 r H; [simpl; lia |].
  simpl. destruct (H n0) as [d Hd]; [lia |]. rewrite Hd.
  fold (run (callScanPage (setTimers (delete n0 (timers r)) r)).1 (TimerFired <$> seq (S n0) k)).
  rewrite IH.
  - unfold callScanPage. destruct (scanPage _). simpl. lia.
  - intros j Hj. unfold callScanPage. destruct (scanPage _). simpl.
    rewrite lookup_delete_ne by lia. apply H. lia.
Qed.

End NavigationFacts.


(** * What a scan counts and what it reports *)
Module AccountFacts.
Import Dom Common Outcome.

Lemma reportedGC_refl (s : GothamClean.State) : reportedGC s s 0 0.
Proof. unfold reportedGC. rewrite Nat.add_0_r. now repeat split. Qed.

Lemma increments_add (a b : nat) (l : list Message) :
  (increments a ++ increments b ++ l)%list = (increments (b + a) ++ l)%list.
Proof.
  unfold increments. rewrite app_assoc, <- replicate_add. f_equal. f_equal. lia.
Qed.

Lemma reportedGC_trans (s1 s2 s3 : GothamClean.State) (k1 w1 k2 w2 : nat) :
  reportedGC s1 s2 k1 w1 -> reportedGC s2 s3 k2 w2 ->
  reportedGC s1 s3 (k1 + k2) (w1 + w2).
Proof.
  intros (Hc1 & Hs1 & Ht1 & He1 & Hl1 & Hi1) (Hc2 & Hs2 & Ht2 & He2 & Hl2 & Hi2).
  unfold reportedGC. rewrite Hc2, Hc1, Hs2, Hs1, Ht2, Ht1, He2, He1, Hl2, Hl1, Hi2, Hi1.
  split; [lia |]. split; [| now repeat split].
  rewrite increments_add. f_equal. f_equal. lia.
Qed.

Lemma GC_processVideoCard_reported (c : path) (s : GothamClean.State) :
  (GothamClean.processVideoCard c s).2 = Js.Normal
  /\ exists k, reportedGC s (GothamClean.processVideoCard c s).1 k 0.
Proof.
  destruct (EngineFacts.GC_processVideoCard_cases c s)
    as [E | (vid & t & _ & _ & _ & _ & _ & _ & R & N)].
  - rewrite E. split; [reflexivity |]. exists 0. apply reportedGC_refl.
  - split; [exact N |]. exists 1.
    destruct R as (_ & _ & Hn & Hs & Ht & He & Hl & Hi).
    unfold reportedGC. rewrite Hn, Hs, Ht, He, Hl, Hi. split; [lia |]. now repeat split.
Qed.

Lemma GC_forEachCard_reported (cs : list path) :
  forall s, (GothamClean.forEachCard cs s).2 = Js.Normal
            /\ exists k, reportedGC s (GothamClean.forEachCard cs s).1 k 0.
Proof.
  induction cs as [| c cs IH]; intros s; simpl.
  - split; [reflexivity |]. exists 0. apply reportedGC_refl.
  - destruct (GC_processVideoCard_reported c s) as [N (k1 & R1)].
    destruct (GothamClean.processVideoCard c s) as [s1 c1]. simpl in N, R1. subst c1.
    destruct (IH s1) as [N2 (k2 & R2)]. split; [exact N2 |].
    exists (k1 + k2)%nat. apply (reportedGC_trans _ _ _ _ 0 _ 0 R1 R2).
Qed.

Lemma GC_scanContainers_reported (sels : list selector) :
  forall s, (GothamClean.scanContainers sels s).2 = Js.Normal
            /\ exists k, reportedGC s (GothamClean.scanContainers sels s).1 k 0.
Proof.
  induction sels as [| sel sels IH]; intros s; simpl.
  - split; [reflexivity |]. exists 0. apply reportedGC_refl.
  - destruct (GC_forEachCard_reported
                (querySelectorAll (GothamClean.document s) sel) s) as [N (k1 & R1)].
    destruct (GothamClean.forEachCard _ s) as [s1 c1]. simpl in N, R1. subst c1.
    destruct (IH s1) as [N2 (k2 & R2)]. split; [exact N2 |].
    exists (k1 + k2)%nat. apply (reportedGC_trans _ _ _ _ 0 _ 0 R1 R2).
Qed.

Lemma GC_watchTitleLoop_reported (sels : list selector) (td : Cache.value) :
  forall s, exists w, w <= 1 /\ reportedGC s (GothamClean.watchTitleLoop sels td s) 0 w.
Proof.
  induction sels as [| sel sels IH]; intros s; simpl.
  - exists 0. split; [lia | apply reportedGC_refl].
  - destruct (querySelectorDoc (GothamClean.document s) sel) as [t |]; [| apply IH].
    destruct (Js.truthy _); [apply IH |].
    case_bool_decide.
    + exists 0. split; [lia | apply reportedGC_refl].
    + exists 1. split; [lia |]. unfold reportedGC. simpl. split; [lia |]. now repeat split.
Qed.

(** What the watch step of GothamClean does: nothing, or the replacement at
    a watch-title element that carried no flag, reported and not counted. *)
Lemma GC_watchTitleLoop_cases (sels : list selector) (td : Cache.value) :
  forall s,
    GothamClean.watchTitleLoop sels td s = s
    \/ exists t,
         Js.truthy (getAttributeAt (GothamClean.document s) t "data-gothamclean-replaced")
         = false
         /\ getAttributeAt (GothamClean.document (GothamClean.watchTitleLoop sels td s)) t
              "data-gothamclean-replaced" = Some "true"
         /\ GothamClean.replacedThisSession (GothamClean.watchTitleLoop sels td s)
            = GothamClean.replacedThisSession s
         /\ GothamClean.sent (GothamClean.watchTitleLoop sels td s)
            = IncrementReplacedCount 1 :: GothamClean.sent s.
Proof.
  induction sels as [| sel sels IH]; intros s; simpl; [now left |].
  destruct (querySelectorDoc (GothamClean.document s) sel) as [t |] eqn:E; [| apply IH].
  destruct (Js.truthy _) eqn:Ef; [apply IH |].
  case_bool_decide; [now left | right].
  exists t. split; [exact Ef |]. simpl. split; [| now split].
  apply DomFacts.getAttributeAt_set, DomFacts.elementAt_setAttribute,
    DomFacts.elementAt_setTextContent.
  now apply (DomFacts.querySelectorDoc_elementAt _ sel).
Qed.

Lemma GC_processWatchPageTitle_cases (s : GothamClean.State) :
  GothamClean.processWatchPageTitle s = s
  \/ exists t,
       Js.truthy (getAttributeAt (GothamClean.document s) t "data-gothamclean-replaced")
       = false
       /\ getAttributeAt (GothamClean.document (GothamClean.processWatchPageTitle s)) t
            "data-gothamclean-replaced" = Some "true"
       /\ GothamClean.replacedThisSession (GothamClean.processWatchPageTitle s)
          = GothamClean.replacedThisSession s
       /\ GothamClean.sent (GothamClean.processWatchPageTitle s)
          = IncrementReplacedCount 1 :: GothamClean.sent s.
Proof.
  unfold GothamClean.processWatchPageTitle.
  destruct (extractVideoId (Some (GothamClean.location_href s))) as [vid |]; [| now left].
  destruct (negb _); [now left |]. apply GC_watchTitleLoop_cases.
Qed.

Lemma GC_processWatchPageTitle_reported (s : GothamClean.State) :
  exists w, w <= 1 /\ reportedGC s (GothamClean.processWatchPageTitle s) 0 w
            /\ (extractVideoId (Some (GothamClean.location_href s)) = None -> w = 0).
Proof.
  unfold GothamClean.processWatchPageTitle.
  destruct (extractVideoId (Some (GothamClean.location_href s))) as [vid |].
  - destruct (negb _).
    + exists 0. split; [lia |]. split; [apply reportedGC_refl | discriminate].
    + destruct (GC_watchTitleLoop_reported GothamClean.watchTitleSelectors
                  (Cache.get (GothamClean.titlesCache s) vid) s) as (w & Hw & R).
      exists w. split; [exact Hw |]. split; [exact R | discriminate].
  - exists 0. split; [lia |]. split; [apply reportedGC_refl | reflexivity].
Qed.

Lemma GC_scanPage_reported (s : GothamClean.State) :
  (GothamClean.scanPage s).2 = Js.Normal
  /\ exists k w, w <= 1 /\ reportedGC s (GothamClean.scanPage s).1 k w
                 /\ (extractVideoId (Some (GothamClean.location_href s)) = None -> w = 0).
Proof.
  unfold GothamClean.scanPage. destruct (negb _).
  - split; [reflexivity |]. exists 0, 0. split; [lia |]. split; [apply reportedGC_refl | auto].
  - destruct (GC_scanContainers_reported GothamClean.containerSelectors s) as [N (k & R)].
    destruct (GothamClean.scanContainers _ s) as [s1 c1]. simpl in N, R. subst c1. simpl.
    split; [reflexivity |].
    destruct (GC_processWatchPageTitle_reported s1) as (w & Hw & R2 & H0).
    exists k, w. split; [exact Hw |]. split.
    + pose proof (reportedGC_trans _ _ _ _ _ _ _ R R2) as R3.
      now rewrite Nat.add_0_r in R3.
    + destruct R as (_ & _ & _ & _ & Hl & _). rewrite <- Hl. exact H0.
Qed.

Lemma reportedHL_refl (s : HonestLevy.State) : reportedHL s (s, Js.Normal) 0.
Proof. unfold reportedHL. simpl. rewrite Nat.add_0_r. now repeat split. Qed.

Lemma reportedHL_trans (s1 s2 : HonestLevy.State) (res : HonestLevy.Result) (k1 k2 : nat) :
  reportedHL s1 (s2, Js.Normal) k1 -> reportedHL s2 res k2 ->
  reportedHL s1 res (k1 + k2).
Proof.
  intros (Hc1 & Hs1 & _ & Ht1 & He1 & Hl1 & Hi1) (Hc2 & Hs2 & Hk2 & Ht2 & He2 & Hl2 & Hi2).
  simpl in *. unfold reportedHL.
  rewrite Hc2, Hc1, Hs2, Hs1, Ht2, Ht1, He2, He1, Hl2, Hl1, Hi2, Hi1.
  split; [lia |]. split; [| split; [lia | now repeat split]].
  rewrite Nat.sub_0_r, increments_add. f_equal. f_equal. lia.
Qed.

Lemma HL_processVideoCard_reported (c : path) (s : HonestLevy.State) :
  exists k, reportedHL s (HonestLevy.processVideoCard c s) k.
Proof.
  destruct (EngineFacts.HL_processVideoCard_cases c s)
    as [E | (vid & t & _ & _ & _ & _ & _ & _ & R & N)].
  - rewrite E. exists 0. apply reportedHL_refl.
  - exists 1. destruct R as (_ & _ & Hn & Hs & Ht & He & Hl & Hi).
    unfold reportedHL. rewrite Hn, Hs, Ht, He, Hl, Hi, N.
    destruct (Cache.clean_title _); simpl; repeat split; try reflexivity; lia.
Qed.

Lemma HL_forEachCard_reported (cs : list path) :
  forall s, exists k, reportedHL s (HonestLevy.forEachCard cs s) k.
Proof.
  induction cs as [| c cs IH]; intros s; simpl.
  - exists 0. apply reportedHL_refl.
  - destruct (HL_processVideoCard_reported c s) as (k1 & R1).
    destruct (HonestLevy.processVideoCard c s) as [s1 [| e]].
    + destruct (IH s1) as (k2 & R2). exists (k1 + k2)%nat.
      exact (reportedHL_trans _ _ _ _ _ R1 R2).
    + now exists k1.
Qed.

Lemma HL_scanContainers_reported (sels : list selector) :
  forall s, exists k, reportedHL s (HonestLevy.scanContainers sels s) k.
Proof.
  induction sels as [| sel sels IH]; intros s; simpl.
  - exists 0. apply reportedHL_refl.
  - destruct (HL_forEachCard_reported
                (querySelectorAll (HonestLevy.document s) sel) s) as (k1 & R1).
    destruct (HonestLevy.forEachCard _ s) as [s1 [| e]].
    + destruct (IH s1) as (k2 & R2). exists (k1 + k2)%nat.
      exact (reportedHL_trans _ _ _ _ _ R1 R2).
    + now exists k1.
Qed.

Lemma HL_watchTitleLoop_reported (sels : list selector) (vid : string) (td : Cache.value) :
  forall s, exists w, w <= 1 /\ watchReportedHL s (HonestLevy.watchTitleLoop sels vid td s) w.
Proof.
  induction sels as [| sel sels IH]; intros s; simpl.
  - exists 0. split; [lia | now repeat split].
  - destruct (querySelectorDoc (HonestLevy.document s) sel) as [t |]; [| apply IH].
    case_bool_decide; [exists 0; split; [lia | now repeat split] |].
    case_bool_decide; [exists 0; split; [lia | now repeat split] |].
    exists 1. split; [lia | now repeat split].
Qed.

Lemma HL_processWatchPageTitle_reported (s : HonestLevy.State) :
  exists w, w <= 1 /\ watchReportedHL s (HonestLevy.processWatchPageTitle s) w
            /\ (extractVideoId (Some (HonestLevy.location_href s)) = None -> w = 0).
Proof.
  unfold HonestLevy.processWatchPageTitle.
  destruct (extractVideoId (Some (HonestLevy.location_href s))) as [vid |].
  - destruct (negb _).
    + exists 0. split; [lia |]. split; [now repeat split | discriminate].
    + destruct (HL_watchTitleLoop_reported HonestLevy.watchTitleSelectors vid
                  (Cache.get (HonestLevy.titlesCache s) vid) s) as (w & Hw & R).
      exists w. split; [exact Hw |]. split; [exact R | discriminate].
  - exists 0. split; [lia |]. split; [now repeat split | reflexivity].
Qed.

End AccountFacts.


(** * The background worker and the popup *)
Module WorkerFacts.
Import Background.

Lemma oneByOne_snoc (w : Worker) (counts : list nat) (c : nat) :
  oneByOne w (counts ++ [c])
  = setStorage (incrementCallback c (storage (oneByOne w counts))
                  (storage (oneByOne w counts))).1 (oneByOne w counts).
Proof. unfold oneByOne. now rewrite foldl_app. Qed.

Lemma overlapped_snoc (result : Storage) (w : Worker) (counts : list nat) (c : nat) :
  overlapped result w (counts ++ [c])
  = setStorage (incrementCallback c result (storage (overlapped result w counts))).1
      (overlapped result w counts).
Proof. unfold overlapped. now rewrite foldl_app. Qed.

Lemma sum_list_snoc (l : list nat) (c : nat) : sum_list (l ++ [c]) = (sum_list l + c)%nat.
Proof. induction l as [| x l IH]; simpl; lia. Qed.

Lemma oneByOne_sum (w : Worker) (counts : list nat) :
  default 0 (replacedCount (storage (oneByOne w counts)))
  = (default 0 (replacedCount (storage w)) + sum_list (countOrOne <$> counts))%nat
  /\ sameButCount (storage w) (storage (oneByOne w counts))
  /\ alarms (oneByOne w counts) = alarms w.
Proof.
  induction counts as [| c counts IH] using rev_ind.
  - simpl. split; [lia |]. now repeat split.
  - rewrite oneByOne_snoc. destruct IH as (Hc & (H1 & H2 & H3 & H4 & H5) & Ha). simpl.
    rewrite Hc, fmap_app. simpl fmap. rewrite sum_list_snoc. split; [lia |]. now repeat split.
Qed.

Lemma overlapped_frame (result : Storage) (w : Worker) (counts : list nat) :
  sameButCount (storage w) (storage (overlapped result w counts))
  /\ alarms (overlapped result w counts) = alarms w.
Proof.
  induction counts as [| c counts IH] using rev_ind.
  - now repeat split.
  - rewrite overlapped_snoc. destruct IH as ((H1 & H2 & H3 & H4 & H5) & Ha). simpl.
    now repeat split.
Qed.

Lemma fetch_consistent (fetched : Fetched) (now : Z) (s : Storage) :
  consistent s -> consistent (fetchAndCacheTitles fetched now s).1.
Proof.
  intros H. destruct fetched as [| [] [| | t]]; simpl; try exact H.
  unfold consistent. simpl. split; [reflexivity | eauto].
Qed.

Lemma step_consistent (w : Worker) (e : WorkerEvent) :
  consistent (storage w) -> consistent (storage (step w e)).
Proof.
  intros H. destruct e as [f n | name f n | f n l | m result f n | b]; simpl.
  - unfold onInstalled. simpl. apply fetch_consistent. exact H.
  - unfold onAlarm. destruct (String.eqb name ALARM_NAME); simpl; [| exact H].
    now apply fetch_consistent.
  - unfold onStartup. destruct (_ || _); simpl; [| exact H]. now apply fetch_consistent.
  - destruct m as [[| c] | |]; simpl; try exact H.
    destruct (fetchAndCacheTitles f n (storage w)) as [s' ok] eqn:E. simpl.
    change s' with (s', ok).1. rewrite <- E. now apply fetch_consistent.
  - exact H.
Qed.

Lemma run_consistent (events : list WorkerEvent) :
  forall w, consistent (storage w) -> consistent (storage (run w events)).
Proof.
  induction events as [| e events IH]; intros w H; [exact H |].
  simpl. apply IH. now apply step_consistent.
Qed.

Lemma fetch_fails (fetched : Fetched) (now : Z) (s : Storage) :
  fails fetched = true -> fetchAndCacheTitles fetched now s = (s, false).
Proof. destruct fetched as [| [] [| | t]]; simpl; congruence. Qed.

(** Only the settings and the count may differ. *)
Lemma step_keeps_cache (w : Worker) (e : WorkerEvent) :
  refreshFails e = true ->
  titles (storage (step w e)) = titles (storage w)
  /\ titleCount (storage (step w e)) = titleCount (storage w)
  /\ lastUpdated (storage (step w e)) = lastUpdated (storage w).
Proof.
  intros H. destruct e as [f n | name f n | f n l | m result f n | b]; simpl in H |- *.
  - unfold onInstalled. rewrite (fetch_fails f n _ H). now repeat split.
  - unfold onAlarm. destruct (String.eqb name ALARM_NAME); simpl in H |- *;
      [| now repeat split].
    rewrite (fetch_fails f n _ H). now repeat split.
  - unfold onStartup. destruct (_ || _); [| now repeat split].
    rewrite (fetch_fails f l _ H). now repeat split.
  - destruct m as [[| c] | |]; simpl; try now repeat split.
    rewrite (fetch_fails f n _ H). now repeat split.
  - now repeat split.
Qed.

Lemma run_keeps_cache (events : list WorkerEvent) :
  forall w, forallb refreshFails events = true ->
            titles (storage (run w events)) = titles (storage w)
            /\ titleCount (storage (run w events)) = titleCount (storage w)
            /\ lastUpdated (storage (run w events)) = lastUpdated (storage w).
Proof.
  induction events as [| e events IH]; intros w H; [now repeat split |].
  simpl in H. apply andb_true_iff in H as [He H].
  destruct (IH (step w e) H) as (H1 & H2 & H3).
  destruct (step_keeps_cache w e He) as (G1 & G2 & G3).
  change (run w (e :: events)) with (run (step w e) events).
  rewrite H1, H2, H3. now repeat split.
Qed.

Lemma HL_scanPage_settings (s : HonestLevy.State) :
  HonestLevy.titlesCache (HonestLevy.scanPage s).1 = HonestLevy.titlesCache s
  /\ HonestLevy.enabled (HonestLevy.scanPage s).1 = HonestLevy.enabled s.
Proof.
  unfold HonestLevy.scanPage. destruct (negb _); [now split |].
  destruct (AccountFacts.HL_scanContainers_reported HonestLevy.containerSelectors s)
    as (k & R).
  destruct (HonestLevy.scanContainers _ s) as [s1 [| e]]; simpl.
  - destruct R as (_ & _ & _ & Ht & He & _). simpl in Ht, He.
    destruct (AccountFacts.HL_processWatchPageTitle_reported s1)
      as (w & _ & (_ & _ & Ht2 & He2 & _) & _).
    rewrite Ht2, He2. now split.
  - destruct R as (_ & _ & _ & Ht & He & _). now split.
Qed.

Lemma incrementCounts_increments (n : nat) :
  incrementCounts (Outcome.increments n) = replicate n 1.
Proof.
  unfold incrementCounts, Outcome.increments.
  assert (Hrev : forall m (x : Message), rev (replicate m x) = replicate m x).
  { intros m x. induction m as [| m IH]; [reflexivity |]. simpl. rewrite IH.
    now rewrite <- replicate_cons_app. }
  rewrite Hrev. induction n as [| n IH]; [reflexivity |]. simpl. f_equal. exact IH.
Qed.

Lemma sum_list_ones (n : nat) : sum_list (countOrOne <$> replicate n 1) = n.
Proof. induction n as [| n IH]; [reflexivity |]. simpl. f_equal. exact IH. Qed.

End WorkerFacts.


(** * Channel attribution *)
Module ChannelFacts.
Import Dom Common Outcome DomFacts MoreDomFacts FrameFacts.

Lemma below_trans (a b c : path) : below a b = true -> below b c = true -> below a c = true.
Proof.
  intros H1 H2. apply below_prefix in H1 as [P1 N1]. apply below_prefix in H2 as [P2 N2].
  unfold below. apply andb_true_iff. split.
  - apply bool_decide_eq_true_2. now transitivity b.
  - apply negb_true_iff, bool_decide_eq_false_2. intros ->.
    apply N1. now apply (anti_symm prefix).
Qed.

Lemma heads_nodeAt (q : path) :
  forall (n : node) (here : path) t a r ch,
    nodeAt n q = Some (Element t a r ch) ->
    ((here ++ q)%list, {| h_name := t; h_attrs := a |}) ∈ heads here n.
Proof.
  induction q as [| i q IH]; intros n here t a r ch H.
  - simpl in H. injection H as ->. rewrite app_nil_r. simpl. apply list_elem_of_here.
  - destruct n as [s | tg ag rg chg]; [discriminate |]. simpl in H.
    destruct (chg !! i) as [child |] eqn:E; [| discriminate].
    simpl. apply list_elem_of_further.
    apply (concatMapi_intro _ chg _ 0 i child E). simpl.
    replace (here ++ i :: q)%list with ((here ++ [i]) ++ q)%list
      by now rewrite <- app_assoc.
    now apply (IH child (here ++ [i])%list t a r ch).
Qed.

Lemma hrefAt_anchor (base : string) (doc : node) (p : path) (a : gmap string string) r ch
    (h : string) :
  nodeAt doc p = Some (Element "a" a r ch) -> a !! "href" = Some h ->
  hrefAt base doc p = Some (Url.resolve base h).
Proof. intros Hn Ha. unfold hrefAt. rewrite Hn. simpl. now rewrite Ha. Qed.

Lemma link_in_card (doc : node) (c p : path) (a : gmap string string) r ch (h : string) :
  below c p = true -> nodeAt doc p = Some (Element "a" a r ch) -> a !! "href" = Some h ->
  p ∈ querySelectorAllIn doc c [withAttr "href" (withName "a" any)].
Proof.
  intros Hb Hn Ha. unfold querySelectorAllIn. apply list_elem_of_filter. split; [exact Hb |].
  rewrite querySelectorAll_single. unfold select. apply list_elem_of_fmap.
  exists (p, {| h_name := "a"; h_attrs := a |}). split; [reflexivity |].
  apply list_elem_of_filter. split.
  - simpl. unfold matchesCompound. simpl. rewrite Ha.
    rewrite bool_decide_eq_true_2 by eauto. reflexivity.
  - exact (heads_nodeAt p doc [] "a" a r ch Hn).
Qed.

Lemma orElse_source (a b : option string) (h : string) :
  default "" (Js.orElse (Js.orElse a b) (Some "")) = h -> h <> "" ->
  a = Some h \/ b = Some h.
Proof.
  destruct a as [[| c a] |], b as [[| c' b] |]; unfold Js.orElse, Js.truthy;
    cbn [default]; intros <- Hne; auto; now contradict Hne.
Qed.

Lemma includes_nonempty (h needle : string) :
  needle <> "" -> Js.includes h needle = true -> h <> "".
Proof. intros Hn Hi ->. destruct needle; [now contradict Hn | discriminate Hi]. Qed.

Lemma channelLink_sound (base : string) (doc : node) (c p : path) (a : gmap string string)
    r ch (reference : string) :
  below c p = true -> nodeAt doc p = Some (Element "a" a r ch) ->
  a !! "href" = Some reference ->
  Js.includes (Url.resolve base reference) GOTHAMCHESS_HANDLE = true
  \/ Js.includes (Url.resolve base reference) GOTHAMCHESS_CHANNEL_ID = true
  \/ Js.includes (Url.resolve base reference) "/c/GothamChess" = true ->
  fragmentSaysGothamChess base doc c = true.
Proof.
  intros Hb Hn Ha Hinc. unfold fragmentSaysGothamChess.
  set (h := Url.resolve base reference) in *.
  destruct (existsb _ channelSelectors); [reflexivity |].
  apply existsb_exists. exists p. split.
  - apply list_elem_of_In. now apply (link_in_card doc c p a r ch reference).
  - unfold channelLinkMatches. rewrite (hrefAt_anchor base doc p a r ch reference Hn Ha).
    fold h.
    assert (Hh : h <> "").
    { destruct Hinc as [H | [H | H]]; revert H; now apply includes_nonempty. }
    replace (default "" (Js.orElse (Some h) (Some ""))) with h
      by (destruct h; [now contradict Hh | reflexivity]).
    destruct Hinc as [H | [H | H]]; rewrite H; now rewrite ?orb_true_r.
Qed.

Lemma channelElement_evidence (base : string) (doc : node) (c ce : path) :
  below c ce = true -> elementAt doc ce -> channelElementMatches base doc ce = true ->
  namesChannel base doc c.
Proof.
  intros Hb Hel Hm. unfold channelElementMatches in Hm.
  set (anchor := querySelector doc ce [withName "a" any]) in Hm.
  set (h := default "" (Js.orElse (Js.orElse (hrefAt base doc ce) (anchor ≫= hrefAt base doc))
                          (Some ""))) in Hm.
  assert (Hsrc : h <> "" -> exists p, below c p = true /\ elementAt doc p
                                      /\ hrefAt base doc p = Some h).
  { intros Hne. destruct (orElse_source _ _ h eq_refl Hne) as [E | E].
    - exists ce. now repeat split.
    - subst anchor. destruct (querySelector doc ce [withName "a" any]) as [q |] eqn:Eq;
        [| discriminate E]. exists q. split; [| split; [| exact E]].
      + apply (below_trans c ce q Hb). now apply (querySelector_below doc ce [withName "a" any]).
      + now apply (querySelector_elementAt doc ce [withName "a" any]). }
  clearbody h. clear anchor.
  apply orb_true_iff in Hm as [Hm | Hm]; [apply orb_true_iff in Hm as [Hm | Hm] |].
  - apply existsb_exists in Hm as (name & Hin & Hinc).
    exists ce. split; [exact Hb |]. split; [exact Hel |]. left.
    exists name. split; [now apply list_elem_of_In | exact Hinc].
  - destruct Hsrc as (p & Hp & Hpel & Hph);
      [revert Hm; now apply includes_nonempty |].
    exists p. split; [exact Hp |]. split; [exact Hpel |]. right. exists h. auto.
  - destruct Hsrc as (p & Hp & Hpel & Hph);
      [revert Hm; now apply includes_nonempty |].
    exists p. split; [exact Hp |]. split; [exact Hpel |]. right. exists h. auto.
Qed.

Lemma fragment_evidence (base : string) (doc : node) (c : path) :
  fragmentSaysGothamChess base doc c = true -> namesChannel base doc c.
Proof.
  unfold fragmentSaysGothamChess.
  destruct (existsb _ channelSelectors) eqn:E.
  - intros _. apply existsb_exists in E as (sel & _ & Hsel).
    destruct (querySelector doc c sel) as [ce |] eqn:Eq; [| discriminate].
    apply (channelElement_evidence base doc c ce).
    + now apply (querySelector_below doc c sel).
    + now apply (querySelector_elementAt doc c sel).
    + exact Hsel.
  - intros H. apply existsb_exists in H as (p & Hin & Hm).
    apply list_elem_of_In in Hin. unfold querySelectorAllIn in Hin.
    apply list_elem_of_filter in Hin as [Hb Hin].
    apply querySelectorAll_elementAt in Hin.
    unfold channelLinkMatches in Hm.
    set (h := default "" (Js.orElse (hrefAt base doc p) (Some ""))) in Hm.
    assert (Hsrc : h <> "" -> hrefAt base doc p = Some h).
    { subst h. destruct (hrefAt base doc p) as [[| c0 x] |]; unfold Js.orElse, Js.truthy;
        cbn [default]; intros Hne; try reflexivity; now contradict Hne. }
    clearbody h.
    exists p. split; [exact Hb |]. split; [exact Hin |]. right. exists h.
    apply orb_true_iff in Hm as [Hm | Hm]; [apply orb_true_iff in Hm as [Hm | Hm] |];
      (split; [apply Hsrc; revert Hm; now apply includes_nonempty | auto]).
Qed.

End ChannelFacts.


(** * Cards that are apart do not interfere *)
Module IsolationFacts.
Import Dom Common Outcome DomFacts MoreDomFacts MoreEngineFacts FrameFacts.

Lemma matches_view (sel : selector) (e : entry) : matches sel e = matchesView sel (view e).
Proof. reflexivity. Qed.

Lemma querySelectorAllIn_inside (doc : node) (c : path) (sel : selector) :
  querySelectorAllIn doc c sel
  = (fun v => v.1.1) <$> filter (fun v => matchesView sel v = true) (inside c doc).
Proof.
  unfold querySelectorAllIn, querySelectorAll, inside.
  induction (allElements doc) as [| e l IH]; [reflexivity |].
  rewrite fmap_cons, !filter_cons. rewrite matches_view.
  change ((view e).1.1) with (e_path e).
  destruct (matchesView sel (view e)) eqn:Em, (below c (e_path e)) eqn:Eb.
  - rewrite decide_True by reflexivity. rewrite decide_True by reflexivity.
    rewrite fmap_cons, !filter_cons. simpl. rewrite Eb, Em.
    rewrite decide_True by reflexivity. rewrite decide_True by reflexivity.
    rewrite fmap_cons. simpl. f_equal. exact IH.
  - rewrite decide_True by reflexivity. rewrite decide_False by discriminate.
    rewrite fmap_cons, !filter_cons. simpl. rewrite Eb.
    rewrite decide_False by discriminate. exact IH.
  - rewrite decide_False by discriminate. rewrite decide_True by reflexivity.
    rewrite filter_cons. rewrite Em. rewrite decide_False by discriminate. exact IH.
  - rewrite decide_False by discriminate. rewrite decide_False by discriminate. exact IH.
Qed.

Lemma filter_none {A : Type} (P : A -> Prop) `{!forall x, Decision (P x)} (l : list A) :
  (forall x, x ∈ l -> ~ P x) -> filter P l = [].
Proof.
  induction l as [| x l IH]; intros Hall; [reflexivity |].
  rewrite filter_cons, decide_False by (apply Hall; apply list_elem_of_here).
  apply IH. intros y Hy. apply Hall. now apply list_elem_of_further.
Qed.

Lemma concatMapi_alter_ext {A B C : Type} (phi : list B -> list C)
    (F : nat -> A -> list B) (g : A -> A) (l : list A) :
  (forall l1 l2, phi (l1 ++ l2)%list = (phi l1 ++ phi l2)%list) ->
  forall i0 i,
    (forall x, l !! i = Some x -> phi (F (i0 + i)%nat (g x)) = phi (F (i0 + i)%nat x)) ->
    phi (concatMapi F i0 (alter g i l)) = phi (concatMapi F i0 l).
Proof.
  intros Hphi. induction l as [| c l IH]; intros i0 i Hx; [reflexivity |].
  destruct i as [| i]; simpl.
  - rewrite !Hphi. f_equal. specialize (Hx c eq_refl). now rewrite Nat.add_0_r in Hx.
  - rewrite !Hphi. f_equal. apply IH. intros x Hl.
    replace (S i0 + i)%nat with (i0 + S i)%nat by lia. now apply Hx.
Qed.

Lemma subtree_path_prefix (n : node) (anc : list ehead) (here : path) (e : entry) :
  e ∈ subtree anc here n -> here `prefix_of` e_path e.
Proof.
  intros H. apply subtree_spec in H as (q & -> & _). now apply prefix_app_r.
Qed.

Lemma below_apart_false (c here p : path) :
  apart here c -> here `prefix_of` p -> below c p = false.
Proof.
  intros [H1 H2] Hp. destruct (below c p) eqn:E; [exfalso | reflexivity].
  apply below_prefix in E as [Hc _].
  destruct (prefix_weak_total here c p Hp Hc); tauto.
Qed.

(** A rewrite at a place apart from [c] leaves what is inside [c], with its
    ancestors, as it was. *)
Lemma views_apart (f : node -> node) (c : path) (t : path) :
  forall (doc : node) (here : path) (anc : list ehead),
    apart (here ++ t)%list c ->
    filter (fun v => below c v.1.1 = true) (view <$> subtree anc here (alterAt f doc t))
    = filter (fun v => below c v.1.1 = true) (view <$> subtree anc here doc).
Proof.
  induction t as [| i t IH]; intros doc here anc Hap.
  - rewrite app_nil_r in Hap. simpl.
    rewrite !filter_none; [reflexivity | |].
    + intros v Hv. apply list_elem_of_fmap in Hv as (e & -> & He).
      apply subtree_path_prefix in He. simpl.
      rewrite (below_apart_false c here _ Hap He). discriminate.
    + intros v Hv. apply list_elem_of_fmap in Hv as (e & -> & He).
      apply subtree_path_prefix in He. simpl.
      rewrite (below_apart_false c here _ Hap He). discriminate.
  - destruct doc as [s | tg a r ch]; [reflexivity |]. cbn [alterAt subtree].
    rewrite !fmap_cons, !filter_cons.
    cbn [view e_path e_ancestors e_node headOf fst snd].
    assert (Hrest :
      filter (fun v => below c v.1.1 = true)
        (view <$> concatMapi
           (fun j n => subtree ({| h_name := tg; h_attrs := a |} :: anc) (here ++ [j])%list n)
           0%nat (alter (fun n => alterAt f n t) i ch))
      = filter (fun v => below c v.1.1 = true)
          (view <$> concatMapi
             (fun j n => subtree ({| h_name := tg; h_attrs := a |} :: anc) (here ++ [j])%list n)
             0%nat ch)).
    { apply (concatMapi_alter_ext
               (fun l => filter (fun v => below c v.1.1 = true) (view <$> l))).
      - intros l1 l2. now rewrite fmap_app, filter_app.
      - intros x Hx. simpl. apply IH. now rewrite <- app_assoc. }
    rewrite Hrest. reflexivity.
Qed.

Lemma inside_alterAt_apart (f : node -> node) (c t : path) (doc : node) :
  apart t c -> inside c (alterAt f doc t) = inside c doc.
Proof. intros H. unfold inside, allElements. now apply (views_apart f c t doc [] []). Qed.

Lemma nodeAt_app (c q : path) :
  forall doc, nodeAt doc (c ++ q)%list = nodeAt doc c ≫= (fun n => nodeAt n q).
Proof.
  induction c as [| i c IH]; intros doc; [reflexivity |]. simpl.
  destruct doc as [s | tg a r ch]; [reflexivity |].
  destruct (ch !! i) as [n |]; [apply IH | reflexivity].
Qed.

Lemma nodeAt_alterAt_under (f : node -> node) (c q : path) :
  forall doc, nodeAt (alterAt f doc (c ++ q)%list) c
              = (fun n => alterAt f n q) <$> nodeAt doc c.
Proof.
  induction c as [| i c IH]; intros doc; [reflexivity |]. simpl.
  destruct doc as [s | tg a r ch]; [reflexivity |]. simpl.
  rewrite list_lookup_alter_eq. destruct (ch !! i) as [n |]; simpl; [apply IH | reflexivity].
Qed.

Lemma sameCard_refl (c : path) (doc : node) : sameCard c doc doc.
Proof. now split. Qed.

Lemma sameCard_alterAt (f : node -> node) (c t : path) (doc0 doc : node) :
  apart t c -> sameCard c doc0 doc -> sameCard c doc0 (alterAt f doc t).
Proof.
  intros Hap [Hn Hi]. split.
  - rewrite nodeAt_alterAt_apart; [exact Hn | apply Hap | apply Hap].
  - now rewrite inside_alterAt_apart.
Qed.

Lemma sameCard_querySelector (c : path) (doc doc' : node) (sel : selector) :
  sameCard c doc doc' -> querySelector doc' c sel = querySelector doc c sel.
Proof.
  intros [_ Hi]. unfold querySelector. now rewrite !querySelectorAllIn_inside, Hi.
Qed.

Lemma sameCard_nodeAt (c p : path) (doc doc' : node) :
  sameCard c doc doc' -> c `prefix_of` p -> nodeAt doc' p = nodeAt doc p.
Proof. intros [Hn _] [q ->]. now rewrite !nodeAt_app, Hn. Qed.

Lemma sameCard_firstElement (c : path) (doc doc' : node) (sels : list selector) :
  sameCard c doc doc' -> firstElement doc' c sels = firstElement doc c sels.
Proof.
  intros H. induction sels as [| sel sels IH]; [reflexivity |]. simpl.
  now rewrite (sameCard_querySelector c doc doc' sel H), IH.
Qed.

Lemma sameCard_firstHref (base : string) (c : path) (doc doc' : node)
    (sels : list selector) :
  sameCard c doc doc' -> firstHref base doc' c sels = firstHref base doc c sels.
Proof.
  intros H. induction sels as [| sel sels IH]; [reflexivity |]. simpl.
  rewrite (sameCard_querySelector c doc doc' sel H), IH.
  destruct (querySelector doc c sel) as [p |] eqn:E; [| reflexivity]. simpl.
  unfold hrefAt. rewrite (sameCard_nodeAt c p doc doc' H); [reflexivity |].
  apply querySelector_below, below_prefix in E. apply E.
Qed.

Lemma nodeAt_replace_under (doc : node) (c q : path) (text k1 v1 k2 v2 : string) :
  nodeAt (setAttributeAt
            (setAttributeAt (setTextContentAt doc (c ++ q)%list text) (c ++ q)%list k1 v1)
            (c ++ q)%list k2 v2) c
  = (fun n => alterAt (replaceTitle text k1 v1 k2 v2) n q) <$> nodeAt doc c.
Proof. rewrite replace_as_alterAt. apply nodeAt_alterAt_under. Qed.

Lemma HL_counted_le (c : path) (s : HonestLevy.State) :
  HonestLevy.replacedThisSession (HonestLevy.processVideoCard c s).1
  = (HonestLevy.replacedThisSession s + counted c s)%nat.
Proof.
  unfold counted.
  destruct (EngineFacts.HL_processVideoCard_cases c s)
    as [E | (vid & t & _ & _ & _ & _ & _ & _ & (_ & _ & Hn & _) & _)].
  - rewrite E. simpl. lia.
  - rewrite Hn. lia.
Qed.

Lemma HL_mirror (c : path) (s0 s : HonestLevy.State) :
  sameReads c s0 s ->
  (HonestLevy.processVideoCard c s).2 = (HonestLevy.processVideoCard c s0).2
  /\ nodeAt (HonestLevy.document (HonestLevy.processVideoCard c s).1) c
     = nodeAt (HonestLevy.document (HonestLevy.processVideoCard c s0).1) c
  /\ HonestLevy.processedVideoIds (HonestLevy.processVideoCard c s).1 !! c
     = HonestLevy.processedVideoIds (HonestLevy.processVideoCard c s0).1 !! c
  /\ counted c s = counted c s0.
Proof.
  intros (Hsc & Hmem & Htc & Hih & Hloc).
  assert (Hid : (@Js.Normal = Js.Normal)
                /\ nodeAt (HonestLevy.document s) c = nodeAt (HonestLevy.document s0) c
                /\ HonestLevy.processedVideoIds s !! c = HonestLevy.processedVideoIds s0 !! c
                /\ (HonestLevy.replacedThisSession s - HonestLevy.replacedThisSession s
                    = HonestLevy.replacedThisSession s0 - HonestLevy.replacedThisSession s0)%nat).
  { split; [reflexivity |]. split; [apply Hsc |]. split; [exact Hmem | lia]. }
  unfold counted, HonestLevy.processVideoCard, findVideoLink.
  rewrite Hloc, (sameCard_firstHref _ c _ _ linkSelectors Hsc).
  destruct (extractVideoId
              (firstHref (HonestLevy.location_href s0) (HonestLevy.document s0) c
                 linkSelectors)) as [vid |];
    [| exact Hid].
  rewrite Hmem. case_bool_decide; [exact Hid |].
  rewrite Htc. destruct (negb (Cache.truthy _)); [exact Hid |].
  unfold HonestLevy.findTitleElement.
  rewrite (sameCard_firstElement c _ _ HonestLevy.titleSelectors Hsc).
  destruct (firstElement (HonestLevy.document s0) c HonestLevy.titleSelectors) as [t |] eqn:Et;
    [| exact Hid].
  assert (Hvis : HonestLevy.isElementVisible s c = HonestLevy.isElementVisible s0 c).
  { unfold HonestLevy.isElementVisible, rectAt. destruct Hsc as [Hn _]. now rewrite Hn, Hih. }
  rewrite Hvis. destruct (negb (HonestLevy.isElementVisible s0 c)); [exact Hid |].
  pose proof (firstElement_below _ _ _ _ Et) as Hb.
  pose proof (below_prefix _ _ Hb) as [[q Hq] _].
  assert (Htext : textContentAt (HonestLevy.document s) t
                  = textContentAt (HonestLevy.document s0) t).
  { unfold textContentAt. rewrite (sameCard_nodeAt c t _ _ Hsc); [reflexivity |].
    now exists q. }
  rewrite Htext. case_bool_decide; [exact Hid |].
  destruct (HonestLevy.logReplaced _); cbn [fst snd];
    (split; [reflexivity |]); cbn [HonestLevy.document HonestLevy.setDocument
      HonestLevy.setProcessedVideoIds HonestLevy.setReplacedThisSession HonestLevy.sendMessage
      HonestLevy.processedVideoIds HonestLevy.replacedThisSession];
    rewrite Hq, !nodeAt_replace_under, !lookup_insert_eq;
    destruct Hsc as [Hn _]; rewrite Hn; (split; [reflexivity |]); (split; [reflexivity | lia]).
Qed.

(** What a call does to the page: nothing, or the title replacement at an
    element inside the card. *)
Lemma HL_effect (c : path) (s : HonestLevy.State) :
  HonestLevy.processVideoCard c s = (s, Js.Normal)
  \/ exists vid t text orig,
       below c t = true
       /\ HonestLevy.document (HonestLevy.processVideoCard c s).1
          = alterAt (replaceTitle text "data-honestlevy-original" orig
                       "data-honestlevy-replaced" "true") (HonestLevy.document s) t
       /\ HonestLevy.processedVideoIds (HonestLevy.processVideoCard c s).1
          = <[c := vid]> (HonestLevy.processedVideoIds s)
       /\ HonestLevy.titlesCache (HonestLevy.processVideoCard c s).1 = HonestLevy.titlesCache s
       /\ HonestLevy.innerHeight (HonestLevy.processVideoCard c s).1 = HonestLevy.innerHeight s
       /\ HonestLevy.location_href (HonestLevy.processVideoCard c s).1
          = HonestLevy.location_href s.
Proof.
  destruct (EngineFacts.HL_processVideoCard_cases c s)
    as [E | (vid & t & _ & _ & _ & Ht & _ & _ & (Hd & Hm & _ & _ & Htc & _ & Hl & Hih) & _)];
    [now left | right].
  exists vid, t. eexists. eexists. split; [now apply firstElement_below in Ht |].
  rewrite Hd, replace_as_alterAt. now repeat split.
Qed.

Lemma apart_sym (a b : path) : apart a b -> apart b a.
Proof. intros [H1 H2]. now split. Qed.

Lemma apart_ne (a b : path) : apart a b -> a <> b.
Proof. intros [H _] ->. now apply H. Qed.

Lemma apart_below (c t p : path) : below c t = true -> apart c p -> apart t p.
Proof. intros Hb [H1 H2]. now apply (apart_from_card c t p). Qed.

Lemma HL_others_keep (c c' : path) (s0 s : HonestLevy.State) :
  apart c c' -> sameReads c' s0 s ->
  sameReads c' s0 (HonestLevy.processVideoCard c s).1.
Proof.
  intros Hap H.
  destruct (HL_effect c s) as [E | (vid & t & text & orig & Hb & Hd & Hm & Htc & Hih & Hl)].
  - now rewrite E.
  - destruct H as (Hsc & Hmem & Ht0 & Hi0 & Hl0). split; [| split; [| split; [| split]]].
    + rewrite Hd. apply sameCard_alterAt; [| exact Hsc]. now apply (apart_below c).
    + rewrite Hm, lookup_insert_ne; [exact Hmem | now apply apart_ne].
    + now rewrite Htc.
    + now rewrite Hih.
    + now rewrite Hl.
Qed.

Lemma HL_elsewhere (c p : path) (s : HonestLevy.State) :
  apart c p ->
  nodeAt (HonestLevy.document (HonestLevy.processVideoCard c s).1) p
  = nodeAt (HonestLevy.document s) p
  /\ HonestLevy.processedVideoIds (HonestLevy.processVideoCard c s).1 !! p
     = HonestLevy.processedVideoIds s !! p.
Proof.
  intros Hap. destruct (HL_effect c s) as [E | (vid & t & text & orig & Hb & Hd & Hm & _)].
  - now rewrite E.
  - rewrite Hd, Hm. split.
    + destruct (apart_below c t p Hb Hap). now apply nodeAt_alterAt_apart.
    + apply lookup_insert_ne. now apply apart_ne.
Qed.

Lemma independent_cons (c : path) (cs : list path) :
  independent (c :: cs) = true ->
  (forall c', c' ∈ cs -> apart c c') /\ independent cs = true.
Proof.
  simpl. intros H. apply andb_true_iff in H as [H1 H2]. split; [| exact H2].
  intros c' Hin. rewrite forallb_forall in H1.
  apply list_elem_of_In, H1, andb_true_iff in Hin as [Ha Hb].
  apply negb_true_iff, bool_decide_eq_false_1 in Ha.
  apply negb_true_iff, bool_decide_eq_false_1 in Hb. now split.
Qed.

Lemma independent_app (l1 l2 : list path) :
  independent (l1 ++ l2) = true ->
  independent l1 = true /\ independent l2 = true
  /\ forall a b, a ∈ l1 -> b ∈ l2 -> apart a b.
Proof.
  induction l1 as [| c l1 IH]; intros H.
  - split; [reflexivity |]. split; [exact H |]. intros a b Ha. now apply elem_of_nil in Ha.
  - rewrite <- app_comm_cons in H. apply independent_cons in H as [Hc H].
    destruct (IH H) as (I1 & I2 & I3). split; [| split; [exact I2 |]].
    + simpl. apply andb_true_iff. split; [| exact I1].
      apply forallb_forall. intros c' Hin. apply list_elem_of_In in Hin.
      destruct (Hc c') as [Ha Hb]; [apply elem_of_app; now left |].
      now rewrite !bool_decide_eq_false_2.
    + intros a b Ha Hb. apply elem_of_cons in Ha as [-> | Ha].
      * apply Hc. apply elem_of_app. now right.
      * now apply I3.
Qed.

Lemma independent_elem (cs : list path) :
  independent cs = true ->
  forall c c', c ∈ cs -> c' ∈ cs -> c `prefix_of` c' -> c = c'.
Proof.
  induction cs as [| x cs IH]; intros H c c' Hc Hc' Hp; [now apply elem_of_nil in Hc |].
  apply independent_cons in H as [Hx H].
  apply elem_of_cons in Hc as [-> | Hc]; apply elem_of_cons in Hc' as [-> | Hc'].
  - reflexivity.
  - destruct (Hx c' Hc') as [Ha _]. now contradict Ha.
  - destruct (Hx c Hc) as [_ Hb]. now contradict Hb.
  - now apply IH.
Qed.

Lemma cards_elem (doc : node) (sels : list selector) (sel : selector) (p : path) :
  sel ∈ sels -> p ∈ querySelectorAll doc sel -> p ∈ cards doc sels.
Proof.
  intros Hs Hp. unfold cards. apply list_elem_of_In, in_concat.
  exists (querySelectorAll doc sel). split; [| now apply list_elem_of_In].
  apply in_map. now apply list_elem_of_In.
Qed.

Lemma cards_cons (doc : node) (sel : selector) (sels : list selector) :
  cards doc (sel :: sels) = (querySelectorAll doc sel ++ cards doc sels)%list.
Proof. reflexivity. Qed.

Lemma select_intro (P : ehead -> bool) (l : list (path * ehead)) (p : path) (h : ehead) :
  (p, h) ∈ l -> P h = true -> p ∈ select P l.
Proof.
  intros Hin HP. unfold select. apply list_elem_of_fmap. exists (p, h).
  split; [reflexivity |]. apply list_elem_of_filter. now split.
Qed.

Lemma HL_keeps_cards (sels : list selector) (doc0 : node) (c : path) (s : HonestLevy.State) :
  Forall typeSelector sels -> independent (cards doc0 sels) = true ->
  c ∈ cards doc0 sels ->
  sameCards sels doc0 (HonestLevy.document s) ->
  sameCards sels doc0 (HonestLevy.document (HonestLevy.processVideoCard c s).1).
Proof.
  intros Hty Hind Hc HK.
  destruct (HL_effect c s) as [E | (vid & t & text & orig & Hb & Hd & _)]; [now rewrite E |].
  intros sel Hsel. rewrite <- (HK sel Hsel), Hd.
  rewrite Forall_forall in Hty. destruct (Hty sel Hsel) as [tag ->].
  rewrite !querySelectorAll_single. apply select_replaceTitle.
  - intros tg a. rewrite !matchesCompound_insert; [reflexivity | |];
      intros [H | [H | [H | H]]]; try discriminate H; now apply elem_of_nil in H.
  - intros p h Hin Hbelow. simpl in Hbelow.
    destruct (matchesCompound (withName tag any) h) eqn:Em; [exfalso | reflexivity].
    assert (Hp : p ∈ cards doc0 sels).
    { apply (cards_elem doc0 sels [withName tag any] p Hsel).
      rewrite <- (HK _ Hsel), querySelectorAll_single. now apply (select_intro _ _ p h). }
    pose proof (ChannelFacts.below_trans c t p Hb Hbelow) as Hcp.
    apply below_prefix in Hcp as [Hpre Hne].
    apply Hne. symmetry. now apply (independent_elem _ Hind c p).
Qed.

Lemma HL_forEachCard_isolated (sels : list selector) (s0 : HonestLevy.State) :
  Forall typeSelector sels ->
  independent (cards (HonestLevy.document s0) sels) = true ->
  forall (cs : list path) (s : HonestLevy.State),
    independent cs = true ->
    (forall c, c ∈ cs -> c ∈ cards (HonestLevy.document s0) sels) ->
    (forall c, c ∈ cs -> sameReads c s0 s) ->
    sameCards sels (HonestLevy.document s0) (HonestLevy.document s) ->
    (HonestLevy.forEachCard cs s).2 = Js.Normal ->
    walked s0 s (HonestLevy.forEachCard cs s).1 cs
    /\ sameCards sels (HonestLevy.document s0)
         (HonestLevy.document (HonestLevy.forEachCard cs s).1).
Proof.
  intros Hty Hind. induction cs as [| c cs IH]; intros s Hcs Hsub Hreads HK Hok.
  - simpl. split; [| exact HK]. unfold walked. simpl. rewrite Nat.add_0_r.
    split; [intros c Hc; now apply elem_of_nil in Hc |].
    split; [intros p _; now split |]. split; [intros c' _ Hr; exact Hr | reflexivity].
  - apply independent_cons in Hcs as [Hc Hcs].
    assert (Hcin : c ∈ cards (HonestLevy.document s0) sels) by (apply Hsub; apply list_elem_of_here).
    assert (Hmir := HL_mirror c s0 s (Hreads c (list_elem_of_here _ _))).
    destruct Hmir as (M1 & M2 & M3 & M4).
    pose proof (HL_keeps_cards sels _ c s Hty Hind Hcin HK) as HK1.
    pose proof (HL_counted_le c s) as Hcount.
    assert (Hothers : forall c', c' ∈ cs ->
                                 sameReads c' s0 (HonestLevy.processVideoCard c s).1).
    { intros c' Hc'. apply HL_others_keep; [now apply Hc |].
      apply Hreads. now apply list_elem_of_further. }
    pose proof (fun p => HL_elsewhere c p s) as Helse.
    pose proof (fun c' => HL_others_keep c c' s0 s) as Hkeep.
    simpl in Hok |- *.
    destruct (HonestLevy.processVideoCard c s) as [s1 [| e]]; [| discriminate Hok].
    cbn [fst snd] in *.
    destruct (IH s1 Hcs (fun x Hx => Hsub x (list_elem_of_further _ _ _ Hx)) Hothers HK1 Hok)
      as ((W1 & W2 & W3 & W4) & HK2).
    split; [| exact HK2]. split; [| split; [| split]].
    + intros x Hx. apply elem_of_cons in Hx as [-> | Hx]; [| now apply W1].
      destruct (W2 c) as [N1 N2]; [intros y Hy; apply apart_sym; now apply Hc |].
      rewrite N1, N2. now split.
    + intros p Hp. destruct (W2 p) as [N1 N2];
        [intros y Hy; apply Hp; now apply list_elem_of_further |].
      destruct (Helse p) as [E1 E2]; [apply Hp; apply list_elem_of_here |].
      rewrite N1, N2. now split.
    + intros c' Hc' Hr. apply W3; [intros y Hy; apply Hc'; now apply list_elem_of_further |].
      apply Hkeep; [apply Hc'; apply list_elem_of_here | exact Hr].
    + rewrite W4, Hcount, M4, fmap_cons.
      change (sum_list (counted c s0 :: ((fun c => counted c s0) <$> cs)))
        with (counted c s0 + sum_list ((fun c => counted c s0) <$> cs))%nat. lia.
Qed.

Lemma HL_scanContainers_isolated (sels : list selector) (s0 : HonestLevy.State) :
  Forall typeSelector sels ->
  independent (cards (HonestLevy.document s0) sels) = true ->
  forall (rest : list selector) (s : HonestLevy.State),
    (forall sel, sel ∈ rest -> sel ∈ sels) ->
    independent (cards (HonestLevy.document s0) rest) = true ->
    (forall c, c ∈ cards (HonestLevy.document s0) rest -> sameReads c s0 s) ->
    sameCards sels (HonestLevy.document s0) (HonestLevy.document s) ->
    (HonestLevy.scanContainers rest s).2 = Js.Normal ->
    walked s0 s (HonestLevy.scanContainers rest s).1 (cards (HonestLevy.document s0) rest).
Proof.
  intros Hty Hind. induction rest as [| sel rest IH]; intros s Hsub Hrest Hreads HK Hok.
  - simpl. unfold walked. simpl. rewrite Nat.add_0_r.
    split; [intros c Hc; now apply elem_of_nil in Hc |].
    split; [intros p _; now split |]. split; [intros c' _ Hr; exact Hr | reflexivity].
  - rewrite cards_cons in Hrest, Hreads |- *.
    apply independent_app in Hrest as (I1 & I2 & I3).
    assert (Hsel : sel ∈ sels) by (apply Hsub; apply list_elem_of_here).
    simpl in Hok |- *. rewrite (HK sel Hsel) in Hok |- *.
    destruct (HL_forEachCard_isolated sels s0 Hty Hind
                (querySelectorAll (HonestLevy.document s0) sel) s I1) as [Hw HK1].
    + intros c Hc. now apply (cards_elem _ sels sel).
    + intros c Hc. apply Hreads. apply elem_of_app. now left.
    + exact HK.
    + destruct (HonestLevy.forEachCard _ s) as [s1 [| e]]; [reflexivity | discriminate Hok].
    + destruct (HonestLevy.forEachCard _ s) as [s1 [| e]]; [| discriminate Hok].
      cbn [fst snd] in *. destruct Hw as (W1 & W2 & W3 & W4).
      assert (Hreads1 : forall c, c ∈ cards (HonestLevy.document s0) rest -> sameReads c s0 s1).
      { intros c Hc. apply W3; [intros x Hx; now apply I3 |].
        apply Hreads. apply elem_of_app. now right. }
      destruct (IH s1 (fun x Hx => Hsub x (list_elem_of_further _ _ _ Hx)) I2 Hreads1 HK1 Hok)
        as (V1 & V2 & V3 & V4).
      split; [| split; [| split]].
      * intros c Hc. apply elem_of_app in Hc as [Hc | Hc]; [| now apply V1].
        destruct (V2 c) as [N1 N2]; [intros y Hy; apply apart_sym; now apply I3 |].
        destruct (W1 c Hc) as [N3 N4]. rewrite N1, N2. now split.
      * intros p Hp.
        destruct (V2 p) as [N1 N2]; [intros y Hy; apply Hp, elem_of_app; now right |].
        destruct (W2 p) as [N3 N4]; [intros y Hy; apply Hp, elem_of_app; now left |].
        rewrite N1, N2. now split.
      * intros c' Hc' Hr.
        apply V3; [intros y Hy; apply Hc', elem_of_app; now right |].
        apply W3; [intros y Hy; apply Hc', elem_of_app; now left | exact Hr].
      * rewrite V4, W4, fmap_app.
        assert (Hsum : forall l1 l2 : list nat, sum_list (l1 ++ l2) = (sum_list l1 + sum_list l2)%nat).
        { intros l1 l2. induction l1 as [| x l1 IHl]; simpl; lia. }
        rewrite Hsum. lia.
Qed.

Lemma sameReads_refl (c : path) (s : HonestLevy.State) : sameReads c s s.
Proof. split; [apply sameCard_refl | now repeat split]. Qed.

Lemma HL_scanPage_isolated (s : HonestLevy.State) :
  HonestLevy.enabled s = true ->
  independent (cards (HonestLevy.document s) HonestLevy.containerSelectors) = true ->
  noWatchPage s = true ->
  (HonestLevy.scanPage s).2 = Js.Normal ->
  walked s s (HonestLevy.scanPage s).1 (cards (HonestLevy.document s) HonestLevy.containerSelectors).
Proof.
  intros Hen Hind Hwatch Hok. unfold HonestLevy.scanPage in Hok |- *.
  rewrite Hen in Hok |- *. cbn [negb] in Hok |- *.
  pose proof (HL_scanContainers_isolated HonestLevy.containerSelectors s
                EngineFacts.HL_containerSelectors_types Hind
                HonestLevy.containerSelectors s (fun x Hx => Hx) Hind
                (fun c _ => sameReads_refl c s) (fun sel _ => eq_refl)) as Hw.
  destruct (AccountFacts.HL_scanContainers_reported HonestLevy.containerSelectors s) as (k & R).
  destruct (HonestLevy.scanContainers HonestLevy.containerSelectors s) as [s1 [| e]];
    [| discriminate Hok].
  cbn [fst snd] in *. specialize (Hw eq_refl).
  destruct R as (_ & _ & _ & Htc & _ & Hl & _). cbn [fst] in Htc, Hl.
  assert (Hnow : HonestLevy.processWatchPageTitle s1 = s1).
  { unfold HonestLevy.processWatchPageTitle. rewrite Hl, Htc.
    unfold noWatchPage in Hwatch.
    destruct (extractVideoId (Some (HonestLevy.location_href s))) as [vid |]; [| reflexivity].
    now rewrite Hwatch. }
  now rewrite Hnow.
Qed.

Lemma HL_scan_retitles
    (s : HonestLevy.State) (c t : path) (vid ct : string) (record : Cache.TitleData)
    (Hen : HonestLevy.enabled s = true)
    (Hind : independent (cards (HonestLevy.document s) HonestLevy.containerSelectors) = true)
    (Hwatch : noWatchPage s = true)
    (Hok : (HonestLevy.scanPage s).2 = Js.Normal)
    (Hc : c ∈ cards (HonestLevy.document s) HonestLevy.containerSelectors)
    (Hlink : extractVideoId (findVideoLink (HonestLevy.location_href s)
                               (HonestLevy.document s) c) = Some vid)
    (Hmem : HonestLevy.processedVideoIds s !! c <> Some vid)
    (Hrec : HonestLevy.titlesCache s !! vid = Some record)
    (Hct : record !! "clean_title" = Some ct)
    (Htitle : HonestLevy.findTitleElement (HonestLevy.document s) c = Some t)
    (Hvis : HonestLevy.isElementVisible s c = true) :
  let s' := (HonestLevy.scanPage s).1 in
  textContentAt (HonestLevy.document s') t = ct
  /\ (textContentAt (HonestLevy.document s) t <> ct ->
      HonestLevy.processedVideoIds s' !! c = Some vid
      /\ getAttributeAt (HonestLevy.document s') t "data-honestlevy-replaced" = Some "true"
      /\ getAttributeAt (HonestLevy.document s') t "data-honestlevy-original"
         = Some (textContentAt (HonestLevy.document s) t)).
Proof.
  intros s'.
  destruct (HL_scanPage_isolated s Hen Hind Hwatch Hok) as (W1 & _).
  destruct (W1 c Hc) as [Hn Hm]. fold s' in Hn, Hm.
  pose proof (firstElement_below _ _ _ _ Htitle) as Hb.
  pose proof (below_prefix _ _ Hb) as [[q Hq] _].
  assert (Hat : nodeAt (HonestLevy.document s') t
                = nodeAt (HonestLevy.document (HonestLevy.processVideoCard c s).1) t).
  { now rewrite Hq, !nodeAt_app, Hn. }
  unfold textContentAt at 1. unfold getAttributeAt. rewrite Hat, Hm.
  fold (textContentAt (HonestLevy.document (HonestLevy.processVideoCard c s).1) t).
  fold (getAttributeAt (HonestLevy.document (HonestLevy.processVideoCard c s).1) t
          "data-honestlevy-replaced").
  fold (getAttributeAt (HonestLevy.document (HonestLevy.processVideoCard c s).1) t
          "data-honestlevy-original").
  pose proof (EngineFacts.Cache_get_own _ _ _ Hrec) as Hget.
  pose proof (EngineFacts.HL_findTitleElement_elementAt _ _ _ Htitle) as Hel.
  destruct (decide (textContentAt (HonestLevy.document s) t = ct)) as [Heq | Hne].
  - split; [| intros H; now contradict H].
    assert (E : HonestLevy.processVideoCard c s = (s, Js.Normal)).
    { unfold HonestLevy.processVideoCard.
      rewrite Hlink, (bool_decide_eq_false_2 _ Hmem), Hget. simpl.
      rewrite Htitle, Hvis, Hct, Heq. simpl. now rewrite bool_decide_eq_true_2. }
    now rewrite E.
  - destruct (EngineFacts.HL_processVideoCard_replaces c s vid t) as [R _]; try assumption.
    + now rewrite Hget.
    + rewrite Hget. simpl. rewrite Hct. congruence.
    + destruct (EngineFacts.replacedHL_reads _ _ _ _ _ Hel R) as (R1 & R2 & R3).
      rewrite Hget in R1. simpl in R1. rewrite Hct in R1. simpl in R1.
      split; [exact R1 |]. intros _. split; [| now split].
      destruct R as (_ & -> & _). apply lookup_insert_eq.
Qed.

End IsolationFacts.


(** * A scan leaves nothing for the next one *)
Module SettleFacts.
Import Dom Common Outcome DomFacts MoreDomFacts MoreEngineFacts FrameFacts IsolationFacts.

Lemma inside_below (c t : path) (doc : node) :
  below c t = true ->
  inside t doc = filter (fun v => below t v.1.1 = true) (inside c doc).
Proof.
  intros Hb. unfold inside. rewrite list_filter_filter_l; [reflexivity |].
  intros v Hv. now apply (ChannelFacts.below_trans c t).
Qed.

Lemma sameCard_querySelectorAllIn (c t : path) (doc doc' : node) (sel : selector) :
  sameCard c doc doc' -> below c t = true ->
  querySelectorAllIn doc' t sel = querySelectorAllIn doc t sel.
Proof.
  intros [_ Hi] Hb. rewrite !querySelectorAllIn_inside.
  now rewrite !(inside_below c t _ Hb), Hi.
Qed.

Lemma sameCard_titleHoldsNoLink (c : path) (doc doc' : node) :
  sameCard c doc doc' -> titleHoldsNoLink doc' c = titleHoldsNoLink doc c.
Proof.
  intros H. unfold titleHoldsNoLink, HonestLevy.findTitleElement.
  rewrite (sameCard_firstElement c doc doc' _ H).
  destruct (firstElement doc c HonestLevy.titleSelectors) as [t |] eqn:E; [| reflexivity].
  apply firstElement_below in E.
  now rewrite (sameCard_querySelectorAllIn c t doc doc' _ H E).
Qed.

Lemma settled_after (c : path) (s : HonestLevy.State) :
  titleHoldsNoLink (HonestLevy.document s) c = true ->
  settled c (HonestLevy.processVideoCard c s).1.
Proof.
  intros H. apply EngineFacts.HL_processVideoCard_twice.
  now rewrite HL_processVideoCard_keeps_link.
Qed.

Lemma settled_counted (c : path) (s : HonestLevy.State) : settled c s <-> counted c s = 0.
Proof.
  unfold settled, counted. split.
  - intros ->. simpl. lia.
  - intros H.
    destruct (EngineFacts.HL_processVideoCard_cases c s)
      as [E | (vid & t & _ & _ & _ & _ & _ & _ & (_ & _ & Hn & _) & _)]; [exact E |].
    rewrite Hn in H. lia.
Qed.

Lemma settled_kept (c c' : path) (s : HonestLevy.State) :
  apart c' c -> settled c s -> settled c (HonestLevy.processVideoCard c' s).1.
Proof.
  intros Hap Hs. apply settled_counted.
  pose proof (HL_others_keep c' c s s Hap (sameReads_refl c s)) as Hr.
  destruct (HL_mirror c s _ Hr) as (_ & _ & _ & ->). now apply settled_counted.
Qed.

Lemma HL_forEachCard_settles (s0 : HonestLevy.State) :
  forall (cs : list path) (s : HonestLevy.State),
    independent cs = true ->
    (forall c, c ∈ cs -> sameReads c s0 s) ->
    (forall c, c ∈ cs -> titleHoldsNoLink (HonestLevy.document s0) c = true) ->
    (HonestLevy.forEachCard cs s).2 = Js.Normal ->
    (forall c, c ∈ cs -> settled c (HonestLevy.forEachCard cs s).1)
    /\ (forall c', (forall c, c ∈ cs -> apart c c') -> settled c' s ->
                   settled c' (HonestLevy.forEachCard cs s).1).
Proof.
  induction cs as [| c cs IH]; intros s Hcs Hreads Hlinks Hok.
  - simpl. split; [intros c Hc; now apply elem_of_nil in Hc | intros c' _ Hs; exact Hs].
  - apply independent_cons in Hcs as [Hc Hcs].
    assert (Hhere : settled c (HonestLevy.processVideoCard c s).1).
    { apply settled_after.
      destruct (Hreads c (list_elem_of_here _ _)) as (Hsc & _).
      rewrite (sameCard_titleHoldsNoLink c _ _ Hsc). apply Hlinks, list_elem_of_here. }
    assert (Hothers : forall c', c' ∈ cs ->
                                 sameReads c' s0 (HonestLevy.processVideoCard c s).1).
    { intros c' Hc'. apply HL_others_keep; [now apply Hc |].
      apply Hreads. now apply list_elem_of_further. }
    pose proof (fun c' => settled_kept c' c s) as Hkeep.
    simpl in Hok |- *.
    destruct (HonestLevy.processVideoCard c s) as [s1 [| e]]; [| discriminate Hok].
    cbn [fst snd] in *.
    destruct (IH s1 Hcs Hothers (fun x Hx => Hlinks x (list_elem_of_further _ _ _ Hx)) Hok)
      as [S1 S2].
    split.
    + intros x Hx. apply elem_of_cons in Hx as [-> | Hx]; [| now apply S1].
      apply S2; [| exact Hhere]. intros y Hy. apply apart_sym. now apply Hc.
    + intros c' Hc' Hs. apply S2; [intros y Hy; apply Hc'; now apply list_elem_of_further |].
      apply Hkeep; [apply Hc'; apply list_elem_of_here | exact Hs].
Qed.

Lemma HL_scanContainers_settles (sels : list selector) (s0 : HonestLevy.State) :
  Forall typeSelector sels ->
  independent (cards (HonestLevy.document s0) sels) = true ->
  (forall c, c ∈ cards (HonestLevy.document s0) sels ->
             titleHoldsNoLink (HonestLevy.document s0) c = true) ->
  forall (rest : list selector) (s : HonestLevy.State),
    (forall sel, sel ∈ rest -> sel ∈ sels) ->
    independent (cards (HonestLevy.document s0) rest) = true ->
    (forall c, c ∈ cards (HonestLevy.document s0) rest -> sameReads c s0 s) ->
    sameCards sels (HonestLevy.document s0) (HonestLevy.document s) ->
    (HonestLevy.scanContainers rest s).2 = Js.Normal ->
    (forall c, c ∈ cards (HonestLevy.document s0) rest ->
               settled c (HonestLevy.scanContainers rest s).1)
    /\ (forall c', (forall c, c ∈ cards (HonestLevy.document s0) rest -> apart c c') ->
                   settled c' s -> settled c' (HonestLevy.scanContainers rest s).1)
    /\ sameCards sels (HonestLevy.document s0)
         (HonestLevy.document (HonestLevy.scanContainers rest s).1).
Proof.
  intros Hty Hind Hlinks.
  induction rest as [| sel rest IH]; intros s Hsub Hrest Hreads HK Hok.
  - simpl. split; [intros c Hc; now apply elem_of_nil in Hc |].
    split; [intros c' _ Hs; exact Hs | exact HK].
  - rewrite cards_cons in Hrest, Hreads |- *.
    apply independent_app in Hrest as (I1 & I2 & I3).
    assert (Hsel : sel ∈ sels) by (apply Hsub; apply list_elem_of_here).
    assert (Hin : forall c, c ∈ querySelectorAll (HonestLevy.document s0) sel ->
                            c ∈ cards (HonestLevy.document s0) sels).
    { intros c Hc. now apply (cards_elem _ sels sel). }
    assert (Hr1 : forall c, c ∈ querySelectorAll (HonestLevy.document s0) sel ->
                            sameReads c s0 s).
    { intros c Hc. apply Hreads. apply elem_of_app. now left. }
    simpl in Hok |- *. rewrite (HK sel Hsel) in Hok |- *.
    assert (Hok1 : (HonestLevy.forEachCard
                      (querySelectorAll (HonestLevy.document s0) sel) s).2 = Js.Normal).
    { destruct (HonestLevy.forEachCard _ s) as [s1 [| e]]; [reflexivity | discriminate Hok]. }
    destruct (HL_forEachCard_isolated sels s0 Hty Hind _ s I1 Hin Hr1 HK Hok1)
      as [(_ & _ & W3 & _) HK1].
    destruct (HL_forEachCard_settles s0 _ s I1 Hr1 (fun c Hc => Hlinks c (Hin c Hc)) Hok1)
      as [S1 S2].
    destruct (HonestLevy.forEachCard _ s) as [s1 [| e]]; [| discriminate Hok].
    cbn [fst snd] in *.
    assert (Hreads1 : forall c, c ∈ cards (HonestLevy.document s0) rest -> sameReads c s0 s1).
    { intros c Hc. apply W3; [intros x Hx; now apply I3 |].
      apply Hreads. apply elem_of_app. now right. }
    destruct (IH s1 (fun x Hx => Hsub x (list_elem_of_further _ _ _ Hx)) I2 Hreads1 HK1 Hok)
      as (V1 & V2 & V3).
    split; [| split; [| exact V3]].
    + intros c Hc. apply elem_of_app in Hc as [Hc | Hc]; [| now apply V1].
      apply V2; [| now apply S1]. intros y Hy. apply apart_sym. now apply I3.
    + intros c' Hc' Hs.
      apply V2; [intros y Hy; apply Hc', elem_of_app; now right |].
      apply S2; [intros y Hy; apply Hc', elem_of_app; now left | exact Hs].
Qed.

Lemma HL_forEachCard_settled (cs : list path) (s : HonestLevy.State) :
  (forall c, c ∈ cs -> settled c s) -> HonestLevy.forEachCard cs s = (s, Js.Normal).
Proof.
  induction cs as [| c cs IH]; intros H; [reflexivity |]. simpl.
  rewrite (H c (list_elem_of_here _ _)). apply IH.
  intros x Hx. apply H. now apply list_elem_of_further.
Qed.

Lemma HL_scanContainers_settled (sels : list selector) (s : HonestLevy.State) :
  (forall c, c ∈ cards (HonestLevy.document s) sels -> settled c s) ->
  HonestLevy.scanContainers sels s = (s, Js.Normal).
Proof.
  induction sels as [| sel sels IH]; intros H; [reflexivity |]. simpl.
  rewrite cards_cons in H. rewrite HL_forEachCard_settled.
  - apply IH. intros c Hc. apply H. apply elem_of_app. now right.
  - intros c Hc. apply H. apply elem_of_app. now left.
Qed.

Lemma cards_sameCards (sels : list selector) (doc0 doc : node) :
  sameCards sels doc0 doc -> cards doc sels = cards doc0 sels.
Proof.
  unfold cards. induction sels as [| sel sels IH]; intros H; [reflexivity |]. simpl.
  rewrite (H sel (list_elem_of_here _ _)). f_equal. apply IH.
  intros x Hx. apply H. now apply list_elem_of_further.
Qed.

(** A scan that ends normally, on a page whose cards are apart and hold no
    link in their titles, leaves a state on which a scan does nothing. *)
Lemma HL_scanPage_settles (s : HonestLevy.State) :
  HonestLevy.enabled s = true ->
  independent (cards (HonestLevy.document s) HonestLevy.containerSelectors) = true ->
  (forall c, c ∈ cards (HonestLevy.document s) HonestLevy.containerSelectors ->
             titleHoldsNoLink (HonestLevy.document s) c = true) ->
  noWatchPage s = true ->
  (HonestLevy.scanPage s).2 = Js.Normal ->
  HonestLevy.scanPage (HonestLevy.scanPage s).1 = ((HonestLevy.scanPage s).1, Js.Normal).
Proof.
  intros Hen Hind Hlinks Hwatch Hok.
  pose proof (HL_scanContainers_settles HonestLevy.containerSelectors s
                EngineFacts.HL_containerSelectors_types Hind Hlinks
                HonestLevy.containerSelectors s (fun x Hx => Hx) Hind
                (fun c _ => sameReads_refl c s) (fun sel _ => eq_refl)) as Hw.
  destruct (AccountFacts.HL_scanContainers_reported HonestLevy.containerSelectors s) as (k & R).
  assert (E : HonestLevy.scanPage s
              = ((HonestLevy.scanContainers HonestLevy.containerSelectors s).1, Js.Normal)
              /\ (HonestLevy.scanContainers HonestLevy.containerSelectors s).2 = Js.Normal).
  { unfold HonestLevy.scanPage in Hok |- *. rewrite Hen in Hok |- *. cbn [negb] in Hok |- *.
    destruct (HonestLevy.scanContainers HonestLevy.containerSelectors s) as [s1 [| e]];
      [| discriminate Hok].
    cbn [fst snd] in *. split; [| reflexivity].
    destruct R as (_ & _ & _ & Htc & _ & Hl & _). cbn [fst] in Htc, Hl.
    unfold HonestLevy.processWatchPageTitle. rewrite Hl, Htc.
    unfold noWatchPage in Hwatch.
    destruct (extractVideoId (Some (HonestLevy.location_href s))) as [vid |]; [| reflexivity].
    now rewrite Hwatch. }
  destruct E as [E Hok1]. rewrite E. cbn [fst].
  destruct (Hw Hok1) as (S1 & _ & HK).
  destruct R as (_ & _ & _ & Htc & Hena & Hl & _).
  set (s1 := (HonestLevy.scanContainers HonestLevy.containerSelectors s).1) in *.
  unfold HonestLevy.scanPage. rewrite Hena, Hen. cbn [negb].
  rewrite HL_scanContainers_settled.
  - unfold HonestLevy.processWatchPageTitle. rewrite Hl, Htc.
    unfold noWatchPage in Hwatch.
    destruct (extractVideoId (Some (HonestLevy.location_href s))) as [vid |]; [| reflexivity].
    now rewrite Hwatch.
  - intros c Hc. apply S1. now rewrite <- (cards_sameCards _ _ _ HK).
Qed.

End SettleFacts.

(** * GothamClean's scheduler; visibility *)
Module GothamCleanRuntimeFacts.
Import Dom Common Outcome GothamCleanRuntime.

Lemma shouldScan_none (records : list MutationRecord) :
  forallb (fun m => (m_addedNodes m =? 0)%nat) records = true -> shouldScan records = false.
Proof.
  unfold shouldScan. induction records as [| m records IH]; [reflexivity |]. simpl.
  intros H. apply andb_true_iff in H as [Hm H]. apply Nat.eqb_eq in Hm.
  rewrite Hm. simpl. now apply IH.
Qed.

Lemma dispatch_unobserved (r : Runtime) (e : Event) :
  unobserved e = true -> dispatch r e = r.
Proof.
  destruct e; try discriminate; simpl; [| reflexivity].
  intros H. destruct (observing r); [| reflexivity].
  unfold observerCallback. rewrite (shouldScan_none _ H). now destruct (negb _).
Qed.

Lemma GC_processVideoCard_replaces (c : path) (s : GothamClean.State) (vid : string) (t : path) :
  c ∉ GothamClean.processedElements s ->
  GothamClean.isGothamChessVideo s c = true ->
  extractVideoId (findVideoLink (GothamClean.location_href s)
                    (GothamClean.document s) c) = Some vid ->
  Cache.truthy (Cache.get (GothamClean.titlesCache s) vid) = true ->
  GothamClean.findTitleElement (GothamClean.document s) c = Some t ->
  Some (textContentAt (GothamClean.document s) t)
  <> Cache.clean_title (Cache.get (GothamClean.titlesCache s) vid) ->
  replacedGC c vid t s (GothamClean.processVideoCard c s).1.
Proof.
  intros E0 E1 E2 E3 E4 E5.
  destruct (EngineFacts.GC_processVideoCard_cases c s)
    as [E | (vid' & t' & _ & _ & F2 & _ & F4 & _ & R & _)].
  - exfalso. revert E. unfold GothamClean.processVideoCard.
    rewrite (bool_decide_eq_false_2 _ E0), E1, E2, E3, E4, (bool_decide_eq_false_2 _ E5).
    simpl. intros [= E]. apply (f_equal GothamClean.replacedThisSession) in E.
    simpl in E. lia.
  - rewrite E2 in F2. rewrite E4 in F4. injection F2 as <-. injection F4 as <-. exact R.
Qed.











End GothamCleanRuntimeFacts.

Module VisibilityFacts.
Import Dom Common Outcome.

Lemma HL_invisible_card (c : path) (s : HonestLevy.State) :
  HonestLevy.isElementVisible s c = false ->
  HonestLevy.processVideoCard c s = (s, Js.Normal).
Proof.
  intros Hvis. unfold HonestLevy.processVideoCard.
  destruct (extractVideoId _); [| reflexivity].
  case_bool_decide; [reflexivity |].
  destruct (negb (Cache.truthy _)); [reflexivity |].
  destruct (HonestLevy.findTitleElement _ _); [| reflexivity].
  now rewrite Hvis.
Qed.

Lemma outside_viewport (s : HonestLevy.State) (c : path) :
  (width (rectAt (HonestLevy.document s) c) <= 0
   \/ height (rectAt (HonestLevy.document s) c) <= 0
   \/ HonestLevy.innerHeight s <= top (rectAt (HonestLevy.document s) c)
   \/ bottom (rectAt (HonestLevy.document s) c) <= 0)%Z
  <-> HonestLevy.isElementVisible s c = false.
Proof.
  unfold HonestLevy.isElementVisible.
  set (rect := rectAt (HonestLevy.document s) c).
  destruct (Z.ltb_spec 0 (width rect)) as [Hw | Hw],
    (Z.ltb_spec 0 (height rect)) as [Hh | Hh],
    (Z.ltb_spec (top rect) (HonestLevy.innerHeight s)) as [Ht | Ht],
    (Z.ltb_spec 0 (bottom rect)) as [Hb | Hb];
    simpl; split; intros Hx; try reflexivity; try discriminate Hx; try lia; auto.
Qed.

End VisibilityFacts.


(** * The claims *)

(** C1 as worded fails on HonestLevy: on a card whose title element holds
    the only watch link, next to a shorts link of another tracked video,
    the first call of [processVideoCard] removes the watch link with the
    old title text, and the second call, made on the state the first one
    left, substitutes again, for the other video: the page after two calls
    is not the page after one, and [replacedThisSession] has gone up by
    two. *)
Lemma C1_nested_link_substituted_twice :
  let s0 := Pages.honestLevy
              (Pages.nestedLinkListing Inputs.linkA "https://x/shorts/BBBBBBBBBBB"
                 Pages.clickbait)
              "https://x/" Pages.twoTitles in
  let s1 := (HonestLevy.processVideoCard [0]%nat s0).1 in
  let s2 := (HonestLevy.processVideoCard [0]%nat s1).1 in
  extractVideoId (Common.findVideoLink (HonestLevy.location_href s0)
                    (HonestLevy.document s0) [0]%nat) = Some "AAAAAAAAAAA"
  /\ extractVideoId (Common.findVideoLink (HonestLevy.location_href s1)
                       (HonestLevy.document s1) [0]%nat)
     = Some "BBBBBBBBBBB"
  /\ Dom.textContentAt (HonestLevy.document s1) [0; 0]%nat = "Game one, annotated"
  /\ Dom.textContentAt (HonestLevy.document s2) [0; 0]%nat = "Game two, annotated"
  /\ HonestLevy.document s2 <> HonestLevy.document s1
  /\ HonestLevy.replacedThisSession s0 = 0
  /\ HonestLevy.replacedThisSession s2 = 2.
Proof.
  repeat split; try (vm_compute; reflexivity).
  intros E. apply (f_equal (fun d => Dom.textContentAt d [0; 0]%nat)) in E.
  vm_compute in E. discriminate E.
Qed.

(** C1, amended: on a card whose title element has no link element among
    its descendants, a second call of [processVideoCard] leaves the state
    the first call produced (page, memory, counter, messages) and ends
    normally, and the two calls together raise [replacedThisSession] by at
    most one.  GothamClean needs no condition on the card. *)
Theorem C1_processVideoCard_idempotent
    (h : HonestLevy.State) (g : GothamClean.State) (c : Dom.path)
    (Hout : Outcome.titleHoldsNoLink (HonestLevy.document h) c = true) :
  (HonestLevy.processVideoCard c (HonestLevy.processVideoCard c h).1
   = ((HonestLevy.processVideoCard c h).1, Js.Normal)
   /\ HonestLevy.replacedThisSession
        (HonestLevy.processVideoCard c (HonestLevy.processVideoCard c h).1).1
      <= S (HonestLevy.replacedThisSession h))
  /\ (GothamClean.processVideoCard c (GothamClean.processVideoCard c g).1
      = ((GothamClean.processVideoCard c g).1, Js.Normal)
      /\ GothamClean.replacedThisSession
           (GothamClean.processVideoCard c (GothamClean.processVideoCard c g).1).1
         <= S (GothamClean.replacedThisSession g)).
Proof.
  assert (Hsame : extractVideoId
                    (Common.findVideoLink
                       (HonestLevy.location_href (HonestLevy.processVideoCard c h).1)
                       (HonestLevy.document (HonestLevy.processVideoCard c h).1) c)
                  = extractVideoId (Common.findVideoLink (HonestLevy.location_href h)
                                      (HonestLevy.document h) c)).
  { now rewrite FrameFacts.HL_processVideoCard_keeps_link. }
  destruct (EngineFacts.HL_processVideoCard_twice h c Hsame) as [Hh Hn].
  destruct (EngineFacts.GC_processVideoCard_twice g c) as [Hg Hm].
  rewrite Hh, Hg. simpl. repeat split; assumption.
Qed.

Lemma C1_witness :
  (HonestLevy.processVideoCard Pages.cardAt
     (HonestLevy.processVideoCard Pages.cardAt Inputs.scenarioHL).1
   = ((HonestLevy.processVideoCard Pages.cardAt Inputs.scenarioHL).1, Js.Normal)
   /\ HonestLevy.replacedThisSession
        (HonestLevy.processVideoCard Pages.cardAt
           (HonestLevy.processVideoCard Pages.cardAt Inputs.scenarioHL).1).1
      <= S (HonestLevy.replacedThisSession Inputs.scenarioHL))
  /\ (GothamClean.processVideoCard Pages.cardAt
        (GothamClean.processVideoCard Pages.cardAt Inputs.scenarioGC).1
      = ((GothamClean.processVideoCard Pages.cardAt Inputs.scenarioGC).1, Js.Normal)
      /\ GothamClean.replacedThisSession
           (GothamClean.processVideoCard Pages.cardAt
              (GothamClean.processVideoCard Pages.cardAt Inputs.scenarioGC).1).1
         <= S (GothamClean.replacedThisSession Inputs.scenarioGC)).
Proof.
  apply (C1_processVideoCard_idempotent Inputs.scenarioHL Inputs.scenarioGC Pages.cardAt).
  vm_compute. reflexivity.
Defined.

(** X5, HonestLevy's idempotence from what the second call sees: whenever
    the card yields the same video identifier after the first call as
    before it, the second call changes nothing and ends normally, and the
    counter has gone up by at most one; a link inside the title element
    does no harm when it is not the link the card is identified by. *)
Theorem honestLevy_idempotent_while_identifier_stays
    (s : HonestLevy.State) (c : Dom.path)
    (Hsame : extractVideoId
               (Common.findVideoLink
                  (HonestLevy.location_href (HonestLevy.processVideoCard c s).1)
                  (HonestLevy.document (HonestLevy.processVideoCard c s).1) c)
             = extractVideoId (Common.findVideoLink (HonestLevy.location_href s)
                                 (HonestLevy.document s) c)) :
  HonestLevy.processVideoCard c (HonestLevy.processVideoCard c s).1
  = ((HonestLevy.processVideoCard c s).1, Js.Normal)
  /\ HonestLevy.replacedThisSession (HonestLevy.processVideoCard c s).1
     <= S (HonestLevy.replacedThisSession s).
Proof. exact (EngineFacts.HL_processVideoCard_twice s c Hsame). Qed.

Lemma honestLevy_idempotent_while_identifier_stays_witness :
  let s := Pages.honestLevy
             (Pages.nestedLinkListing "https://x/shorts/AAAAAAAAAAA" Inputs.linkB
                Pages.clickbait)
             "https://x/" Pages.twoTitles in
  Outcome.titleHoldsNoLink (HonestLevy.document s) [0]%nat = false
  /\ Dom.textContentAt (HonestLevy.document (HonestLevy.processVideoCard [0]%nat s).1)
       [0; 0]%nat = "Game two, annotated"
  /\ HonestLevy.processVideoCard [0]%nat (HonestLevy.processVideoCard [0]%nat s).1
     = ((HonestLevy.processVideoCard [0]%nat s).1, Js.Normal)
  /\ HonestLevy.replacedThisSession (HonestLevy.processVideoCard [0]%nat s).1
     <= S (HonestLevy.replacedThisSession s).
Proof.
  intros s. split; [vm_compute; reflexivity |]. split; [vm_compute; reflexivity |].
  apply (honestLevy_idempotent_while_identifier_stays s [0]%nat).
  vm_compute. reflexivity.
Defined.

(** C2 on GothamClean: the card was substituted for video A and is in
    [processedElements]; the host then reuses the node for the tracked video
    B.  The next scan leaves B's clickbait title in place: membership in the
    [WeakSet] ends [processVideoCard] before it reads the new link. *)
Theorem C2_gothamClean_skips_recycled_card :
  bool_decide (Pages.cardAt ∈ GothamClean.processedElements Inputs.recycledGC) = true
  /\ extractVideoId
       (Common.findVideoLink (GothamClean.location_href Inputs.recycledGC)
          (GothamClean.document Inputs.recycledGC) Pages.cardAt)
     = Some "BBBBBBBBBBB"
  /\ Cache.clean_title (Cache.get (GothamClean.titlesCache Inputs.recycledGC) "BBBBBBBBBBB")
     = Some "Game two, annotated"
  /\ GothamClean.scanPage Inputs.recycledGC = (Inputs.recycledGC, Js.Normal)
  /\ Dom.textContentAt (GothamClean.document Inputs.recycledGC) Pages.cardTitleAt
     = "HE SACRIFICED EVERYTHING".
Proof. repeat split; vm_compute; reflexivity. Qed.



(** X2, recycling in HonestLevy (the sibling of C2's defect): a visible card
    remembered for video A that now links to the tracked video B ends the next
    call showing B's clean title; unless it showed that text already, the call
    also records B for the card, counts one replacement and sets the replaced
    flag. *)
Theorem honestLevy_resubstitutes_recycled_card
    (s : HonestLevy.State) (c t : Dom.path) (A B ct : string) (record : Cache.TitleData)
    (Hmem : HonestLevy.processedVideoIds s !! c = Some A)
    (Hne : A <> B)
    (Hlink : extractVideoId (Common.findVideoLink (HonestLevy.location_href s)
                               (HonestLevy.document s) c) = Some B)
    (Hrec : HonestLevy.titlesCache s !! B = Some record)
    (Hct : record !! "clean_title" = Some ct)
    (Htitle : HonestLevy.findTitleElement (HonestLevy.document s) c = Some t)
    (Hvis : HonestLevy.isElementVisible s c = true) :
  (HonestLevy.processVideoCard c s).2 = Js.Normal
  /\ Dom.textContentAt (HonestLevy.document (HonestLevy.processVideoCard c s).1) t = ct
  /\ (Dom.textContentAt (HonestLevy.document s) t <> ct ->
      HonestLevy.processedVideoIds (HonestLevy.processVideoCard c s).1 !! c = Some B
      /\ HonestLevy.replacedThisSession (HonestLevy.processVideoCard c s).1
         = S (HonestLevy.replacedThisSession s)
      /\ Dom.getAttributeAt (HonestLevy.document (HonestLevy.processVideoCard c s).1) t
           "data-honestlevy-replaced" = Some "true").
Proof.
  pose proof (EngineFacts.Cache_get_own _ _ _ Hrec) as Hget.
  pose proof (EngineFacts.HL_findTitleElement_elementAt _ _ _ Htitle) as Hel.
  destruct (decide (Dom.textContentAt (HonestLevy.document s) t = ct)) as [Heq | Hdiff].
  - unfold HonestLevy.processVideoCard.
    rewrite Hlink, Hmem, bool_decide_eq_false_2 by congruence.
    rewrite Hget. simpl. rewrite Htitle, Hvis, Hct. simpl.
    rewrite bool_decide_eq_true_2 by congruence. simpl. tauto.
  - destruct (EngineFacts.HL_processVideoCard_replaces c s B t) as [R Hc]; auto.
    + rewrite Hmem. congruence.
    + now rewrite Hget.
    + rewrite Hget. simpl. rewrite Hct. congruence.
    + destruct (EngineFacts.replacedHL_reads _ _ _ _ _ Hel R) as (Htext & Hflag & _).
      rewrite Hget in Htext, Hc. simpl in Htext, Hc. rewrite Hct in Htext, Hc.
      destruct R as (_ & Hm & Hn & _).
      repeat split; auto. rewrite Hm. apply lookup_insert_eq.
Qed.

Lemma honestLevy_resubstitutes_recycled_card_witness :
  (HonestLevy.processVideoCard Pages.cardAt Inputs.recycledHL).2 = Js.Normal
  /\ Dom.textContentAt
       (HonestLevy.document (HonestLevy.processVideoCard Pages.cardAt Inputs.recycledHL).1)
       Pages.cardTitleAt = "Game two, annotated"
  /\ (Dom.textContentAt (HonestLevy.document Inputs.recycledHL) Pages.cardTitleAt
      <> "Game two, annotated" ->
      HonestLevy.processedVideoIds
        (HonestLevy.processVideoCard Pages.cardAt Inputs.recycledHL).1 !! Pages.cardAt
      = Some "BBBBBBBBBBB"
      /\ HonestLevy.replacedThisSession
           (HonestLevy.processVideoCard Pages.cardAt Inputs.recycledHL).1
         = S (HonestLevy.replacedThisSession Inputs.recycledHL)
      /\ Dom.getAttributeAt
           (HonestLevy.document (HonestLevy.processVideoCard Pages.cardAt Inputs.recycledHL).1)
           Pages.cardTitleAt "data-honestlevy-replaced" = Some "true").
Proof.
  apply (honestLevy_resubstitutes_recycled_card Inputs.recycledHL Pages.cardAt
           Pages.cardTitleAt "AAAAAAAAAAA" "BBBBBBBBBBB" "Game two, annotated"
           {[ "clean_title" := "Game two, annotated" ]});
    try (vm_compute; reflexivity).
  discriminate.
Defined.

(** C3 on GothamClean: the now-playing title was replaced for video A and
    carries the replaced flag; the page moves on to the tracked video B in
    place.  [processWatchPageTitle] passes the flagged element over and B's
    title stays as the host wrote it. *)
Theorem C3_gothamClean_flag_blocks_new_video :
  Dom.getAttributeAt (GothamClean.document Inputs.navigatedGC) Pages.watchTitleAt
    "data-gothamclean-replaced" = Some "true"
  /\ extractVideoId (Some (GothamClean.location_href Inputs.navigatedGC)) = Some "BBBBBBBBBBB"
  /\ Cache.clean_title (Cache.get (GothamClean.titlesCache Inputs.navigatedGC) "BBBBBBBBBBB")
     = Some "Game two, annotated"
  /\ GothamClean.processWatchPageTitle Inputs.navigatedGC = Inputs.navigatedGC
  /\ Dom.textContentAt (GothamClean.document Inputs.navigatedGC) Pages.watchTitleAt
     = "HE SACRIFICED EVERYTHING".
Proof. repeat split; vm_compute; reflexivity. Qed.

(** X3, the watch page in HonestLevy (the sibling of C3's defect): when the
    now-playing title was last replaced for another video than the tracked
    one the URL names, [processWatchPageTitle] leaves the element showing the
    clean title of the URL's video; unless it showed that text already, the
    element is re-tagged with the URL's identifier. *)
Theorem honestLevy_watch_title_keyed_by_identifier
    (s : HonestLevy.State) (w : Dom.path) (A B ct : string) (record : Cache.TitleData)
    (Hurl : extractVideoId (Some (HonestLevy.location_href s)) = Some B)
    (Hrec : HonestLevy.titlesCache s !! B = Some record)
    (Hct : record !! "clean_title" = Some ct)
    (Hw : Outcome.watchTitleElement (HonestLevy.document s) HonestLevy.watchTitleSelectors
          = Some w)
    (Hfor : Dom.getAttributeAt (HonestLevy.document s) w "data-honestlevy-video-id" = Some A)
    (Hne : A <> B) :
  Dom.textContentAt (HonestLevy.document (HonestLevy.processWatchPageTitle s)) w = ct
  /\ (Dom.textContentAt (HonestLevy.document s) w <> ct ->
      Dom.getAttributeAt (HonestLevy.document (HonestLevy.processWatchPageTitle s)) w
        "data-honestlevy-video-id" = Some B).
Proof.
  pose proof (EngineFacts.Cache_get_own _ _ _ Hrec) as Hget.
  assert (Hel : Dom.elementAt (HonestLevy.document s) w).
  { revert Hw. generalize HonestLevy.watchTitleSelectors.
    induction l as [| sel sels IH]; simpl; [discriminate |].
    destruct (Dom.querySelectorDoc (HonestLevy.document s) sel) as [e |] eqn:E; [| exact IH].
    intros [= <-]. now apply DomFacts.querySelectorDoc_elementAt in E. }
  unfold HonestLevy.processWatchPageTitle. rewrite Hurl, Hget. cbn [Cache.truthy negb].
  rewrite (EngineFacts.HL_watchTitleLoop_at _ _ _ _ _ Hw), Hfor.
  rewrite bool_decide_eq_false_2 by congruence. cbn [Cache.clean_title]. rewrite Hct.
  case_bool_decide as Htext.
  - split; [congruence | intros Hd; congruence].
  - unfold Outcome.watchReplacedHL. simpl. rewrite Hct. simpl. split.
    + rewrite !DomFacts.textContentAt_setAttribute. apply DomFacts.textContentAt_set.
      now apply DomFacts.elementAt_is_Some.
    + intros _. apply DomFacts.getAttributeAt_set.
      now apply DomFacts.elementAt_setAttribute, DomFacts.elementAt_setTextContent.
Qed.

Lemma honestLevy_watch_title_keyed_by_identifier_witness :
  Dom.textContentAt (HonestLevy.document (HonestLevy.processWatchPageTitle Inputs.navigatedHL))
    Pages.watchTitleAt = "Game two, annotated"
  /\ (Dom.textContentAt (HonestLevy.document Inputs.navigatedHL) Pages.watchTitleAt
      <> "Game two, annotated" ->
      Dom.getAttributeAt
        (HonestLevy.document (HonestLevy.processWatchPageTitle Inputs.navigatedHL))
        Pages.watchTitleAt "data-honestlevy-video-id" = Some "BBBBBBBBBBB").
Proof.
  apply (honestLevy_watch_title_keyed_by_identifier Inputs.navigatedHL Pages.watchTitleAt
           "AAAAAAAAAAA" "BBBBBBBBBBB" "Game two, annotated"
           {[ "clean_title" := "Game two, annotated" ]});
    try (vm_compute; reflexivity).
  discriminate.
Defined.

(** C4, as the spec words it, fails on a URL with two [v] parameters: the
    second one is followed by exactly 11 identifier characters and is not
    what [extractVideoId] returns. *)
Lemma C4_second_parameter_not_returned :
  ~ (forall url tok, watchParamWithExactly11 url tok -> extractVideoId (Some url) = Some tok).
Proof.
  intros H.
  specialize (H "https://x/watch?v=AAAAAAAAAAA&v=BBBBBBBBBBB" "BBBBBBBBBBB").
  assert (extractVideoId (Some "https://x/watch?v=AAAAAAAAAAA&v=BBBBBBBBBBB")
          = Some "AAAAAAAAAAA") as E by reflexivity.
  rewrite E in H. enough (Some "AAAAAAAAAAA" = Some "BBBBBBBBBBB") by discriminate.
  apply H. exists "https://x/watch?v=AAAAAAAAAAA", "&v=", "".
  repeat split; [set_solver].
Qed.

(** C4 (amended): [extractVideoId] returns the token of the first shape, in
    the order watch parameter, shortened link, shorts path, embed path, that
    occurs in the URL at all, at its leftmost occurrence; it returns nothing
    for a URL in which no shape occurs, for the empty string and for an absent
    input. *)
Theorem C4_extractVideoId_first_capture :
  (forall url sh k tok,
      UrlShape.occurs sh url k tok ->
      (forall sh' k' tok',
          UrlShape.occurs sh' url k' tok' ->
          (UrlShape.rank sh < UrlShape.rank sh')%nat \/ (sh' = sh /\ (k <= k')%nat)) ->
      extractVideoId (Some url) = Some tok)
  /\ (forall url,
         (forall sh k tok, ~ UrlShape.occurs sh url k tok) ->
         extractVideoId (Some url) = None)
  /\ extractVideoId (Some "") = None
  /\ extractVideoId None = None.
Proof.
  split; [| split; [| split; reflexivity]].
  - intros url sh k tok. apply PatternFacts.extractVideoId_first.
  - apply PatternFacts.extractVideoId_none.
Qed.

Lemma C4_witness :
  extractVideoId (Some "https://x/watch?v=abcEFghiJKL") = Some "abcEFghiJKL".
Proof.
  apply (proj1 C4_extractVideoId_first_capture
           "https://x/watch?v=abcEFghiJKL" UrlShape.WatchParam 15 "abcEFghiJKL").
  - exists "https://x/watch", "?v=", "". repeat split. set_solver.
  - intros sh' k' tok' Ho. destruct sh'; [right | left; simpl; lia ..].
    split; [reflexivity |].
    apply PatternFacts.occurs_matchHere in Ho as [_ Hm].
    destruct (le_lt_dec 15 k') as [Hle | Hlt]; [exact Hle | exfalso].
    do 15 (destruct k' as [| k']; [vm_compute in Hm; discriminate |]). lia.
Defined.

(** C5 as the spec words it fails twice on HonestLevy.  With the record
    spelled [cleanTitle], the script reads [clean_title], finds [undefined],
    empties the title and throws from its log line.  With the record spelled
    [clean_title] and the card below the viewport, the scan leaves the card
    alone. *)
Lemma C5_scenario_as_worded_fails :
  (Dom.textContentAt (HonestLevy.document (HonestLevy.scanPage Inputs.scenarioCamelHL).1)
     Pages.cardTitleAt = ""
   /\ (HonestLevy.scanPage Inputs.scenarioCamelHL).2 = Js.Throw Js.TypeError)
  /\ (HonestLevy.scanPage Offscreen.scenarioHL = (Offscreen.scenarioHL, Js.Normal)
      /\ Dom.textContentAt (HonestLevy.document Offscreen.scenarioHL) Offscreen.titleAt
         = Pages.clickbait).
Proof. repeat split; vm_compute; reflexivity. Qed.

(** C5 (amended): the mapping holds, under [abcEFghiJKL], a record whose
    [clean_title] is the clean title; the page's one card is in the viewport,
    links to [https://x/watch?v=abcEFghiJKL] and shows the clickbait title;
    the page URL names no video; the script is enabled and fresh.  Then one
    [scanPage] ends normally with the title element showing exactly the clean
    title, tagged as replaced, tagged with the original text, and with
    [replacedThisSession] at 1. *)
Theorem C5_scenario_one_scan
    (s : HonestLevy.State) (c t : Dom.path) (record : Cache.TitleData)
    (Hon : HonestLevy.enabled s = true)
    (Hzero : HonestLevy.replacedThisSession s = 0)
    (Hfresh : HonestLevy.processedVideoIds s !! c = None)
    (Hrec : HonestLevy.titlesCache s !! "abcEFghiJKL" = Some record)
    (Hct : record !! "clean_title" = Some "Magnus Resigns After 3 Moves")
    (Hcards : Outcome.cards (HonestLevy.document s) HonestLevy.containerSelectors = [c])
    (Hlink : Common.findVideoLink (HonestLevy.location_href s) (HonestLevy.document s) c
             = Some "https://x/watch?v=abcEFghiJKL")
    (Htitle : HonestLevy.findTitleElement (HonestLevy.document s) c = Some t)
    (Htext : Dom.textContentAt (HonestLevy.document s) t
             = "YOU WON'T BELIEVE THIS BLUNDER!!!")
    (Hvis : HonestLevy.isElementVisible s c = true)
    (Hurl : extractVideoId (Some (HonestLevy.location_href s)) = None) :
  (HonestLevy.scanPage s).2 = Js.Normal
  /\ Dom.textContentAt (HonestLevy.document (HonestLevy.scanPage s).1) t
     = "Magnus Resigns After 3 Moves"
  /\ Dom.getAttributeAt (HonestLevy.document (HonestLevy.scanPage s).1) t
       "data-honestlevy-replaced" = Some "true"
  /\ Dom.getAttributeAt (HonestLevy.document (HonestLevy.scanPage s).1) t
       "data-honestlevy-original" = Some "YOU WON'T BELIEVE THIS BLUNDER!!!"
  /\ HonestLevy.replacedThisSession (HonestLevy.scanPage s).1 = 1.
Proof.
  pose proof (EngineFacts.Cache_get_own _ _ _ Hrec) as Hget.
  pose proof (EngineFacts.HL_findTitleElement_elementAt _ _ _ Htitle) as Hel.
  assert (Hid : extractVideoId (Common.findVideoLink (HonestLevy.location_href s)
                                  (HonestLevy.document s) c)
                = Some "abcEFghiJKL") by (rewrite Hlink; reflexivity).
  destruct (EngineFacts.HL_processVideoCard_replaces c s "abcEFghiJKL" t) as [R Hk]; auto.
  { rewrite Hfresh. discriminate. }
  { now rewrite Hget. }
  { rewrite Hget, Htext. simpl. rewrite Hct. discriminate. }
  rewrite Hget in Hk. simpl in Hk. rewrite Hct in Hk. simpl in Hk.
  destruct (EngineFacts.replacedHL_reads _ _ _ _ _ Hel R) as (Rtext & Rflag & Rorig).
  rewrite Hget in Rtext. simpl in Rtext. rewrite Hct in Rtext. simpl in Rtext.
  rewrite Htext in Rorig.
  assert (Hscan : HonestLevy.scanPage s = ((HonestLevy.processVideoCard c s).1, Js.Normal)).
  { unfold HonestLevy.scanPage. rewrite Hon. cbn [negb].
    rewrite (EngineFacts.HL_scanContainers_one_card _
               EngineFacts.HL_containerSelectors_types s c Hcards Hk).
    unfold HonestLevy.processWatchPageTitle.
    destruct R as (_ & _ & _ & _ & _ & _ & Hhref & _). now rewrite Hhref, Hurl. }
  rewrite Hscan. simpl.
  destruct R as (_ & _ & Hn & _). rewrite Hn, Hzero. now repeat split.
Qed.

Lemma C5_witness :
  (HonestLevy.scanPage Inputs.scenarioHL).2 = Js.Normal
  /\ Dom.textContentAt (HonestLevy.document (HonestLevy.scanPage Inputs.scenarioHL).1)
       Pages.cardTitleAt = "Magnus Resigns After 3 Moves"
  /\ Dom.getAttributeAt (HonestLevy.document (HonestLevy.scanPage Inputs.scenarioHL).1)
       Pages.cardTitleAt "data-honestlevy-replaced" = Some "true"
  /\ Dom.getAttributeAt (HonestLevy.document (HonestLevy.scanPage Inputs.scenarioHL).1)
       Pages.cardTitleAt "data-honestlevy-original"
     = Some "YOU WON'T BELIEVE THIS BLUNDER!!!"
  /\ HonestLevy.replacedThisSession (HonestLevy.scanPage Inputs.scenarioHL).1 = 1.
Proof.
  apply (C5_scenario_one_scan Inputs.scenarioHL Pages.cardAt Pages.cardTitleAt
           {[ "clean_title" := "Magnus Resigns After 3 Moves" ]});
    vm_compute; reflexivity.
Defined.

(** C6 on a card that links to [v=constructor]: the mapping has no such key,
    yet [titlesCache["constructor"]] is the inherited [Object] function, the
    guard lets it pass, the title is emptied, memory and counter are written,
    and the log line throws. *)
Theorem C6_inherited_key_is_not_skipped :
  extractVideoId (Common.findVideoLink (HonestLevy.location_href Inputs.constructorHL)
                    (HonestLevy.document Inputs.constructorHL) Pages.cardAt)
  = Some "constructor"
  /\ HonestLevy.titlesCache Inputs.constructorHL !! "constructor" = None
  /\ (HonestLevy.processVideoCard Pages.cardAt Inputs.constructorHL).2 = Js.Throw Js.TypeError
  /\ Dom.textContentAt (HonestLevy.document Inputs.constructorHL) Pages.cardTitleAt
     = Pages.clickbait
  /\ Dom.textContentAt
       (HonestLevy.document (HonestLevy.processVideoCard Pages.cardAt Inputs.constructorHL).1)
       Pages.cardTitleAt = ""
  /\ HonestLevy.replacedThisSession
       (HonestLevy.processVideoCard Pages.cardAt Inputs.constructorHL).1 = 1
  /\ HonestLevy.processedVideoIds
       (HonestLevy.processVideoCard Pages.cardAt Inputs.constructorHL).1 !! Pages.cardAt
     = Some "constructor".
Proof. repeat split; vm_compute; reflexivity. Qed.

(** X4, fail-soft in HonestLevy for every identifier that is no member name of
    [Object.prototype]: a card without a permalink identifier, with an
    identifier the mapping does not hold, or without a title element is left
    alone, and nothing is raised. *)
Theorem honestLevy_fails_soft_on_absence
    (s : HonestLevy.State) (c : Dom.path)
    (Habsent :
       extractVideoId (Common.findVideoLink (HonestLevy.location_href s)
                         (HonestLevy.document s) c) = None
       \/ (exists vid,
              extractVideoId (Common.findVideoLink (HonestLevy.location_href s)
                                (HonestLevy.document s) c) = Some vid
              /\ HonestLevy.titlesCache s !! vid = None
              /\ vid ∉ Cache.objectPrototype)
       \/ HonestLevy.findTitleElement (HonestLevy.document s) c = None) :
  HonestLevy.processVideoCard c s = (s, Js.Normal).
Proof.
  destruct (EngineFacts.HL_processVideoCard_cases c s)
    as [E | (vid & t & E1 & _ & E3 & E4 & _)]; [exact E | exfalso].
  destruct Habsent as [H | [(vid' & H1 & H2 & H3) | H]].
  - congruence.
  - rewrite E1 in H1. injection H1 as <-.
    rewrite (EngineFacts.Cache_get_absent _ _ H2 H3) in E3. discriminate.
  - congruence.
Qed.

Lemma honestLevy_fails_soft_on_absence_witness :
  HonestLevy.processVideoCard Pages.cardAt
    (Pages.honestLevy (Pages.listing Inputs.linkA Pages.clickbait) "https://x/" Pages.magnus)
  = (Pages.honestLevy (Pages.listing Inputs.linkA Pages.clickbait) "https://x/" Pages.magnus,
     Js.Normal).
Proof.
  apply honestLevy_fails_soft_on_absence. right. left. exists "AAAAAAAAAAA".
  split; [vm_compute; reflexivity |]. split; [vm_compute; reflexivity |].
  apply (bool_decide_eq_false_1 ("AAAAAAAAAAA" ∈ Cache.objectPrototype)).
  vm_compute. reflexivity.
Defined.

(** C7: with [enabled] false, [scanPage] returns the state it was given,
    whatever the page and the mapping hold; a batch of mutation records
    changes nothing, and a timer that expires leaves page and script state as
    they were. *)
Theorem C7_disabled_scan_is_noop
    (r : HonestLevy.Runtime) (Hoff : HonestLevy.enabled (HonestLevy.st r) = false) :
  HonestLevy.scanPage (HonestLevy.st r) = (HonestLevy.st r, Js.Normal)
  /\ (forall records, HonestLevy.dispatch r (Mutations records) = r)
  /\ (forall id, HonestLevy.st (HonestLevy.dispatch r (TimerFired id)) = HonestLevy.st r).
Proof.
  assert (Hscan : forall s, HonestLevy.enabled s = false ->
                            HonestLevy.scanPage s = (s, Js.Normal)).
  { intros s Hs. unfold HonestLevy.scanPage. now rewrite Hs. }
  split; [now apply Hscan |]. split.
  - intros records. simpl. unfold HonestLevy.observerCallback. rewrite Hoff. simpl.
    now destruct (HonestLevy.observing r).
  - intros id. simpl. destruct (HonestLevy.timers r !! id); [| reflexivity].
    unfold HonestLevy.callScanPage. simpl. now rewrite (Hscan _ Hoff).
Qed.

Lemma C7_witness :
  let r := HonestLevy.dispatch
             (HonestLevy.start (Pages.listing Inputs.linkMagnus Pages.clickbait) "https://x/" 900)
             (InitResponse (Some {| r_titles := Some Pages.magnus; r_enabled := Some false |})) in
  HonestLevy.scanPage (HonestLevy.st r) = (HonestLevy.st r, Js.Normal)
  /\ (forall records, HonestLevy.dispatch r (Mutations records) = r)
  /\ (forall id, HonestLevy.st (HonestLevy.dispatch r (TimerFired id)) = HonestLevy.st r).
Proof.
  apply C7_disabled_scan_is_noop. reflexivity.
Defined.

(** C8 as the spec words it fails on a card outside the viewport.  The
    card was processed for video A; after [yt-navigate-finish] the host
    renders it again, linking to A and showing the clickbait title, below
    the fold.  The memory is empty and the armed scan runs, but the
    visibility guard of [processVideoCard] leaves the title as it is. *)
Lemma C8_offscreen_card_keeps_clickbait :
  let r := Sessions.wiredHL in
  let doc' := Offscreen.listing Inputs.linkA Pages.clickbait in
  let r1 := HonestLevy.dispatch r YtNavigateFinish in
  let r2 := HonestLevy.dispatch r1 (HostRender doc' "https://x/" 900) in
  let r3 := HonestLevy.dispatch r2 (TimerFired (HonestLevy.nextTimer r)) in
  HonestLevy.processedVideoIds (HonestLevy.st r) !! Pages.cardAt = Some "AAAAAAAAAAA"
  /\ HonestLevy.processedVideoIds (HonestLevy.st r1) = ∅
  /\ extractVideoId (Common.findVideoLink "https://x/" doc' Pages.cardAt)
     = Some "AAAAAAAAAAA"
  /\ Cache.clean_title (Cache.get (HonestLevy.titlesCache (HonestLevy.st r2)) "AAAAAAAAAAA")
     = Some "Game one, annotated"
  /\ HonestLevy.scanPageCalls r3 = S (HonestLevy.scanPageCalls r)
  /\ Dom.textContentAt (HonestLevy.document (HonestLevy.st r3)) Offscreen.titleAt
     = Pages.clickbait.
Proof. vm_compute. repeat split. Qed.

(** C8 (amended): a navigation event empties the memory and arms a scan
    500 ms out, without scanning itself.  Take a card that was remembered
    for the tracked video A and, on the page the host renders next, links to
    A again and is in the viewport or still shows A's clean title.  When the
    armed timer fires, [scanPage] runs once on that page; if its cards are
    apart, its URL names no tracked video and the scan ends normally, the
    card shows A's clean title afterwards.  A card that still shows the
    clean title from before the navigation is left as it is and adds
    nothing to [replacedThisSession], which grows by what the calls on the
    page's cards count and by nothing else. *)
Theorem C8_navigation_reset
    (r : HonestLevy.Runtime) (e : Event) (doc' : Dom.node) (href' : string) (h' : Z)
    (c t : Dom.path) (A ct : string) (record : Cache.TitleData)
    (He : e = YtNavigateFinish \/ e = Popstate)
    (Hnav : HonestLevy.onYtNavigateFinish r = true)
    (Hpop : HonestLevy.onPopstate r = true)
    (Hen : HonestLevy.enabled (HonestLevy.st r) = true)
    (Hmem : HonestLevy.processedVideoIds (HonestLevy.st r) !! c = Some A)
    (Hrec : HonestLevy.titlesCache (HonestLevy.st r) !! A = Some record)
    (Hct : record !! "clean_title" = Some ct)
    (Hc : c ∈ Outcome.cards doc' HonestLevy.containerSelectors)
    (Hind : Dom.independent (Outcome.cards doc' HonestLevy.containerSelectors) = true)
    (Hwatch : Outcome.noWatchPage (Outcome.afterNavigation doc' href' h' (HonestLevy.st r))
              = true)
    (Hok : (HonestLevy.scanPage
              (Outcome.afterNavigation doc' href' h' (HonestLevy.st r))).2 = Js.Normal)
    (Hlink : extractVideoId (Common.findVideoLink href' doc' c) = Some A)
    (Htitle : HonestLevy.findTitleElement doc' c = Some t)
    (Hvis : HonestLevy.isElementVisible
              (Outcome.afterNavigation doc' href' h' (HonestLevy.st r)) c = true
            \/ Dom.textContentAt doc' t = ct) :
  let r1 := HonestLevy.dispatch r e in
  let r2 := HonestLevy.dispatch r1 (HostRender doc' href' h') in
  let r3 := HonestLevy.dispatch r2 (TimerFired (HonestLevy.nextTimer r)) in
  HonestLevy.processedVideoIds (HonestLevy.st r1) = ∅
  /\ HonestLevy.timers r1 !! HonestLevy.nextTimer r = Some 500
  /\ HonestLevy.scanPageCalls r2 = HonestLevy.scanPageCalls r
  /\ HonestLevy.st r2 = Outcome.afterNavigation doc' href' h' (HonestLevy.st r)
  /\ HonestLevy.st r3 = (HonestLevy.scanPage (HonestLevy.st r2)).1
  /\ HonestLevy.scanPageCalls r3 = S (HonestLevy.scanPageCalls r)
  /\ Dom.textContentAt (HonestLevy.document (HonestLevy.st r3)) t = ct
  /\ (Dom.textContentAt doc' t = ct ->
      Dom.nodeAt (HonestLevy.document (HonestLevy.st r3)) c = Dom.nodeAt doc' c
      /\ Outcome.counted c (HonestLevy.st r2) = 0)
  /\ HonestLevy.replacedThisSession (HonestLevy.st r3)
     = (HonestLevy.replacedThisSession (HonestLevy.st r)
        + sum_list ((fun c' => Outcome.counted c' (HonestLevy.st r2))
                      <$> Outcome.cards doc' HonestLevy.containerSelectors))%nat.
Proof.
  intros r1 r2 r3.
  set (s2 := Outcome.afterNavigation doc' href' h' (HonestLevy.st r)) in *.
  assert (Hr1 : r1 = HonestLevy.navigationCallback r).
  { subst r1. destruct He as [-> | ->]; simpl; [now rewrite Hnav | now rewrite Hpop]. }
  assert (Hs2 : HonestLevy.st r2 = s2) by (subst r2; rewrite Hr1; reflexivity).
  assert (Hc2 : HonestLevy.scanPageCalls r2 = HonestLevy.scanPageCalls r)
    by (subst r2; rewrite Hr1; reflexivity).
  assert (Ht2 : HonestLevy.timers r2 !! HonestLevy.nextTimer r = Some 500).
  { subst r2. rewrite Hr1. apply lookup_insert_eq. }
  assert (Hr3 : HonestLevy.st r3 = (HonestLevy.scanPage s2).1
                /\ HonestLevy.scanPageCalls r3 = S (HonestLevy.scanPageCalls r)).
  { subst r3. clearbody r1 r2. cbn [HonestLevy.dispatch]. rewrite Ht2.
    unfold HonestLevy.callScanPage. cbn [HonestLevy.st HonestLevy.setTimers]. rewrite Hs2.
    destruct (HonestLevy.scanPage s2) as [s' compl]. cbn. now rewrite Hc2. }
  destruct Hr3 as [Hs3 Hc3]. clearbody r1 r2 r3.
  pose proof (EngineFacts.Cache_get_own _ _ _ Hrec) as Hget.
  destruct (IsolationFacts.HL_scanPage_isolated s2 Hen Hind Hwatch Hok) as (W1 & _ & _ & W4).
  destruct (W1 c Hc) as [Hn _].
  assert (Hresidual : Dom.textContentAt doc' t = ct ->
                      HonestLevy.processVideoCard c s2 = (s2, Js.Normal)).
  { intros Htext. unfold HonestLevy.processVideoCard. subst s2. simpl.
    rewrite Hlink, lookup_empty, bool_decide_eq_false_2 by discriminate.
    rewrite Hget. simpl. rewrite Htitle, Hct, Htext.
    rewrite bool_decide_eq_true_2 by reflexivity.
    now destruct (negb _). }
  split; [rewrite Hr1; reflexivity |].
  split; [rewrite Hr1; apply lookup_insert_eq |].
  split; [exact Hc2 |]. split; [exact Hs2 |]. split; [now rewrite Hs2 |].
  split; [exact Hc3 |]. rewrite Hs3, Hs2. split; [| split; [| exact W4]].
  - destruct (decide (Dom.textContentAt doc' t = ct)) as [Htext | Hdiff].
    + pose proof (MoreDomFacts.firstElement_below _ _ _ _ Htitle) as Hb.
      pose proof (MoreDomFacts.below_prefix _ _ Hb) as [[q Hq] _].
      unfold Dom.textContentAt in Htext |- *.
      rewrite Hq, IsolationFacts.nodeAt_app, Hn, (Hresidual Htext).
      rewrite Hq, IsolationFacts.nodeAt_app in Htext. exact Htext.
    + destruct Hvis as [Hvis | Htext]; [| contradiction].
      apply (IsolationFacts.HL_scan_retitles s2 c t A ct record); try assumption.
      subst s2. simpl. rewrite lookup_empty. discriminate.
  - intros Htext. split.
    + rewrite Hn, (Hresidual Htext). reflexivity.
    + unfold Outcome.counted. rewrite (Hresidual Htext). simpl. lia.
Qed.

Lemma C8_witness :
  let r := Sessions.wiredHL in
  let doc' := Pages.listing Inputs.linkA Pages.clickbait in
  let r1 := HonestLevy.dispatch r YtNavigateFinish in
  let r2 := HonestLevy.dispatch r1 (HostRender doc' "https://x/results" 900) in
  let r3 := HonestLevy.dispatch r2 (TimerFired (HonestLevy.nextTimer r)) in
  HonestLevy.processedVideoIds (HonestLevy.st r1) = ∅
  /\ HonestLevy.timers r1 !! HonestLevy.nextTimer r = Some 500
  /\ HonestLevy.scanPageCalls r2 = HonestLevy.scanPageCalls r
  /\ HonestLevy.st r2 = Outcome.afterNavigation doc' "https://x/results" 900 (HonestLevy.st r)
  /\ HonestLevy.st r3 = (HonestLevy.scanPage (HonestLevy.st r2)).1
  /\ HonestLevy.scanPageCalls r3 = S (HonestLevy.scanPageCalls r)
  /\ Dom.textContentAt (HonestLevy.document (HonestLevy.st r3)) Pages.cardTitleAt
     = "Game one, annotated"
  /\ (Dom.textContentAt doc' Pages.cardTitleAt = "Game one, annotated" ->
      Dom.nodeAt (HonestLevy.document (HonestLevy.st r3)) Pages.cardAt
      = Dom.nodeAt doc' Pages.cardAt
      /\ Outcome.counted Pages.cardAt (HonestLevy.st r2) = 0)
  /\ HonestLevy.replacedThisSession (HonestLevy.st r3)
     = (HonestLevy.replacedThisSession (HonestLevy.st r)
        + sum_list ((fun c' => Outcome.counted c' (HonestLevy.st r2))
                      <$> Outcome.cards doc' HonestLevy.containerSelectors))%nat.
Proof.
  intros r doc'.
  apply (C8_navigation_reset r YtNavigateFinish doc' "https://x/results" 900
           Pages.cardAt Pages.cardTitleAt "AAAAAAAAAAA" "Game one, annotated"
           {[ "clean_title" := "Game one, annotated" ]});
    try (vm_compute; reflexivity).
  - left. reflexivity.
  - apply (bool_decide_eq_true_1
             (Pages.cardAt ∈ Outcome.cards doc' HonestLevy.containerSelectors)).
    vm_compute. reflexivity.
  - left. vm_compute. reflexivity.
Defined.




(** C10: an instance whose [getTitles] reply said [enabled: false] registers
    no observer and no listener.  A later storage push that sets [enabled]
    to true calls [scanPage] once and registers nothing either; from then on
    no mutation batch, navigation, scroll or timer event calls [scanPage]
    again, however many arrive, and no event of any kind gets a callback of
    the page registered. *)
Theorem C10_late_enable_never_wires
    (doc : Dom.node) (href : string) (h : Z) (titles : option (gmap string Cache.TitleData))
    (before after : list Event)
    (Hbefore : forallb Outcome.fromPage before = true)
    (Hafter : forallb Outcome.fromPage after = true) :
  let r1 := HonestLevy.dispatch (HonestLevy.start doc href h)
              (InitResponse (Some {| r_titles := titles; r_enabled := Some false |})) in
  let r2 := HonestLevy.run r1 before in
  let r3 := HonestLevy.dispatch r2
              (StorageChanged {| ch_enabled := Some true; ch_titles := None |} "local") in
  let r4 := HonestLevy.run r3 after in
  HonestLevy.scanPageCalls r2 = 0
  /\ HonestLevy.scanPageCalls r3 = 1
  /\ HonestLevy.enabled (HonestLevy.st r3) = true
  /\ Outcome.unwiredHL r3
  /\ HonestLevy.scanPageCalls r4 = 1
  /\ Outcome.unwiredHL r4
  /\ (forall later, Outcome.unwiredHL (HonestLevy.run r4 later)).
Proof.
  intros r1 r2 r3 r4.
  assert (Hu1 : Outcome.unwiredHL r1) by (now repeat split).
  destruct (SchedulerFacts.run_unwired before r1 Hu1 Hbefore) as (Hu2 & Hc2 & Ha2).
  fold r2 in Hu2, Hc2, Ha2.
  assert (H3 : r3 = (HonestLevy.callScanPage
                       (HonestLevy.setSt
                          (HonestLevy.setProcessedVideoIds ∅
                             (HonestLevy.setEnabled true (HonestLevy.st r2)))
                          (HonestLevy.setSt (HonestLevy.setEnabled true (HonestLevy.st r2)) r2))).1).
  { subst r3. simpl. unfold HonestLevy.onChanged. simpl.
    destruct (HonestLevy.callScanPage _) as [r' [| ex]]; reflexivity. }
  assert (Hc3 : HonestLevy.scanPageCalls r3 = 1).
  { rewrite H3, SchedulerFacts.callScanPage_calls. simpl. rewrite Hc2. reflexivity. }
  assert (Hu3 : Outcome.unwiredHL r3).
  { rewrite H3. apply SchedulerFacts.callScanPage_unwired. exact Hu2. }
  assert (He3 : HonestLevy.enabled (HonestLevy.st r3) = true).
  { rewrite H3. unfold HonestLevy.callScanPage.
    match goal with |- context [HonestLevy.scanPage ?s] =>
      pose proof (SchedulerFacts.scanPage_enabled s) as He;
      destruct (HonestLevy.scanPage s) as [s' c'] end.
    exact He. }
  assert (Ha3 : HonestLevy.awaitingTitles r3 = false).
  { rewrite H3, SchedulerFacts.callScanPage_awaiting. simpl. rewrite Ha2. reflexivity. }
  destruct (SchedulerFacts.run_unwired after r3 Hu3 Hafter) as (Hu4 & Hc4 & Ha4).
  fold r4 in Hu4, Hc4, Ha4.
  split; [rewrite Hc2; reflexivity |]. split; [exact Hc3 |]. split; [exact He3 |].
  split; [exact Hu3 |]. split; [congruence |]. split; [exact Hu4 |].
  intros later. apply SchedulerFacts.run_never_wires; congruence.
Qed.

Lemma C10_witness :
  let r1 := HonestLevy.dispatch
              (HonestLevy.start (Pages.listing Inputs.linkMagnus Pages.clickbait)
                 "https://x/" 900)
              (InitResponse (Some {| r_titles := Some Pages.magnus;
                                     r_enabled := Some false |})) in
  let r2 := HonestLevy.run r1 Sessions.browsing in
  let r3 := HonestLevy.dispatch r2
              (StorageChanged {| ch_enabled := Some true; ch_titles := None |} "local") in
  let r4 := HonestLevy.run r3 Sessions.browsing in
  HonestLevy.scanPageCalls r2 = 0
  /\ HonestLevy.scanPageCalls r3 = 1
  /\ HonestLevy.enabled (HonestLevy.st r3) = true
  /\ Outcome.unwiredHL r3
  /\ HonestLevy.scanPageCalls r4 = 1
  /\ Outcome.unwiredHL r4
  /\ (forall later, Outcome.unwiredHL (HonestLevy.run r4 later)).
Proof.
  apply (C10_late_enable_never_wires (Pages.listing Inputs.linkMagnus Pages.clickbait)
           "https://x/" 900 (Some Pages.magnus) Sessions.browsing Sessions.browsing);
    reflexivity.
Defined.

(** * Further properties of the code *)

Section Engine.
Import Dom Common DomFacts Outcome MoreDomFacts MoreEngineFacts.

(** X6: whatever [extractVideoId] returns is a token of the URL it was
    given: 11 identifier characters that follow one of the four leads
    ([?v=] or [&v=], [youtu.be/], [/shorts/], [/embed/]) somewhere in it. *)
Theorem extractVideoId_returns_a_token_of_the_url (url : option string) (tok : string)
    (H : extractVideoId url = Some tok) :
  exists u sh k, url = Some u /\ UrlShape.occurs sh u k tok.
Proof.
  destruct url as [u |]; [| discriminate]. exists u.
  assert (Hf : Pattern.firstCapture Pattern.patterns u = Some tok).
  { destruct u; [discriminate | exact H]. }
  clear H. unfold Pattern.patterns in Hf. simpl in Hf.
  assert (Hs : forall sh, Pattern.search (UrlShape.pattern sh) u = Some tok ->
                          exists k, UrlShape.occurs sh u k tok).
  { intros sh Hsh. apply PatternFacts.search_Some in Hsh as (k & Hk & Hm & _).
    exists k. now apply PatternFacts.occurs_matchHere. }
  destruct (Pattern.search Pattern.watchParam u) eqn:E1.
  { injection Hf as ->. destruct (Hs UrlShape.WatchParam E1) as [k Hk]. eauto. }
  destruct (Pattern.search Pattern.shortLink u) eqn:E2.
  { injection Hf as ->. destruct (Hs UrlShape.ShortLink E2) as [k Hk]. eauto. }
  destruct (Pattern.search Pattern.shortsPath u) eqn:E3.
  { injection Hf as ->. destruct (Hs UrlShape.ShortsPath E3) as [k Hk]. eauto. }
  destruct (Pattern.search Pattern.embedPath u) eqn:E4; [| discriminate].
  injection Hf as ->. destruct (Hs UrlShape.EmbedPath E4) as [k Hk]. eauto.
Qed.

Lemma extractVideoId_returns_a_token_of_the_url_witness :
  exists u sh k,
    Some "https://youtu.be/abcEFghiJKL?t=10" = Some u /\ UrlShape.occurs sh u k "abcEFghiJKL".
Proof.
  apply (extractVideoId_returns_a_token_of_the_url
           (Some "https://youtu.be/abcEFghiJKL?t=10") "abcEFghiJKL").
  vm_compute. reflexivity.
Defined.

(** X7: what a card is identified and retitled by is read from elements
    inside the card.  The link [findVideoLink] returns is the [href]
    property of an anchor strictly below the container that has an [href]
    attribute and is the first match of one of the five link selectors: the
    attribute resolved against the URL of the page, and not empty.  The
    page URL is part of what is read: when the first match of
    [a#video-title-link] has an empty [href] attribute, the card is read as
    linking to the page itself.  The title element either script finds is
    an element strictly below the container. *)
Theorem card_is_read_from_elements_inside_the_card (base : string) (doc : node) (c : path) :
  (forall link, findVideoLink base doc c = Some link ->
                exists sel p a r ch reference,
                  sel ∈ linkSelectors /\ querySelector doc c sel = Some p
                  /\ below c p = true /\ nodeAt doc p = Some (Element "a" a r ch)
                  /\ a !! "href" = Some reference
                  /\ link = Url.resolve base reference /\ link <> "")
  /\ (forall p a r ch,
         querySelector doc c [withId "video-title-link" (withName "a" any)] = Some p ->
         nodeAt doc p = Some (Element "a" a r ch) -> a !! "href" = Some "" ->
         Url.withoutFragment base <> "" ->
         findVideoLink base doc c = Some (Url.withoutFragment base))
  /\ (forall t, HonestLevy.findTitleElement doc c = Some t ->
                below c t = true /\ elementAt doc t)
  /\ (forall t, GothamClean.findTitleElement doc c = Some t ->
                below c t = true /\ elementAt doc t).
Proof.
  split; [| split; [| split]].
  - intros link. apply firstHref_inside.
  - intros p a r ch Hq Hn Ha Hbase. unfold findVideoLink, linkSelectors. cbn [firstHref].
    rewrite Hq. cbn [mbind option_bind]. unfold hrefAt. rewrite Hn. cbn [mbind option_bind href].
    rewrite Ha. change (Url.resolve base "") with (Url.withoutFragment base).
    destruct (Url.withoutFragment base) as [| x rest]; [now contradict Hbase | reflexivity].
  - intros t Ht. split; [now apply firstElement_below in Ht |].
    now apply EngineFacts.HL_findTitleElement_elementAt in Ht.
  - intros t Ht. split; [now apply firstElement_below in Ht |].
    now apply EngineFacts.GC_findTitleElement_elementAt in Ht.
Qed.

(** X8: [processVideoCard] changes nothing outside the card it is called
    on: every node that is neither inside the container nor one of its
    ancestors is after the call what it was before, in both scripts. *)
Theorem processVideoCard_changes_nothing_outside_the_card
    (h : HonestLevy.State) (g : GothamClean.State) (c p : path)
    (Hcp : ~ c `prefix_of` p) (Hpc : ~ p `prefix_of` c) :
  nodeAt (HonestLevy.document (HonestLevy.processVideoCard c h).1) p
  = nodeAt (HonestLevy.document h) p
  /\ nodeAt (GothamClean.document (GothamClean.processVideoCard c g).1) p
     = nodeAt (GothamClean.document g) p.
Proof.
  split.
  - destruct (EngineFacts.HL_processVideoCard_cases c h)
      as [E | (vid & t & _ & _ & _ & Ht & _ & _ & (Hd & _) & _)]; [now rewrite E |].
    rewrite Hd. apply firstElement_below in Ht.
    destruct (apart_from_card c t p Ht Hcp Hpc). now apply nodeAt_replace_apart.
  - destruct (EngineFacts.GC_processVideoCard_cases c g)
      as [E | (vid & t & _ & _ & _ & _ & Ht & _ & (Hd & _) & _)]; [now rewrite E |].
    rewrite Hd. apply firstElement_below in Ht.
    destruct (apart_from_card c t p Ht Hcp Hpc). now apply nodeAt_replace_apart.
Qed.

Lemma processVideoCard_changes_nothing_outside_the_card_witness :
  let h := Pages.honestLevy
             (Pages.twoCards Inputs.linkA Pages.clickbait Inputs.linkB Pages.clickbait)
             "https://x/" Pages.twoTitles in
  let g := Pages.gothamClean
             (Pages.twoCards Inputs.linkA Pages.clickbait Inputs.linkB Pages.clickbait)
             "https://x/" Pages.twoTitles in
  nodeAt (HonestLevy.document (HonestLevy.processVideoCard Pages.cardAt h).1)
    Pages.secondCardAt
  = nodeAt (HonestLevy.document h) Pages.secondCardAt
  /\ nodeAt (GothamClean.document (GothamClean.processVideoCard Pages.cardAt g).1)
       Pages.secondCardAt
     = nodeAt (GothamClean.document g) Pages.secondCardAt.
Proof.
  intros h g.
  apply (processVideoCard_changes_nothing_outside_the_card h g Pages.cardAt
           Pages.secondCardAt).
  - apply (bool_decide_eq_false_1 (Pages.cardAt `prefix_of` Pages.secondCardAt)).
    vm_compute. reflexivity.
  - apply (bool_decide_eq_false_1 (Pages.secondCardAt `prefix_of` Pages.cardAt)).
    vm_compute. reflexivity.
Defined.

End Engine.

Section Accounting.
Import Outcome AccountFacts.

(** X9: a scan reports every substitution it counts.  GothamClean's
    [scanPage] always ends normally, having sent one
    [incrementReplacedCount] message per card it counted in
    [replacedThisSession], plus one if it replaced the watch-page title
    (which it reports and does not count).  HonestLevy's does the same when
    it ends normally; when it throws, the card that threw was counted and
    not reported. *)
Theorem scan_reports_every_counted_substitution
    (h : HonestLevy.State) (g : GothamClean.State) :
  (let g' := (GothamClean.scanPage g).1 in
   exists k w,
     w <= 1
     /\ (extractVideoId (Some (GothamClean.location_href g)) = None -> w = 0)
     /\ (GothamClean.scanPage g).2 = Js.Normal
     /\ GothamClean.replacedThisSession g' = (GothamClean.replacedThisSession g + k)%nat
     /\ GothamClean.sent g' = (increments (k + w) ++ GothamClean.sent g)%list)
  /\ (let h' := (HonestLevy.scanPage h).1 in
      exists k w,
        w <= 1
        /\ (extractVideoId (Some (HonestLevy.location_href h)) = None -> w = 0)
        /\ HonestLevy.replacedThisSession h' = (HonestLevy.replacedThisSession h + k)%nat
        /\ match (HonestLevy.scanPage h).2 with
           | Js.Normal => HonestLevy.sent h' = (increments (k + w) ++ HonestLevy.sent h)%list
           | Js.Throw _ =>
               1 <= k /\ HonestLevy.sent h' = (increments (k - 1) ++ HonestLevy.sent h)%list
           end).
Proof.
  split.
  - intros g'. destruct (GC_scanPage_reported g) as [N (k & w & Hw & R & H0)].
    exists k, w. destruct R as (Hc & Hs & _). now repeat split.
  - intros h'. subst h'. unfold HonestLevy.scanPage. destruct (negb _).
    { exists 0, 0. simpl. rewrite Nat.add_0_r. repeat split; try reflexivity; lia. }
    destruct (HL_scanContainers_reported HonestLevy.containerSelectors h) as (k & R).
    destruct (HonestLevy.scanContainers _ h) as [s1 [| e]]; simpl.
    + destruct R as (Hc & Hs & _ & _ & _ & Hl & _). simpl in Hc, Hs, Hl.
      destruct (HL_processWatchPageTitle_reported s1) as (w & Hw & (Hc2 & Hs2 & _) & H0).
      exists k, w. split; [exact Hw |]. split; [now rewrite <- Hl |].
      split; [now rewrite Hc2 |].
      rewrite Hs2, Hs, Nat.sub_0_r, increments_add. reflexivity.
    + destruct R as (Hc & Hs & Hk & _). simpl in Hc, Hs, Hk.
      exists k, 0. simpl in Hs. repeat split; try reflexivity; try assumption; lia.
Qed.

End Accounting.

Section Scheduler.
Import HonestLevy Outcome.

(** X10: the observer debounces.  Of a burst of mutation batches, those
    that add nodes or change an [href] each cancel the pending 100 ms scan
    and arm a new one; the others do nothing.  After the burst no scan has
    run, exactly one timer of the burst is pending, and when it fires
    [scanPage] runs once. *)
Theorem observer_debounces_a_burst
    (r : Runtime) (burst : list (list MutationRecord)) (k : nat)
    (Hfresh : timersFresh r)
    (Hobs : observing r = true) (Hen : enabled (st r) = true)
    (Hk : length (filter (fun ms => shouldScan ms = true) burst) = S k) :
  let r' := run r (Mutations <$> burst) in
  let id := (nextTimer r + k)%nat in
  st r' = st r
  /\ scanPageCalls r' = scanPageCalls r
  /\ timers r' = <[id := 100]> (timers (clearTimeout (honestLevyScanTimeout r) r))
  /\ (forall j, nextTimer r <= j < id -> timers r' !! j = None)
  /\ scanPageCalls (dispatch r' (TimerFired id)) = S (scanPageCalls r)
  /\ timers (dispatch r' (TimerFired id)) = timers (clearTimeout (honestLevyScanTimeout r) r).
Proof.
  intros r' id.
  pose proof (DebounceFacts.burst_pending r burst Hfresh Hobs Hen) as H.
  rewrite Hk in H. destruct H as (Hst & Hc & _ & Hn & Ht & HT).
  fold r' in Hst, Hc, Hn, Ht, HT. fold id in HT, Ht, Hn.
  pose proof (DebounceFacts.clearTimeout_fresh r (honestLevyScanTimeout r) Hfresh) as Hf0.
  split; [exact Hst |]. split; [exact Hc |]. split; [exact HT |]. split.
  - intros j Hj. rewrite HT, lookup_insert_ne by lia.
    destruct (timers (clearTimeout (honestLevyScanTimeout r) r) !! j) as [d |] eqn:E;
      [| reflexivity].
    apply Hf0 in E. lia.
  - cbn [dispatch]. rewrite HT, lookup_insert_eq.
    unfold callScanPage. destruct (scanPage _) as [s' c] eqn:E. simpl.
    split; [now rewrite Hc |].
    rewrite delete_insert_eq. apply DebounceFacts.delete_fresh.
    intros j d Hl. apply Hf0 in Hl. unfold id. lia.
Qed.

Lemma observer_debounces_a_burst_witness :
  let r := Sessions.wiredHL in
  let r' := run r (Mutations <$> [ [Sessions.addedNodes 3]; [Sessions.addedNodes 0];
                                    [Sessions.hrefChanged]; [Sessions.addedNodes 1] ]) in
  st r' = st r
  /\ scanPageCalls r' = scanPageCalls r
  /\ timers r' = <[2 := 100]> (timers (clearTimeout (honestLevyScanTimeout r) r))
  /\ (forall j, nextTimer r <= j < 2 -> timers r' !! j = None)
  /\ scanPageCalls (dispatch r' (TimerFired 2)) = S (scanPageCalls r)
  /\ timers (dispatch r' (TimerFired 2)) = timers (clearTimeout (honestLevyScanTimeout r) r).
Proof.
  intros r r'.
  apply (observer_debounces_a_burst r
           [ [Sessions.addedNodes 3]; [Sessions.addedNodes 0];
             [Sessions.hrefChanged]; [Sessions.addedNodes 1] ] 2).
  - intros id d H. vm_compute in H. discriminate H.
  - vm_compute. reflexivity.
  - vm_compute. reflexivity.
  - vm_compute. reflexivity.
Defined.

(** X11: the scroll listener debounces in the same way, with 200 ms, and
    whether the script is enabled or not: after any number of scroll
    events one scroll timer is pending and no scan has run. *)
Theorem scroll_rescan_is_debounced (r : Runtime) (k : nat)
    (Hfresh : timersFresh r) (Hscroll : onScroll r = true) :
  let r' := run r (replicate (S k) Scroll) in
  let id := (nextTimer r + k)%nat in
  st r' = st r
  /\ scanPageCalls r' = scanPageCalls r
  /\ timers r' = <[id := 200]> (timers (clearTimeout (scrollTimeout r) r))
  /\ (forall j, nextTimer r <= j < id -> timers r' !! j = None)
  /\ scanPageCalls (dispatch r' (TimerFired id)) = S (scanPageCalls r).
Proof.
  intros r' id.
  destruct (ScrollFacts.scrolls_pending r k Hfresh Hscroll) as (Hst & Hc & _ & _ & Hn & Ht & HT).
  fold r' in Hst, Hc, Hn, Ht, HT. fold id in HT, Ht, Hn.
  pose proof (DebounceFacts.clearTimeout_fresh r (scrollTimeout r) Hfresh) as Hf0.
  split; [exact Hst |]. split; [exact Hc |]. split; [exact HT |]. split.
  - intros j Hj. rewrite HT, lookup_insert_ne by lia.
    destruct (timers (clearTimeout (scrollTimeout r) r) !! j) as [d |] eqn:E; [| reflexivity].
    apply Hf0 in E. lia.
  - cbn [dispatch]. rewrite HT, lookup_insert_eq.
    unfold callScanPage. destruct (scanPage _) as [s' c] eqn:E. simpl. now rewrite Hc.
Qed.

Lemma scroll_rescan_is_debounced_witness :
  let r := Sessions.wiredHL in
  let r' := run r (replicate 4 Scroll) in
  st r' = st r
  /\ scanPageCalls r' = scanPageCalls r
  /\ timers r' = <[3 := 200]> (timers (clearTimeout (scrollTimeout r) r))
  /\ (forall j, nextTimer r <= j < 3 -> timers r' !! j = None)
  /\ scanPageCalls (dispatch r' (TimerFired 3)) = S (scanPageCalls r).
Proof.
  intros r r'. apply (scroll_rescan_is_debounced r 3).
  - intros id d H. vm_compute in H. discriminate H.
  - vm_compute. reflexivity.
Defined.

(** X12: navigation rescans are not debounced.  Every [yt-navigate-finish]
    and [popstate] empties the memory and arms a 500 ms timer of its own;
    none cancels another, so [k] navigation events in a row lead to [k]
    calls of [scanPage]. *)
Theorem navigation_rescans_are_not_debounced
    (r : Runtime) (e : Event) (evs : list Event)
    (Hnav : onYtNavigateFinish r = true) (Hpop : onPopstate r = true)
    (Hall : forallb isNavigation (e :: evs) = true) :
  let k := S (length evs) in
  let r' := run r (e :: evs) in
  processedVideoIds (st r') = ∅
  /\ scanPageCalls r' = scanPageCalls r
  /\ (forall j, nextTimer r <= j < nextTimer r + k -> timers r' !! j = Some 500)
  /\ (forall j, j < nextTimer r -> timers r' !! j = timers r !! j)
  /\ scanPageCalls (run r' (TimerFired <$> seq (nextTimer r) k)) = (scanPageCalls r + k)%nat.
Proof.
  intros k r'.
  destruct (NavigationFacts.navigations r evs e Hnav Hpop Hall)
    as (Hst & Hc & _ & _ & Hn & HT).
  fold r' in Hst, Hc, Hn, HT. fold k in Hn, HT.
  split; [now rewrite Hst |]. split; [exact Hc |].
  split; [intros j Hj; rewrite HT; now rewrite bool_decide_eq_true_2 |].
  split; [intros j Hj; rewrite HT; rewrite bool_decide_eq_false_2 by lia; reflexivity |].
  rewrite NavigationFacts.fire_all; [now rewrite Hc |].
  intros j Hj. rewrite HT. rewrite bool_decide_eq_true_2 by lia. eauto.
Qed.

Lemma navigation_rescans_are_not_debounced_witness :
  let r := Sessions.wiredHL in
  let r' := run r [YtNavigateFinish; Popstate; YtNavigateFinish] in
  processedVideoIds (st r') = ∅
  /\ scanPageCalls r' = scanPageCalls r
  /\ (forall j, nextTimer r <= j < nextTimer r + 3 -> timers r' !! j = Some 500)
  /\ (forall j, j < nextTimer r -> timers r' !! j = timers r !! j)
  /\ scanPageCalls (run r' (TimerFired <$> seq (nextTimer r) 3)) = (scanPageCalls r + 3)%nat.
Proof.
  intros r r'.
  apply (navigation_rescans_are_not_debounced r YtNavigateFinish [Popstate; YtNavigateFinish]).
  - vm_compute. reflexivity.
  - vm_compute. reflexivity.
  - reflexivity.
Defined.

(** X13: what a successful [init] leaves behind.  With a reply that does
    not disable the script, [init] installs the reply's mapping (an empty one
    if the reply has none), runs [scanPage] once and arms no timer.  If that
    scan ends normally the observer and the three listeners are registered
    only then, and the script is live: a later burst of mutation batches, one
    of which at least adds nodes or changes an [href], scans nothing while
    it lasts and leads to exactly one more scan when its timer fires.  If
    the first scan throws, nothing is registered. *)
Theorem init_scans_once_then_wires (r : Runtime) (response : Response)
    (burst : list (list MutationRecord)) (k : nat)
    (Hwait : awaitingTitles r = true)
    (Hfresh : timersFresh r)
    (Hen : r_enabled response <> Some false)
    (Hk : length (filter (fun ms => shouldScan ms = true) burst) = S k) :
  let s1 := setEnabled true (setTitlesCache (default ∅ (r_titles response)) (st r)) in
  let r1 := dispatch r (InitResponse (Some response)) in
  let r2 := run r1 (Mutations <$> burst) in
  awaitingTitles r1 = false
  /\ scanPageCalls r1 = S (scanPageCalls r)
  /\ st r1 = (scanPage s1).1
  /\ titlesCache (st r1) = default ∅ (r_titles response)
  /\ timers r1 = timers r
  /\ ((scanPage s1).2 = Js.Normal ->
      observing r1 = true /\ onYtNavigateFinish r1 = true
      /\ onPopstate r1 = true /\ onScroll r1 = true
      /\ scanPageCalls r2 = S (scanPageCalls r)
      /\ scanPageCalls (dispatch r2 (TimerFired (nextTimer r + k)))
         = S (S (scanPageCalls r)))
  /\ ((scanPage s1).2 <> Js.Normal ->
      observing r1 = observing r /\ onYtNavigateFinish r1 = onYtNavigateFinish r
      /\ onPopstate r1 = onPopstate r /\ onScroll r1 = onScroll r).
Proof.
  intros s1 r1 r2.
  pose proof (WorkerFacts.HL_scanPage_settings s1) as [Htc Hena].
  assert (E : r1 = (initResume (Some response) r).1).
  { subst r1. cbn [dispatch]. now rewrite Hwait. }
  unfold initResume in E.
  cbn [st setSt setAwaitingTitles enabled setEnabled] in E.
  rewrite (bool_decide_eq_false_2 _ Hen) in E. cbn [negb] in E. fold s1 in E.
  unfold callScanPage in E. cbn [st setSt setAwaitingTitles] in E. fold s1 in E.
  destruct (scanPage s1) as [s' c] eqn:Es. cbn [fst snd] in *.
  destruct c as [| e]; cbn [fst] in E.
  - assert (Hf1 : timersFresh r1) by (rewrite E; exact Hfresh).
    assert (Ho1 : observing r1 = true) by (now rewrite E).
    assert (He1 : enabled (st r1) = true) by (rewrite E; exact Hena).
    assert (Hn1 : nextTimer r1 = nextTimer r) by (now rewrite E).
    assert (Hc1 : scanPageCalls r1 = S (scanPageCalls r)) by (now rewrite E).
    destruct (DebounceFacts.burst_then_timer r1 burst k Hf1 Ho1 He1 Hk) as [Hb Ht].
    fold r2 in Hb, Ht. rewrite Hn1 in Ht. rewrite Hc1 in Hb, Ht.
    split; [now rewrite E |]. split; [exact Hc1 |]. split; [now rewrite E |].
    split; [rewrite E; exact Htc |]. split; [now rewrite E |]. split.
    + intros _. rewrite E at 1 2 3 4. repeat split; try reflexivity; assumption.
    + intros Hc. now contradict Hc.
  - split; [now rewrite E |]. split; [now rewrite E |]. split; [now rewrite E |].
    split; [rewrite E; exact Htc |]. split; [now rewrite E |]. split.
    + intros Hc. discriminate Hc.
    + intros _. rewrite E. repeat split; reflexivity.
Qed.

Lemma init_scans_once_then_wires_witness :
  let r := start (Pages.listing Inputs.linkA Pages.clickbait) "https://x/" 900 in
  let response := {| r_titles := Some Pages.twoTitles; r_enabled := None |} in
  let burst := [[Sessions.addedNodes 1]; [Sessions.hrefChanged]] in
  let s1 := setEnabled true (setTitlesCache (default ∅ (r_titles response)) (st r)) in
  let r1 := dispatch r (InitResponse (Some response)) in
  let r2 := run r1 (Mutations <$> burst) in
  awaitingTitles r1 = false
  /\ scanPageCalls r1 = S (scanPageCalls r)
  /\ st r1 = (scanPage s1).1
  /\ titlesCache (st r1) = default ∅ (r_titles response)
  /\ timers r1 = timers r
  /\ ((scanPage s1).2 = Js.Normal ->
      observing r1 = true /\ onYtNavigateFinish r1 = true
      /\ onPopstate r1 = true /\ onScroll r1 = true
      /\ scanPageCalls r2 = S (scanPageCalls r)
      /\ scanPageCalls (dispatch r2 (TimerFired (nextTimer r + 1)))
         = S (S (scanPageCalls r)))
  /\ ((scanPage s1).2 <> Js.Normal ->
      observing r1 = observing r /\ onYtNavigateFinish r1 = onYtNavigateFinish r
      /\ onPopstate r1 = onPopstate r /\ onScroll r1 = onScroll r).
Proof.
  intros r response burst.
  apply (init_scans_once_then_wires r response burst 1);
    [reflexivity | | discriminate | reflexivity].
  intros id d Hl. vm_compute in Hl. discriminate Hl.
Defined.

(** X14: an [init] that fails stays failed.  When the [getTitles] request
    fails, or the first scan throws, no observer and no listener is ever
    registered afterwards, whatever events follow, and no event of the page
    (mutations, navigation, scrolling, timers) makes the script scan. *)
Theorem failed_init_never_observes
    (r : Runtime) (reply : option Response) (later : list Event)
    (Hun : unwiredHL r) (Hwait : awaitingTitles r = true)
    (Hfail : reply = None
             \/ exists response,
                  reply = Some response
                  /\ (scanPage (setEnabled true
                                  (setTitlesCache (default ∅ (r_titles response)) (st r)))).2
                     <> Js.Normal) :
  let r' := dispatch r (InitResponse reply) in
  unwiredHL (run r' later)
  /\ (forallb fromPage later = true -> scanPageCalls (run r' later) = scanPageCalls r').
Proof.
  intros r'.
  assert (Hr' : unwiredHL r' /\ awaitingTitles r' = false).
  { subst r'. cbn [dispatch]. rewrite Hwait.
    destruct Hfail as [-> | (response & -> & Hthrow)]; [now split |].
    unfold initResume. cbn [st setSt setAwaitingTitles enabled setEnabled].
    destruct (bool_decide (r_enabled response = Some false)) eqn:E; cbn [negb].
    - now split.
    - unfold callScanPage. cbn [st setSt setAwaitingTitles].
      destruct (scanPage _) as [s' c]. destruct c as [| e]; [now contradict Hthrow |].
      now split. }
  destruct Hr' as [Hun' Hw']. split.
  - now apply SchedulerFacts.run_never_wires.
  - intros Hpage. now apply SchedulerFacts.run_unwired.
Qed.

Lemma failed_init_never_observes_witness :
  let r := start (Pages.listing "https://x/watch?v=constructor" Pages.clickbait)
             "https://x/" 900 in
  let r' := dispatch r (InitResponse (Some {| r_titles := Some Pages.magnus;
                                             r_enabled := Some true |})) in
  unwiredHL (run r' Sessions.browsing)
  /\ (forallb fromPage Sessions.browsing = true ->
      scanPageCalls (run r' Sessions.browsing) = scanPageCalls r').
Proof.
  intros r r'.
  apply (failed_init_never_observes r
           (Some {| r_titles := Some Pages.magnus; r_enabled := Some true |})
           Sessions.browsing).
  - repeat split; reflexivity.
  - reflexivity.
  - right. eexists. split; [reflexivity |]. vm_compute. discriminate.
Defined.

End Scheduler.

Section BackgroundAndPopup.
Import Background WorkerFacts.

(** X15: the stored count under the two schedules of the increment handler,
    which is a storage read followed by a write in the read's callback.
    Handled one after the other, increment messages add up: the stored
    [replacedCount] grows by the sum of the counts, a count of 0 taken for 1
    and a missing [replacedCount] for 0, and no other key changes, nor do
    the alarms.  When the reads of several messages all return before the
    first callback runs, every callback adds to the same value, and what is
    stored in the end is that value plus the last count alone, however many
    messages there were. *)
Theorem replaced_count_adds_up_only_one_by_one
    (result : Storage) (w : Worker) (counts : list nat) (last : nat) :
  (let w' := oneByOne w counts in
   default 0 (replacedCount (storage w'))
   = (default 0 (replacedCount (storage w)) + sum_list (countOrOne <$> counts))%nat
   /\ (counts <> [] -> is_Some (replacedCount (storage w')))
   /\ titles (storage w') = titles (storage w)
   /\ enabled (storage w') = enabled (storage w)
   /\ showIndicator (storage w') = showIndicator (storage w)
   /\ lastUpdated (storage w') = lastUpdated (storage w)
   /\ titleCount (storage w') = titleCount (storage w)
   /\ alarms w' = alarms w)
  /\ (let w' := overlapped result w (counts ++ [last]) in
      replacedCount (storage w')
      = Some (default 0 (replacedCount result) + countOrOne last)%nat
      /\ titles (storage w') = titles (storage w)
      /\ enabled (storage w') = enabled (storage w)
      /\ showIndicator (storage w') = showIndicator (storage w)
      /\ lastUpdated (storage w') = lastUpdated (storage w)
      /\ titleCount (storage w') = titleCount (storage w)
      /\ alarms w' = alarms w).
Proof.
  split.
  - intros w'. destruct (oneByOne_sum w counts) as (Hc & (H1 & H2 & H3 & H4 & H5) & Ha).
    split; [exact Hc |]. split; [| now repeat split].
    intros Hne. subst w'.
    destruct counts as [| c counts _] using rev_ind; [now contradict Hne |].
    rewrite oneByOne_snoc. simpl. eauto.
  - intros w'. subst w'. rewrite overlapped_snoc. simpl.
    destruct (overlapped_frame result w counts) as ((H1 & H2 & H3 & H4 & H5) & Ha).
    now repeat split.
Qed.

(** X17: from the page to the stored count.  When the outbox was empty
    before, the messages of a scan of the enabled GothamClean script,
    handled one after the other, raise the stored [replacedCount] by the
    number of cards the scan counted in [replacedThisSession], and by one
    more exactly when the watch step changed the page, which it does by
    replacing the watch-page title and flagging it. *)
Theorem stored_count_follows_the_scan (g : GothamClean.State) (w : Worker)
    (Hen : GothamClean.enabled g = true)
    (Hsent : GothamClean.sent g = []) :
  let g1 := (GothamClean.scanContainers GothamClean.containerSelectors g).1 in
  let g' := (GothamClean.scanPage g).1 in
  let w' := oneByOne w (incrementCounts (GothamClean.sent g')) in
  let cards := (GothamClean.replacedThisSession g' - GothamClean.replacedThisSession g)%nat in
  g' = GothamClean.processWatchPageTitle g1
  /\ (GothamClean.document g' = GothamClean.document g1 ->
      default 0 (replacedCount (storage w'))
      = (default 0 (replacedCount (storage w)) + cards)%nat)
  /\ (GothamClean.document g' <> GothamClean.document g1 ->
      default 0 (replacedCount (storage w'))
      = (default 0 (replacedCount (storage w)) + cards + 1)%nat
      /\ exists t,
           Js.truthy (Dom.getAttributeAt (GothamClean.document g1) t
                        "data-gothamclean-replaced") = false
           /\ Dom.getAttributeAt (GothamClean.document g') t "data-gothamclean-replaced"
              = Some "true").
Proof.
  intros g1 g' w' cards.
  assert (Hg : g' = GothamClean.processWatchPageTitle g1).
  { subst g' g1. unfold GothamClean.scanPage. rewrite Hen. cbn [negb].
    destruct (AccountFacts.GC_scanContainers_reported GothamClean.containerSelectors g)
      as [N _].
    destruct (GothamClean.scanContainers _ g) as [s1 c1]. simpl in N. subst c1. reflexivity. }
  destruct (AccountFacts.GC_scanContainers_reported GothamClean.containerSelectors g)
    as [_ (k & Hk & Hs & _)].
  fold g1 in Hk, Hs. rewrite Hsent, app_nil_r, Nat.add_0_r in Hs.
  assert (Hcount : forall sent',
             GothamClean.sent g' = sent' ->
             default 0 (replacedCount (storage w'))
             = (default 0 (replacedCount (storage w))
                + sum_list (countOrOne <$> incrementCounts sent'))%nat).
  { intros sent' <-. subst w'.
    now destruct (oneByOne_sum w (incrementCounts (GothamClean.sent g'))). }
  split; [exact Hg |].
  destruct (AccountFacts.GC_processWatchPageTitle_cases g1) as [E | (t & Hf & Ht & Hn & Hm)];
    rewrite <- Hg in *.
  - assert (Hcards : cards = k) by (subst cards; rewrite E, Hk; lia).
    split.
    + intros _. rewrite (Hcount _ (f_equal GothamClean.sent E)), Hs.
      rewrite incrementCounts_increments, sum_list_ones. lia.
    + intros Hne. contradict Hne. now rewrite E.
  - assert (Hcards : cards = k) by (subst cards; rewrite Hn, Hk; lia).
    split.
    + intros Heq. rewrite Heq in Ht. rewrite Ht in Hf. discriminate Hf.
    + intros _. split; [| now exists t].
      rewrite (Hcount _ Hm), Hs.
      change (IncrementReplacedCount 1 :: Outcome.increments k)
        with (Outcome.increments (S k)).
      rewrite incrementCounts_increments, sum_list_ones. lia.
Qed.

Lemma stored_count_follows_the_scan_witness :
  let g := Pages.gothamClean (Pages.watching [] Pages.clickbait) Inputs.linkA Pages.twoTitles in
  let g1 := (GothamClean.scanContainers GothamClean.containerSelectors g).1 in
  let g' := (GothamClean.scanPage g).1 in
  let w' := oneByOne Workers.blank (incrementCounts (GothamClean.sent g')) in
  let cards := (GothamClean.replacedThisSession g' - GothamClean.replacedThisSession g)%nat in
  g' = GothamClean.processWatchPageTitle g1
  /\ (GothamClean.document g' = GothamClean.document g1 ->
      default 0 (replacedCount (storage w'))
      = (default 0 (replacedCount (storage Workers.blank)) + cards)%nat)
  /\ (GothamClean.document g' <> GothamClean.document g1 ->
      default 0 (replacedCount (storage w'))
      = (default 0 (replacedCount (storage Workers.blank)) + cards + 1)%nat
      /\ exists t,
           Js.truthy (Dom.getAttributeAt (GothamClean.document g1) t
                        "data-gothamclean-replaced") = false
           /\ Dom.getAttributeAt (GothamClean.document g') t "data-gothamclean-replaced"
              = Some "true").
Proof.
  intros g.
  apply (stored_count_follows_the_scan g Workers.blank); reflexivity.
Defined.

(** X18: [titles], [titleCount] and [lastUpdated] stay in step.  Starting
    from a storage in which the three are present together, with
    [titleCount] the number of keys of [titles], or absent together, every
    sequence of worker events (install, alarms, browser starts, messages
    with whatever their reads returned, the popup's toggle) leaves them so,
    whatever the network returned; and the popup then shows the number of
    keys of the cached value, 0 when there is none. *)
Theorem popup_shows_the_number_of_cached_titles
    (w : Worker) (events : list WorkerEvent) (now : Z)
    (Hinv : consistent (storage w)) :
  let s := storage (run w events) in
  consistent s
  /\ Popup.titleCount_textContent (Popup.loadState now s)
     = pretty (from_option keys 0%nat (titles s)).
Proof.
  intros s. assert (Hs : consistent s) by now apply run_consistent.
  split; [exact Hs |]. unfold Popup.loadState. simpl.
  unfold consistent in Hs. destruct (titles s) as [t |]; simpl.
  - destruct Hs as [-> _]. simpl. destruct (keys t) as [| n] eqn:E; [| reflexivity].
    destruct t as [m | n | n | z | b]; simpl in E |- *; try subst; try reflexivity.
    + now rewrite E.
    + destruct z; reflexivity.
    + destruct b; reflexivity.
  - destruct Hs as [-> _]. simpl. now rewrite map_size_empty.
Qed.

Lemma popup_shows_the_number_of_cached_titles_witness :
  let s := storage (run Workers.blank Workers.history) in
  consistent s
  /\ Popup.titleCount_textContent (Popup.loadState 108002000 s)
     = pretty (from_option keys 0%nat (titles s)).
Proof.
  apply (popup_shows_the_number_of_cached_titles Workers.blank Workers.history 108002000).
  split; reflexivity.
Defined.

(** X19: a refresh that fails keeps the cache.  When the [fetch] rejects,
    the status is not ok, the body is not JSON or is [null],
    [fetchAndCacheTitles] returns [false] and leaves the storage exactly as
    it found it; so [titles], [titleCount] and [lastUpdated] come unchanged
    through every sequence of worker events whose refreshes fail.  A
    refresh that does not fail stores the body it got in place of the cached
    value, whatever that body is, an object or not. *)
Theorem failed_refresh_keeps_the_cache
    (w : Worker) (events : list WorkerEvent)
    (Hfail : forallb refreshFails events = true) :
  let s' := storage (run w events) in
  titles s' = titles (storage w)
  /\ titleCount s' = titleCount (storage w)
  /\ lastUpdated s' = lastUpdated (storage w)
  /\ (forall fetched now s,
         fails fetched = true -> fetchAndCacheTitles fetched now s = (s, false))
  /\ (forall fetched now s,
         fails fetched = false ->
         exists body,
           fetched = Http true (Value body)
           /\ titles (fetchAndCacheTitles fetched now s).1 = Some body
           /\ titleCount (fetchAndCacheTitles fetched now s).1 = Some (keys body)
           /\ lastUpdated (fetchAndCacheTitles fetched now s).1 = Some now).
Proof.
  intros s'. destruct (run_keeps_cache events w Hfail) as (H1 & H2 & H3).
  split; [exact H1 |]. split; [exact H2 |]. split; [exact H3 |].
  split; [apply fetch_fails |].
  intros fetched now s Hf. destruct fetched as [| [] [| | body]]; try discriminate Hf.
  exists body. now repeat split.
Qed.

Lemma failed_refresh_keeps_the_cache_witness :
  let w := run Workers.blank (take 2 Workers.history) in
  let s' := storage (run w (drop 2 Workers.history)) in
  titles s' = titles (storage w)
  /\ titleCount s' = titleCount (storage w)
  /\ lastUpdated s' = lastUpdated (storage w)
  /\ (forall fetched now s,
         fails fetched = true -> fetchAndCacheTitles fetched now s = (s, false))
  /\ (forall fetched now s,
         fails fetched = false ->
         exists body,
           fetched = Http true (Value body)
           /\ titles (fetchAndCacheTitles fetched now s).1 = Some body
           /\ titleCount (fetchAndCacheTitles fetched now s).1 = Some (keys body)
           /\ lastUpdated (fetchAndCacheTitles fetched now s).1 = Some now).
Proof.
  intros w. apply (failed_refresh_keeps_the_cache w (drop 2 Workers.history)). reflexivity.
Defined.

(** X20: at browser start the cache is refreshed exactly when it is missing
    or stale.  With a truthy [titles] (every object is) and a non-zero
    [lastUpdated] at most six hours (21600000 ms) behind the clock, a future
    timestamp included, [onStartup] leaves the worker as it is, whatever
    the network would answer; with [titles] missing or falsy, [lastUpdated]
    missing or 0, or more than six hours old, it runs
    [fetchAndCacheTitles]. *)
Theorem startup_refreshes_only_a_missing_or_stale_cache
    (fetched : Fetched) (now later : Z) (w : Worker) :
  (forall m t,
      titles (storage w) = Some m -> truthy m = true ->
      lastUpdated (storage w) = Some t ->
      t <> 0%Z -> (now - t <= 21600000)%Z ->
      onStartup fetched now later w = w)
  /\ (forall m t,
         titles (storage w) = Some (JObject m) -> lastUpdated (storage w) = Some t ->
         t <> 0%Z -> (now - t <= 21600000)%Z ->
         onStartup fetched now later w = w)
  /\ (titles (storage w) = None
      \/ (exists m, titles (storage w) = Some m /\ truthy m = false)
      \/ lastUpdated (storage w) = None
      \/ lastUpdated (storage w) = Some 0%Z
      \/ (exists t, lastUpdated (storage w) = Some t /\ (21600000 < now - t)%Z) ->
      onStartup fetched now later w
      = setStorage (fetchAndCacheTitles fetched later (storage w)).1 w).
Proof.
  assert (Hkeep : forall m t,
             titles (storage w) = Some m -> truthy m = true ->
             lastUpdated (storage w) = Some t ->
             t <> 0%Z -> (now - t <= 21600000)%Z ->
             onStartup fetched now later w = w).
  { intros m t Hm Htr Ht Hne Hage. unfold onStartup. rewrite Hm, Ht. simpl. rewrite Htr.
    simpl.
    destruct t as [| p | p]; [now contradict Hne | |];
      (match goal with |- context [Z.ltb ?a ?b] => destruct (Z.ltb_spec a b) end;
       [unfold REFRESH_INTERVAL_HOURS in *; lia | reflexivity]). }
  split; [exact Hkeep |]. split.
  - intros m t Hm. now apply (Hkeep (JObject m) t Hm).
  - intros H. unfold onStartup.
    destruct H as [H | [(m & H & Hf) | [H | [H | (t & H & Hage)]]]]; rewrite H.
    + reflexivity.
    + simpl. now rewrite Hf.
    + now rewrite orb_true_r.
    + now rewrite orb_true_r.
    + destruct t as [| p | p]; [now rewrite orb_true_r | |];
        (match goal with |- context [Z.ltb ?a ?b] => destruct (Z.ltb_spec a b) end;
         [now rewrite orb_true_r | unfold REFRESH_INTERVAL_HOURS in *; lia]).
Qed.

(** X21: the three readers of [enabled] agree.  For every storage whose
    [titles] the content scripts can read (none stored, an object, or a
    falsy value, which the worker replaces by an empty object), the reply
    of the worker to [getTitles] makes a starting HonestLevy script enabled
    exactly when the popup shows the toggle checked, that is unless
    [enabled] is stored as [false]; and the script works with the stored
    mapping, an empty one when none is stored. *)
Theorem enabled_default_is_the_same_everywhere
    (s : Storage) (now : Z) (doc : Dom.node) (href : string) (h : Z) (response : Response)
    (Hread : received (getTitlesReply s) = Some response) :
  let r := HonestLevy.dispatch (HonestLevy.start doc href h)
             (InitResponse (Some response)) in
  HonestLevy.enabled (HonestLevy.st r) = Popup.enableToggle_checked (Popup.loadState now s)
  /\ (HonestLevy.enabled (HonestLevy.st r) = false <-> enabled s = Some false)
  /\ JObject (HonestLevy.titlesCache (HonestLevy.st r)) = orEmptyObject (titles s)
  /\ (forall m, titles s = Some (JObject m) -> HonestLevy.titlesCache (HonestLevy.st r) = m)
  /\ (titles s = None -> HonestLevy.titlesCache (HonestLevy.st r) = ∅).
Proof.
  intros r.
  assert (Hresp : exists m, orEmptyObject (titles s) = JObject m
                            /\ response = {| r_titles := Some m;
                                             r_enabled := Some (negb (bool_decide
                                                                  (enabled s = Some false))) |}).
  { unfold received, getTitlesReply in Hread. cbn [reply_titles reply_enabled] in Hread.
    destruct (orEmptyObject (titles s)) as [m | | | |]; try discriminate Hread.
    exists m. split; [reflexivity |]. now injection Hread as <-. }
  destruct Hresp as (m & Hm & ->).
  assert (Hmain : HonestLevy.enabled (HonestLevy.st r)
                  = Popup.enableToggle_checked (Popup.loadState now s)
                  /\ (HonestLevy.enabled (HonestLevy.st r) = false <-> enabled s = Some false)
                  /\ HonestLevy.titlesCache (HonestLevy.st r) = m).
  { subst r. cbn [HonestLevy.dispatch HonestLevy.start HonestLevy.awaitingTitles].
    unfold HonestLevy.initResume. cbn [r_enabled r_titles].
    cbn [HonestLevy.st HonestLevy.setSt HonestLevy.setAwaitingTitles HonestLevy.enabled
         HonestLevy.setEnabled].
    unfold Popup.loadState. cbn [Popup.enableToggle_checked].
    destruct (bool_decide (enabled s = Some false)) eqn:E.
    - apply bool_decide_eq_true_1 in E. simpl. repeat split; auto.
    - apply bool_decide_eq_false_1 in E. simpl.
      unfold HonestLevy.callScanPage. cbn [HonestLevy.st HonestLevy.setSt].
      match goal with |- context [HonestLevy.scanPage ?x] =>
        pose proof (HL_scanPage_settings x) as [Ht He];
        destruct (HonestLevy.scanPage x) as [s' c]
      end.
      simpl in Ht, He.
      assert (Hgoal : HonestLevy.enabled s' = true
                      /\ (HonestLevy.enabled s' = false <-> enabled s = Some false)
                      /\ HonestLevy.titlesCache s' = m).
      { rewrite Ht, He. split; [reflexivity |]. split; [| reflexivity].
        split; [discriminate | intros H; now contradict E]. }
      destruct c; exact Hgoal. }
  destruct Hmain as (H1 & H2 & H3). clearbody r.
  split; [exact H1 |]. split; [exact H2 |]. rewrite H3. split; [now rewrite Hm |]. split.
  - intros m' Hs. rewrite Hs in Hm. simpl in Hm. now injection Hm as ->.
  - intros Hs. rewrite Hs in Hm. simpl in Hm. now injection Hm as <-.
Qed.

Lemma enabled_default_is_the_same_everywhere_witness :
  let s := storage (run Workers.blank Workers.history) in
  let response := {| r_titles := Some Pages.twoTitles; r_enabled := Some false |} in
  let r := HonestLevy.dispatch
             (HonestLevy.start (Pages.listing Inputs.linkA Pages.clickbait) "https://x/" 900)
             (InitResponse (Some response)) in
  HonestLevy.enabled (HonestLevy.st r)
  = Popup.enableToggle_checked (Popup.loadState 108002000 s)
  /\ (HonestLevy.enabled (HonestLevy.st r) = false <-> enabled s = Some false)
  /\ JObject (HonestLevy.titlesCache (HonestLevy.st r)) = orEmptyObject (titles s)
  /\ (forall m, titles s = Some (JObject m) -> HonestLevy.titlesCache (HonestLevy.st r) = m)
  /\ (titles s = None -> HonestLevy.titlesCache (HonestLevy.st r) = ∅).
Proof.
  intros s response.
  apply (enabled_default_is_the_same_everywhere s 108002000
           (Pages.listing Inputs.linkA Pages.clickbait) "https://x/" 900 response).
  reflexivity.
Defined.

(** X22: every [onInstalled] event, whatever its reason and whatever the
    fetch does, stores [enabled = true] and [replacedCount = 0] and sets the
    360-minute alarm: a script that starts afterwards is enabled and the
    popup shows a count of 0, whatever the user had set or the scripts had
    counted before. *)
Theorem install_event_resets_the_settings
    (fetched : Fetched) (now : Z) (w : Worker) :
  let w' := step w (Installed fetched now) in
  enabled (storage w') = Some true
  /\ replacedCount (storage w') = Some 0
  /\ alarms w' !! ALARM_NAME = Some 360%Z
  /\ reply_enabled (getTitlesReply (storage w')) = true
  /\ Popup.replacedCount_textContent (Popup.loadState now (storage w')) = "0".
Proof.
  intros w'. subst w'. destruct fetched as [| [] [| | t]]; simpl;
    rewrite lookup_insert_eq; repeat split; reflexivity.
Qed.

End BackgroundAndPopup.

Section PopupTime.
Import Popup.

(** X23: what [formatRelativeTime] shows.  No timestamp and the timestamp
    0 read [Never].  Otherwise, an age below one minute, a negative one
    included, reads [Just now]; from one minute up to an hour the label is
    the whole minutes, between 1 and 59; from an hour up to a day the whole
    hours, between 1 and 23; from a day on the whole days, at least 1. *)
Theorem formatRelativeTime_ranges (now t : Z) :
  let d := (now - t)%Z in
  formatRelativeTime now None = "Never"
  /\ formatRelativeTime now (Some 0%Z) = "Never"
  /\ (t <> 0%Z -> (d < 60000)%Z -> formatRelativeTime now (Some t) = "Just now")
  /\ (t <> 0%Z -> (60000 <= d < 3600000)%Z ->
      (1 <= d / 60000 <= 59)%Z
      /\ formatRelativeTime now (Some t) = pretty (d / 60000)%Z +:+ "m ago")
  /\ (t <> 0%Z -> (3600000 <= d < 86400000)%Z ->
      (1 <= d / 3600000 <= 23)%Z
      /\ formatRelativeTime now (Some t) = pretty (d / 3600000)%Z +:+ "h ago")
  /\ (t <> 0%Z -> (86400000 <= d)%Z ->
      (1 <= d / 86400000)%Z
      /\ formatRelativeTime now (Some t) = pretty (d / 86400000)%Z +:+ "d ago").
Proof.
  intros d. split; [reflexivity |]. split; [reflexivity |].
  assert (Hf : t <> 0%Z ->
               formatRelativeTime now (Some t)
               = if (d / 60000 <? 1)%Z then "Just now"
                 else if (d / 60000 <? 60)%Z then pretty (d / 60000)%Z +:+ "m ago"
                 else if (d / 3600000 <? 24)%Z then pretty (d / 3600000)%Z +:+ "h ago"
                 else pretty (d / 86400000)%Z +:+ "d ago").
  { intros Ht. destruct t; [now contradict Ht | reflexivity | reflexivity]. }
  assert (Hm : (60000 <= d -> 1 <= d / 60000)%Z)
    by (intros; Z.to_euclidean_division_equations; lia).
  assert (Hm' : (d < 3600000 -> d / 60000 <= 59)%Z)
    by (intros; Z.to_euclidean_division_equations; lia).
  assert (Hh : (3600000 <= d -> 60 <= d / 60000 /\ 1 <= d / 3600000)%Z)
    by (intros; Z.to_euclidean_division_equations; lia).
  assert (Hh' : (d < 86400000 -> d / 3600000 <= 23)%Z)
    by (intros; Z.to_euclidean_division_equations; lia).
  assert (Hd : (86400000 <= d -> 24 <= d / 3600000 /\ 1 <= d / 86400000)%Z)
    by (intros; Z.to_euclidean_division_equations; lia).
  assert (Hj : (d < 60000 -> d / 60000 < 1)%Z)
    by (intros; Z.to_euclidean_division_equations; lia).
  split; [| split; [| split]].
  - intros Ht H. rewrite (Hf Ht).
    destruct (Z.ltb_spec (d / 60000) 1); [reflexivity | lia].
  - intros Ht H. rewrite (Hf Ht). split; [lia |].
    destruct (Z.ltb_spec (d / 60000) 1); [lia |].
    destruct (Z.ltb_spec (d / 60000) 60); [reflexivity | lia].
  - intros Ht H. rewrite (Hf Ht). split; [lia |].
    destruct (Z.ltb_spec (d / 60000) 1); [lia |].
    destruct (Z.ltb_spec (d / 60000) 60); [lia |].
    destruct (Z.ltb_spec (d / 3600000) 24); [reflexivity | lia].
  - intros Ht H. rewrite (Hf Ht). split; [lia |].
    destruct (Z.ltb_spec (d / 60000) 1); [lia |].
    destruct (Z.ltb_spec (d / 60000) 60); [lia |].
    destruct (Z.ltb_spec (d / 3600000) 24); [lia | reflexivity].
Qed.

End PopupTime.

Section Channel.
Import Dom Common Outcome ChannelFacts.

(** X24: what it takes for a card to be attributed to the channel.  When
    the fragment test of [isGothamChessVideo] succeeds, some element
    strictly inside the container names the channel: its lower-cased text
    contains [gothamchess], [gotham chess] or [levy rozman], or its [href]
    property contains [@GothamChess], the channel id or [/c/GothamChess].
    A link inside the container whose [href] property contains one of the
    three is enough for the test to succeed.  The property is the attribute
    resolved against the URL of the page, so the marker may come from that
    URL: a link with an empty [href] attribute is enough on a page whose
    URL holds the handle.  GothamClean's [processVideoCard] changes nothing
    on a card without such an element, and HonestLevy's
    [isGothamChessVideo] says yes to one only on the channel's own pages. *)
Theorem channel_attribution_needs_an_element_of_the_card
    (base : string) (doc : node) (c : path) :
  (fragmentSaysGothamChess base doc c = true -> namesChannel base doc c)
  /\ (forall p a r ch reference,
         below c p = true -> nodeAt doc p = Some (Element "a" a r ch) ->
         a !! "href" = Some reference ->
         Js.includes (Url.resolve base reference) GOTHAMCHESS_HANDLE = true
         \/ Js.includes (Url.resolve base reference) GOTHAMCHESS_CHANNEL_ID = true
         \/ Js.includes (Url.resolve base reference) "/c/GothamChess" = true ->
         fragmentSaysGothamChess base doc c = true)
  /\ (forall p a r ch,
         below c p = true -> nodeAt doc p = Some (Element "a" a r ch) ->
         a !! "href" = Some "" ->
         Js.includes (Url.withoutFragment base) GOTHAMCHESS_HANDLE = true ->
         fragmentSaysGothamChess base doc c = true)
  /\ (forall g,
         GothamClean.document g = doc -> GothamClean.location_href g = base ->
         GothamClean.processVideoCard c g <> (g, Js.Normal) ->
         namesChannel base doc c)
  /\ (forall s,
         HonestLevy.document s = doc -> HonestLevy.location_href s = base ->
         HonestLevy.isOnGothamChessPage s = false ->
         HonestLevy.isGothamChessVideo s c = true ->
         namesChannel base doc c).
Proof.
  split; [apply fragment_evidence |]. split; [apply channelLink_sound |]. split; [| split].
  - intros p a r ch Hb Hn Ha Hinc.
    apply (channelLink_sound base doc c p a r ch "" Hb Hn Ha). now left.
  - intros g <- <- Hchanged.
    destruct (EngineFacts.GC_processVideoCard_cases c g)
      as [E | (vid & t & _ & Hch & _)]; [now contradict Hchanged |].
    now apply fragment_evidence.
  - intros s <- <- Hpage. unfold HonestLevy.isGothamChessVideo. rewrite Hpage.
    apply fragment_evidence.
Qed.

End Channel.

Section Isolation.
Import Dom Common Outcome DomFacts MoreDomFacts IsolationFacts.

(** X25: on a page whose cards are apart from each other (none is inside
    another), a HonestLevy scan that ends normally treats every card as if
    it alone had been processed on the page as it was before the scan: the
    card's subtree and its entry in [processedVideoIds] are what one call of
    [processVideoCard] on the original state gives, every node apart from
    all cards is unchanged, and [replacedThisSession] has grown by the sum
    of what the single calls count.  (Stated for a page whose URL names no
    tracked video, so that the watch-page step has nothing to do.) *)
Theorem scan_treats_every_card_alone (s : HonestLevy.State)
    (Hen : HonestLevy.enabled s = true)
    (Hind : independent (cards (HonestLevy.document s) HonestLevy.containerSelectors) = true)
    (Hwatch : noWatchPage s = true)
    (Hok : (HonestLevy.scanPage s).2 = Js.Normal) :
  let s' := (HonestLevy.scanPage s).1 in
  let walk := cards (HonestLevy.document s) HonestLevy.containerSelectors in
  (forall c, c ∈ walk ->
             nodeAt (HonestLevy.document s') c
             = nodeAt (HonestLevy.document (HonestLevy.processVideoCard c s).1) c
             /\ HonestLevy.processedVideoIds s' !! c
                = HonestLevy.processedVideoIds (HonestLevy.processVideoCard c s).1 !! c)
  /\ (forall p, (forall c, c ∈ walk -> apart c p) ->
                nodeAt (HonestLevy.document s') p = nodeAt (HonestLevy.document s) p)
  /\ HonestLevy.replacedThisSession s'
     = (HonestLevy.replacedThisSession s + sum_list ((fun c => counted c s) <$> walk))%nat.
Proof.
  intros s' walk.
  destruct (HL_scanPage_isolated s Hen Hind Hwatch Hok) as (W1 & W2 & _ & W4).
  split; [exact W1 |]. split; [| exact W4].
  intros p Hp. now destruct (W2 p Hp).
Qed.

Lemma scan_treats_every_card_alone_witness :
  let s := Pages.honestLevy
             (Pages.twoCards Inputs.linkA Pages.clickbait Inputs.linkB Pages.clickbait)
             "https://x/" Pages.twoTitles in
  let s' := (HonestLevy.scanPage s).1 in
  let walk := cards (HonestLevy.document s) HonestLevy.containerSelectors in
  (forall c, c ∈ walk ->
             nodeAt (HonestLevy.document s') c
             = nodeAt (HonestLevy.document (HonestLevy.processVideoCard c s).1) c
             /\ HonestLevy.processedVideoIds s' !! c
                = HonestLevy.processedVideoIds (HonestLevy.processVideoCard c s).1 !! c)
  /\ (forall p, (forall c, c ∈ walk -> apart c p) ->
                nodeAt (HonestLevy.document s') p = nodeAt (HonestLevy.document s) p)
  /\ HonestLevy.replacedThisSession s'
     = (HonestLevy.replacedThisSession s + sum_list ((fun c => counted c s) <$> walk))%nat.
Proof.
  intros s. apply (scan_treats_every_card_alone s); vm_compute; reflexivity.
Defined.

(** X26: what a scan achieves.  Under the same conditions, every card the
    scan walks that is in the viewport, links to a video the mapping holds
    with a [clean_title], is not remembered for that video and has a title
    element, shows that clean title after the scan; and if the title had
    to change, the card is remembered for the video and the title element
    carries [data-honestlevy-replaced] and the original text. *)
Theorem scan_retitles_every_visible_tracked_card
    (s : HonestLevy.State) (c t : path) (vid ct : string) (record : Cache.TitleData)
    (Hen : HonestLevy.enabled s = true)
    (Hind : independent (cards (HonestLevy.document s) HonestLevy.containerSelectors) = true)
    (Hwatch : noWatchPage s = true)
    (Hok : (HonestLevy.scanPage s).2 = Js.Normal)
    (Hc : c ∈ cards (HonestLevy.document s) HonestLevy.containerSelectors)
    (Hlink : extractVideoId (findVideoLink (HonestLevy.location_href s)
                               (HonestLevy.document s) c) = Some vid)
    (Hmem : HonestLevy.processedVideoIds s !! c <> Some vid)
    (Hrec : HonestLevy.titlesCache s !! vid = Some record)
    (Hct : record !! "clean_title" = Some ct)
    (Htitle : HonestLevy.findTitleElement (HonestLevy.document s) c = Some t)
    (Hvis : HonestLevy.isElementVisible s c = true) :
  let s' := (HonestLevy.scanPage s).1 in
  textContentAt (HonestLevy.document s') t = ct
  /\ (textContentAt (HonestLevy.document s) t <> ct ->
      HonestLevy.processedVideoIds s' !! c = Some vid
      /\ getAttributeAt (HonestLevy.document s') t "data-honestlevy-replaced" = Some "true"
      /\ getAttributeAt (HonestLevy.document s') t "data-honestlevy-original"
         = Some (textContentAt (HonestLevy.document s) t)).
Proof.
  exact (HL_scan_retitles s c t vid ct record Hen Hind Hwatch Hok Hc Hlink Hmem Hrec Hct
           Htitle Hvis).
Qed.

Lemma scan_retitles_every_visible_tracked_card_witness :
  let s := Pages.honestLevy
             (Pages.twoCards Inputs.linkA Pages.clickbait Inputs.linkB Pages.clickbait)
             "https://x/" Pages.twoTitles in
  let s' := (HonestLevy.scanPage s).1 in
  textContentAt (HonestLevy.document s') Pages.secondCardTitleAt = "Game two, annotated"
  /\ (textContentAt (HonestLevy.document s) Pages.secondCardTitleAt <> "Game two, annotated" ->
      HonestLevy.processedVideoIds s' !! Pages.secondCardAt = Some "BBBBBBBBBBB"
      /\ getAttributeAt (HonestLevy.document s') Pages.secondCardTitleAt
           "data-honestlevy-replaced" = Some "true"
      /\ getAttributeAt (HonestLevy.document s') Pages.secondCardTitleAt
           "data-honestlevy-original"
         = Some (textContentAt (HonestLevy.document s) Pages.secondCardTitleAt)).
Proof.
  intros s.
  apply (scan_retitles_every_visible_tracked_card s Pages.secondCardAt
           Pages.secondCardTitleAt "BBBBBBBBBBB" "Game two, annotated"
           {[ "clean_title" := "Game two, annotated" ]});
    try (vm_compute; reflexivity).
  - apply (bool_decide_eq_true_1
             (Pages.secondCardAt ∈ cards (HonestLevy.document s) HonestLevy.containerSelectors)).
    vm_compute. reflexivity.
  - vm_compute. discriminate.
Defined.

(** X16: a scan leaves nothing for the next one.  On a page whose cards
    are apart and whose title elements hold no link, a scan that ends
    normally is followed by a scan that changes nothing at all: the page,
    the memory of processed cards, [replacedThisSession] and the messages
    sent are what the first scan left, and the second scan ends normally
    too.  A debounced rescan of a page that nothing else changed in
    between counts nothing twice and reports nothing twice. *)
Theorem second_scan_changes_nothing (s : HonestLevy.State)
    (Hen : HonestLevy.enabled s = true)
    (Hind : independent (cards (HonestLevy.document s) HonestLevy.containerSelectors) = true)
    (Hlinks : forallb (titleHoldsNoLink (HonestLevy.document s))
                (cards (HonestLevy.document s) HonestLevy.containerSelectors) = true)
    (Hwatch : noWatchPage s = true)
    (Hok : (HonestLevy.scanPage s).2 = Js.Normal) :
  HonestLevy.scanPage (HonestLevy.scanPage s).1 = ((HonestLevy.scanPage s).1, Js.Normal).
Proof.
  apply SettleFacts.HL_scanPage_settles; try assumption.
  intros c Hc. rewrite forallb_forall in Hlinks. now apply Hlinks, list_elem_of_In.
Qed.

Lemma second_scan_changes_nothing_witness :
  let s := Pages.honestLevy
             (Pages.twoCards Inputs.linkA Pages.clickbait Inputs.linkB Pages.clickbait)
             "https://x/" Pages.twoTitles in
  HonestLevy.scanPage (HonestLevy.scanPage s).1 = ((HonestLevy.scanPage s).1, Js.Normal).
Proof.
  intros s. apply (second_scan_changes_nothing s); vm_compute; reflexivity.
Defined.

End Isolation.

Section Updates.
Import Dom Common Outcome DomFacts IsolationFacts.

(** X27: a new mapping reaches the page.  When the storage listener of an
    enabled HonestLevy script receives new [titles], it installs them,
    forgets every processed card and scans once; on a page whose cards are
    apart, every card in the viewport that links to a video of the new
    mapping and has a title element then shows the new clean title, whatever
    it showed and whatever was remembered for it before. *)
Theorem titles_update_reaches_the_page
    (r : HonestLevy.Runtime) (titles : gmap string Cache.TitleData)
    (c t : path) (vid ct : string) (record : Cache.TitleData)
    (Hen : HonestLevy.enabled (HonestLevy.st r) = true)
    (Hind : independent (cards (HonestLevy.document (HonestLevy.st r))
                           HonestLevy.containerSelectors) = true)
    (Hwatch : noWatchPage (HonestLevy.setTitlesCache titles (HonestLevy.st r)) = true)
    (Hok : (HonestLevy.scanPage
              (HonestLevy.setProcessedVideoIds ∅
                 (HonestLevy.setTitlesCache titles (HonestLevy.st r)))).2 = Js.Normal)
    (Hc : c ∈ cards (HonestLevy.document (HonestLevy.st r)) HonestLevy.containerSelectors)
    (Hlink : extractVideoId (findVideoLink (HonestLevy.location_href (HonestLevy.st r))
                               (HonestLevy.document (HonestLevy.st r)) c)
             = Some vid)
    (Hrec : titles !! vid = Some record)
    (Hct : record !! "clean_title" = Some ct)
    (Htitle : HonestLevy.findTitleElement (HonestLevy.document (HonestLevy.st r)) c = Some t)
    (Hvis : HonestLevy.isElementVisible (HonestLevy.st r) c = true) :
  let r' := HonestLevy.dispatch r
              (StorageChanged {| ch_enabled := None; ch_titles := Some (Some titles) |}
                 "local") in
  HonestLevy.titlesCache (HonestLevy.st r') = titles
  /\ HonestLevy.scanPageCalls r' = S (HonestLevy.scanPageCalls r)
  /\ textContentAt (HonestLevy.document (HonestLevy.st r')) t = ct.
Proof.
  intros r'.
  set (s1 := HonestLevy.setProcessedVideoIds ∅
               (HonestLevy.setTitlesCache titles (HonestLevy.st r))) in *.
  assert (E : r' = (HonestLevy.callScanPage (HonestLevy.setSt s1 r)).1) by reflexivity.
  rewrite E. clear E r'. unfold HonestLevy.callScanPage. cbn [HonestLevy.st HonestLevy.setSt].
  pose proof (WorkerFacts.HL_scanPage_settings s1) as [Htc _].
  assert (Hmem : HonestLevy.processedVideoIds s1 !! c <> Some vid).
  { subst s1. cbn [HonestLevy.processedVideoIds HonestLevy.setProcessedVideoIds].
    rewrite lookup_empty. discriminate. }
  pose proof (HL_scan_retitles s1 c t vid ct record Hen Hind Hwatch Hok Hc Hlink Hmem
                Hrec Hct Htitle Hvis) as [Htext _].
  destruct (HonestLevy.scanPage s1) as [s' compl]. cbn [fst snd] in *.
  split; [| split; [reflexivity | exact Htext]].
  cbn [HonestLevy.st HonestLevy.setSt HonestLevy.setScanPageCalls]. now rewrite Htc.
Qed.

Lemma titles_update_reaches_the_page_witness :
  let r := Sessions.wiredHL in
  let titles : gmap string Cache.TitleData :=
    {[ "AAAAAAAAAAA" := {[ "clean_title" := "Game one, with notes" ]} ]} in
  let r' := HonestLevy.dispatch r
              (StorageChanged {| ch_enabled := None; ch_titles := Some (Some titles) |}
                 "local") in
  HonestLevy.titlesCache (HonestLevy.st r') = titles
  /\ HonestLevy.scanPageCalls r' = S (HonestLevy.scanPageCalls r)
  /\ textContentAt (HonestLevy.document (HonestLevy.st r')) Pages.cardTitleAt
     = "Game one, with notes".
Proof.
  intros r titles.
  apply (titles_update_reaches_the_page r titles Pages.cardAt Pages.cardTitleAt
           "AAAAAAAAAAA" "Game one, with notes" {[ "clean_title" := "Game one, with notes" ]});
    try (vm_compute; reflexivity).
  apply (bool_decide_eq_true_1
           (Pages.cardAt ∈ cards (HonestLevy.document (HonestLevy.st r))
                             HonestLevy.containerSelectors)).
  vm_compute. reflexivity.
Defined.

End Updates.

Section Visibility.
Import Dom Common Outcome IsolationFacts VisibilityFacts.

(** X28: a scan leaves the cards outside the viewport alone.  A card with
    no width or no height, or whose top is at or below the bottom edge of
    the window, or whose bottom is at or above its top edge, is not
    visible to [isElementVisible], and a scan that ends normally (on a page
    whose cards are apart) leaves its subtree and its memory entry exactly
    as they were, tracked video or not. *)
Theorem scan_leaves_cards_outside_the_viewport_alone
    (s : HonestLevy.State) (c : path)
    (Hen : HonestLevy.enabled s = true)
    (Hind : independent (cards (HonestLevy.document s) HonestLevy.containerSelectors) = true)
    (Hwatch : noWatchPage s = true)
    (Hok : (HonestLevy.scanPage s).2 = Js.Normal)
    (Hc : c ∈ cards (HonestLevy.document s) HonestLevy.containerSelectors)
    (Hout : (width (rectAt (HonestLevy.document s) c) <= 0
             \/ height (rectAt (HonestLevy.document s) c) <= 0
             \/ HonestLevy.innerHeight s <= top (rectAt (HonestLevy.document s) c)
             \/ bottom (rectAt (HonestLevy.document s) c) <= 0)%Z) :
  HonestLevy.isElementVisible s c = false
  /\ nodeAt (HonestLevy.document (HonestLevy.scanPage s).1) c
     = nodeAt (HonestLevy.document s) c
  /\ HonestLevy.processedVideoIds (HonestLevy.scanPage s).1 !! c
     = HonestLevy.processedVideoIds s !! c.
Proof.
  apply outside_viewport in Hout. split; [exact Hout |].
  destruct (HL_scanPage_isolated s Hen Hind Hwatch Hok) as (W1 & _).
  destruct (W1 c Hc) as [Hn Hm]. rewrite Hn, Hm.
  now rewrite (HL_invisible_card c s Hout).
Qed.

Lemma scan_leaves_cards_outside_the_viewport_alone_witness :
  let s := Offscreen.scenarioHL in
  HonestLevy.isElementVisible s Pages.cardAt = false
  /\ nodeAt (HonestLevy.document (HonestLevy.scanPage s).1) Pages.cardAt
     = nodeAt (HonestLevy.document s) Pages.cardAt
  /\ HonestLevy.processedVideoIds (HonestLevy.scanPage s).1 !! Pages.cardAt
     = HonestLevy.processedVideoIds s !! Pages.cardAt.
Proof.
  intros s.
  apply (scan_leaves_cards_outside_the_viewport_alone s Pages.cardAt);
    try (vm_compute; reflexivity).
  - apply (bool_decide_eq_true_1
             (Pages.cardAt ∈ cards (HonestLevy.document s) HonestLevy.containerSelectors)).
    vm_compute. reflexivity.
  - right. right. left. vm_compute. discriminate.
Defined.

End Visibility.

Section GothamCleanScheduler.
Import Dom Common Outcome GothamCleanRuntime GothamCleanRuntimeFacts.

(** X29: GothamClean rescans on added nodes and on navigation only.  A
    scroll event, and a mutation batch that adds no node (an [href] that
    changed, say, when the host reuses a card), leave the instance exactly
    as it is: no timer is armed, nothing is scanned. *)
Theorem gothamClean_rescans_only_on_added_nodes (r : Runtime) (events : list Event)
    (Hevents : forallb unobserved events = true) :
  run r events = r.
Proof.
  revert r. induction events as [| e events IH]; intros r; [reflexivity |].
  simpl in Hevents. apply andb_true_iff in Hevents as [He Hevents].
  simpl. rewrite (dispatch_unobserved r e He). now apply IH.
Qed.

Lemma gothamClean_rescans_only_on_added_nodes_witness :
  run recycled [ Mutations [Sessions.hrefChanged; Sessions.addedNodes 0]; Scroll;
                 Mutations [Sessions.hrefChanged]; Scroll ]
  = recycled.
Proof.
  apply (gothamClean_rescans_only_on_added_nodes recycled). reflexivity.
Defined.

(** X30: navigation makes GothamClean forget its processed containers.  A
    card that is in [processedElements], and so is skipped whatever it now
    links to, is read again after a [yt-navigate-finish] or [popstate]:
    the event empties the set and arms a 500 ms scan, and
    [processVideoCard] then gives an attributed card of a tracked video its
    clean title and counts it. *)
Theorem gothamClean_navigation_forgets_processed_cards
    (r : Runtime) (e : Event) (c t : path) (vid ct : string) (record : Cache.TitleData)
    (He : isNavigation e = true)
    (Hnav : onYtNavigateFinish r = true) (Hpop : onPopstate r = true)
    (Hseen : c ∈ GothamClean.processedElements (st r))
    (Hch : GothamClean.isGothamChessVideo (st r) c = true)
    (Hlink : extractVideoId (findVideoLink (GothamClean.location_href (st r))
                               (GothamClean.document (st r)) c) = Some vid)
    (Hrec : GothamClean.titlesCache (st r) !! vid = Some record)
    (Hct : record !! "clean_title" = Some ct)
    (Htitle : GothamClean.findTitleElement (GothamClean.document (st r)) c = Some t)
    (Htext : textContentAt (GothamClean.document (st r)) t <> ct) :
  let r' := dispatch r e in
  let s' := (GothamClean.processVideoCard c (st r')).1 in
  GothamClean.processVideoCard c (st r) = (st r, Js.Normal)
  /\ GothamClean.processedElements (st r') = ∅
  /\ timers r' !! nextTimer r = Some 500
  /\ scanPageCalls r' = scanPageCalls r
  /\ textContentAt (GothamClean.document s') t = ct
  /\ GothamClean.replacedThisSession s' = S (GothamClean.replacedThisSession (st r)).
Proof.
  intros r' s'.
  assert (Hr' : r' = navigationCallback r).
  { subst r'. destruct e; try discriminate He; simpl; [now rewrite Hnav | now rewrite Hpop]. }
  split.
  { unfold GothamClean.processVideoCard. now rewrite bool_decide_eq_true_2. }
  subst s'. rewrite Hr'. clear Hr' r'.
  split; [reflexivity |]. split; [apply lookup_insert_eq |]. split; [reflexivity |].
  cbn [navigationCallback setTimeoutScanPage fst st setSt setNextTimer setTimers].
  set (s1 := GothamClean.setProcessedElements ∅ (st r)).
  pose proof (EngineFacts.Cache_get_own _ _ _ Hrec) as Hget.
  assert (R : replacedGC c vid t s1 (GothamClean.processVideoCard c s1).1).
  { apply GC_processVideoCard_replaces.
    - subst s1. simpl. apply not_elem_of_empty.
    - exact Hch.
    - exact Hlink.
    - subst s1. simpl. now rewrite Hget.
    - exact Htitle.
    - subst s1. simpl. rewrite Hget. simpl. rewrite Hct. congruence. }
  destruct R as (Hd & _ & Hn & _). rewrite Hd, Hn. split; [| reflexivity].
  rewrite !DomFacts.textContentAt_setAttribute.
  rewrite DomFacts.textContentAt_set.
  - subst s1. simpl. rewrite Hget. simpl. now rewrite Hct.
  - apply DomFacts.elementAt_is_Some.
    now apply (EngineFacts.GC_findTitleElement_elementAt _ c).
Qed.

Lemma gothamClean_navigation_forgets_processed_cards_witness :
  let r := recycled in
  let r' := dispatch r YtNavigateFinish in
  let s' := (GothamClean.processVideoCard Pages.cardAt (st r')).1 in
  GothamClean.processVideoCard Pages.cardAt (st r) = (st r, Js.Normal)
  /\ GothamClean.processedElements (st r') = ∅
  /\ timers r' !! nextTimer r = Some 500
  /\ scanPageCalls r' = scanPageCalls r
  /\ textContentAt (GothamClean.document s') Pages.cardTitleAt = "Game two, annotated"
  /\ GothamClean.replacedThisSession s' = S (GothamClean.replacedThisSession (st r)).
Proof.
  intros r.
  apply (gothamClean_navigation_forgets_processed_cards r YtNavigateFinish Pages.cardAt
           Pages.cardTitleAt "BBBBBBBBBBB" "Game two, annotated"
           {[ "clean_title" := "Game two, annotated" ]});
    try (vm_compute; reflexivity).
  vm_compute. discriminate.
Defined.

End GothamCleanScheduler.
